(** * Solar roof simulator: the polygon sampling and attribute normalisation
      engine of [src/lib/swiss-api.ts]

    A JavaScript number is kept as the rational it denotes ([Q]); [null] and
    [undefined] are [None]; the infinities the code uses as sentinels have a
    constructor of their own ([JS.Infinity] for a missing centroid distance,
    [None] for the initial bounding box).  Square roots are kept symbolic and
    compared through squares, which the section on square roots justifies
    over the reals.  Where the program divides or multiplies on the way to a
    figure it reports (the tier-1 quotient of the normaliser and of the
    polygon lookup, and the power), the result is rounded to binary64 by
    [Binary64.fl], round to nearest with ties to even, subnormal numbers
    included; [Binary64.fl] is compared with the primitive floats on the
    reference inputs.  The other figures are kept exact.  Infinite results,
    [NaN] and signed zeros have no counterpart: the properties of rounded
    figures are stated for inputs on which the program's result is finite.
    The order in which concurrent lookups complete is a parameter ([sched])
    of the functions that start workers. *)

From Stdlib Require Import Reals Qreals Lra.
From Stdlib Require Floats.PrimFloat Floats.FloatOps Floats.SpecFloat.
From Stdlib Require Import ZArith QArith Qround Qabs Qpower Lia Lqa List Bool String.
From stdpp Require Import gmap strings list.

Local Open Scope Q_scope.

(** ** JavaScript numbers *)

Module JS.

(** [if (x)] on a number: every number but zero is truthy. *)
Definition truthy (x : Q) : bool := negb (Qeq_bool x 0).

(** [if (x)] on [number | null]. *)
Definition truthy_opt (x : option Q) : bool :=
  match x with
  | Some q => truthy q
  | None => false
  end.

(** [a < b], [a > b], [a <= b] on numbers. *)
Definition lt (a b : Q) : bool :=
  match a ?= b with Lt => true | _ => false end.
Definition gt (a b : Q) : bool := lt b a.
Definition le (a b : Q) : bool := Qle_bool a b.

(** [x < num / den].  A division by zero gives [Infinity], [-Infinity] or
    [NaN] according to the sign of [num], and [x] is below the first only. *)
Definition lt_div (x num den : Q) : bool :=
  if Qeq_bool den 0 then lt 0 num else lt x (num / den).

(** [Math.round]: the nearest integer, halves going up. *)
Definition Math_round (x : Q) : Z := Qfloor (x + (1 # 2)).

(** [Math.max] on grid sizes. *)
Definition Math_max (a b : nat) : nat := Nat.max a b.

(** [Number.EPSILON] *)
Definition EPSILON : Q := 1 / inject_Z (2 ^ 52).

(** [a && b] and [a || b] on [number | null]. *)
Definition and (a b : option Q) : option Q := if truthy_opt a then b else a.
Definition or (a b : option Q) : option Q := if truthy_opt a then a else b.

(** [x || 0] where a number is wanted. *)
Definition or_zero (a : option Q) : Q :=
  match or a (Some 0) with Some q => q | None => 0 end.

(** [Math.sqrt r] of a rational is irrational in general: a distance is kept
    as its radicand and compared exactly through squares; [Infinity] is the
    distance of a candidate without a centroid. *)
Inductive Dist : Type :=
| Sqrt (radicand : Q)
| Infinity.

(** The distance [d], for [d >= 0]. *)
Definition distance (d : Q) : Dist := Sqrt (d * d).

(** [a < b] on distances. *)
Definition dist_lt (a b : Dist) : bool :=
  match a, b with
  | Sqrt ra, Sqrt rb => lt ra rb
  | Sqrt _, Infinity => true
  | Infinity, _ => false
  end.

(** [a <= n] for a distance [a] and a non-negative number [n]. *)
Definition dist_le (a : Dist) (n : Q) : bool :=
  match a with
  | Sqrt ra => le ra (n * n)
  | Infinity => false
  end.

(** [Math.sqrt(v) / m < t] for [m > 0] and [t > 0]. *)
Definition sqrt_div_lt (v m t : Q) : bool := lt v ((t * m) * (t * m)).

End JS.

(** ** Binary64 rounding

    The result of an arithmetic operation of the program is the binary64
    number nearest to the exact result, the one with an even significand
    when two are equally near. *)

Module Binary64.

(** The integer nearest to [y], the even one of the two when [y] is half
    way between two integers. *)
Definition nearest_even (y : Q) : Z :=
  let q := Qfloor y in
  match Qcompare (y - inject_Z q) (1 # 2) with
  | Lt => q
  | Gt => (q + 1)%Z
  | Eq => if Z.even q then q else (q + 1)%Z
  end.

(** The exponent [e] of [x > 0]: [2 ^ e <= x < 2 ^ (e + 1)].  The difference
    of the binary logarithms of numerator and denominator is [e] or
    [e + 1]. *)
Definition exponent (x : Q) : Z :=
  let e := (Z.log2 (Qnum x) - Z.log2 (Zpos (Qden x)))%Z in
  if Qle_bool (2 ^ e) x then e else (e - 1)%Z.

(** The binary64 number nearest to [x > 0]: a multiple of [2 ^ (e - 52)],
    which leaves 53 significant bits, and of [2 ^ (-1074)], the smallest
    subnormal number, for [x] below [2 ^ (-1022)]. *)
Definition round_pos (x : Q) : Q :=
  let k := Z.max (exponent x - 52) (-1074) in
  inject_Z (nearest_even (x / 2 ^ k)) * 2 ^ k.

(** Rounding is symmetric about zero.  The result is in lowest terms, as is
    the argument that is rounded, so that equal numbers round alike. *)
Definition fl (x : Q) : Q :=
  let r := Qred x in
  match Qnum r with
  | Z0 => 0
  | Zpos _ => Qred (round_pos r)
  | Zneg _ => Qred (- round_pos (- r))
  end.

(** Half the distance of 1 to the next number, and half the smallest
    subnormal number: the relative and the absolute bound of a rounding
    error. *)
Definition u : Q := 2 ^ (-53).
Definition eta : Q := 2 ^ (-1075).

(** The program's result is finite: the rounded number is below
    [2 ^ 1024]. *)
Definition no_overflow (x : Q) : Prop := Qabs x < 2 ^ 1024.

End Binary64.

(** ** Geographic points *)

Record LatLng : Type := mkLatLng { lat : Q; lng : Q }.

(** [pointInPolygon(point, vs)]: the loop runs [i] over the vertices with [j]
    the previous index, starting at the last one. *)
Definition intersect (x y : Q) (vi vj : LatLng) : bool :=
  let xi := lng vi in
  let yi := lat vi in
  let xj := lng vj in
  let yj := lat vj in
  negb (Bool.eqb (JS.gt yi y) (JS.gt yj y))
  && JS.lt_div x ((xj - xi) * (y - yi)) (yj - yi + xi).

Fixpoint pointInPolygon_loop (x y : Q) (vj : LatLng) (vs : list LatLng)
    (inside : bool) : bool :=
  match vs with
  | [] => inside
  | vi :: rest =>
      pointInPolygon_loop x y vi rest
        (if intersect x y vi vj then negb inside else inside)
  end.

Definition pointInPolygon (point : LatLng) (vs : list LatLng) : bool :=
  match vs with
  | [] => false
  | v0 :: _ => pointInPolygon_loop (lng point) (lat point) (List.last vs v0) vs false
  end.


(** ** Raw feature attributes and the normalised record *)

(** The attributes of one identify result the code reads.  The identifying
    fields are numbers or strings, the others numbers; an absent or [null]
    field is [None]. *)
Record Attrs : Type := mkAttrs {
  building_id : option Z;
  objectid : option Z;
  id : option Z;
  label : option string;
  flaeche : option Q;
  stromertrag : option Q;
  gstrahlung : option Q;
  mstrahlung : option Q;
  leistung : option Q;
  eignung : option string
}.

(** The object [{}]. *)
Definition noAttrs : Attrs :=
  mkAttrs None None None None None None None None None None.

(** Identify geometry: a point [{x, y}], a polygon with [rings], a multipoint
    with [points], or an object with none of these. *)
Inductive Geometry : Type :=
| GPoint (x y : Q)
| GRings (rings : list (list (Q * Q)))
| GPoints (points : list (Q * Q))
| GOther.

Record IdentifyResult : Type := mkResult {
  attributes : option Attrs;
  geometry : option Geometry
}.

(** The [raw] field carries the chosen attributes (point lookup), the whole
    result list (polygon lookup) or [{}]. *)
Inductive Raw : Type :=
| RawAttrs (a : Attrs)
| RawResults (rs : list IdentifyResult)
| RawNone.

(** [SolarRoofData].  Every place of the source that fills [radiation] stores
    a [Math.round] result or a cached one, hence an integer. *)
Record SolarRoofData : Type := mkRoof {
  radiation : Z;
  area : Q;
  power : Q;
  suitability : string;
  stretrag : option Q;
  raw : Raw
}.

(** [{ ...base, radiation: sampled }] *)
Definition with_radiation (base : SolarRoofData) (sampled : Z) : SolarRoofData :=
  mkRoof sampled (area base) (power base) (suitability base) (stretrag base) (raw base).

(** ** The normaliser of [getSolarData] (lines 244-304) *)

Module Normalizer.

(** The literals [0.17] and [0.85] are the binary64 numbers nearest to
    them, and their product is rounded: [COMBINED_FACTOR] is
    0.14450000000000002 (lines 255-257). *)
Definition MODULE_EFFICIENCY : Q := Binary64.fl 0.17.
Definition SYSTEM_FACTOR : Q := Binary64.fl 0.85.
Definition COMBINED_FACTOR : Q := Binary64.fl (MODULE_EFFICIENCY * SYSTEM_FACTOR).

(** [stromertrag / (flaeche * COMBINED_FACTOR)]: the product is rounded,
    then the quotient.  The program's quotient is infinite when the rounded
    product is zero (an area of less than [2 ^ (-1072)]) or the quotient
    reaches [2 ^ 1024]; the properties of tier 1 leave these inputs out. *)
Definition tier1_quotient (stromertrag flaeche : Q) : Q :=
  Binary64.fl (stromertrag / Binary64.fl (flaeche * COMBINED_FACTOR)).

(** [Number(a) || 0] *)
Definition number_or_zero (a : option Q) : Q :=
  match a with Some q => q | None => 0 end.

(** [a ? Number(a) : null] *)
Definition number_or_null (a : option Q) : option Q :=
  if JS.truthy_opt a then a else None.

(** The plausibility window [c > 200 && c < 20000]. *)
Definition plausible (c : Q) : bool := JS.gt c 200 && JS.lt c 20000.

(** 1) [if (stromertrag && flaeche > 0)] *)
Definition tier1 (stromertrag : option Q) (flaeche : Q) : option Q :=
  match stromertrag with
  | Some s =>
      if JS.truthy s && JS.gt flaeche 0
      then Some (tier1_quotient s flaeche)
      else None
  | None => None
  end.

(** 2) [if (!annualKwhPerM2 && mstrahlung)] *)
Definition tier2 (mstrahlung : option Q) (annualKwhPerM2 : option Q) : option Q :=
  match mstrahlung with
  | Some m =>
      if negb (JS.truthy_opt annualKwhPerM2) && JS.truthy m
      then
        let cand := m * 12 in
        if plausible cand then Some cand else annualKwhPerM2
      else annualKwhPerM2
  | None => annualKwhPerM2
  end.

Definition tier3_candidates (g : Q) : list Q := [g; g / 1000; g / 3.6].

(** 3) [if (!annualKwhPerM2 && gstrahlung)]: the loop stops at the first
    plausible candidate. *)
Definition tier3 (gstrahlung : option Q) (annualKwhPerM2 : option Q) : option Q :=
  match gstrahlung with
  | Some g =>
      if negb (JS.truthy_opt annualKwhPerM2) && JS.truthy g
      then
        match List.find plausible (tier3_candidates g) with
        | Some c => Some c
        | None => annualKwhPerM2
        end
      else annualKwhPerM2
  | None => annualKwhPerM2
  end.

(** 4) [if (!annualKwhPerM2)] *)
Definition tier4 (gstrahlung mstrahlung : option Q) (annualKwhPerM2 : option Q)
    : option Q :=
  if negb (JS.truthy_opt annualKwhPerM2)
  then
    let fallback :=
      JS.or (JS.or (JS.and gstrahlung gstrahlung)
                   (JS.and mstrahlung (option_map (fun m => m * 12) mstrahlung)))
            (Some 0) in
    Some (JS.or_zero fallback)
  else annualKwhPerM2.

(** The value of [annualKwhPerM2] at the [return]. *)
Definition annualKwhPerM2 (attrs : Attrs) : option Q :=
  let flaeche := number_or_zero (flaeche attrs) in
  let stromertrag := number_or_null (stromertrag attrs) in
  let gstrahlung := number_or_null (gstrahlung attrs) in
  let mstrahlung := number_or_null (mstrahlung attrs) in
  tier4 gstrahlung mstrahlung
    (tier3 gstrahlung
      (tier2 mstrahlung
        (tier1 stromertrag flaeche))).

(** [leistung > 1000 ? leistung / 1000 : leistung] *)
Definition powerKw (attrs : Attrs) : Q :=
  let leistung :=
    match number_or_null (leistung attrs) with Some l => l | None => 0 end in
  if JS.gt leistung 1000 then Binary64.fl (leistung / 1000) else leistung.

(** The record returned by [getSolarData] for the chosen attributes. *)
Definition normalize (attrs : Attrs) : SolarRoofData :=
  {| radiation := JS.Math_round (JS.or_zero (annualKwhPerM2 attrs));
     area := number_or_zero (flaeche attrs);
     power :=
       Binary64.fl
         (inject_Z (JS.Math_round
                      (Binary64.fl (Binary64.fl (powerKw attrs + JS.EPSILON) * 100)))
          / 100);
     stretrag := number_or_null (stromertrag attrs);
     suitability := match eignung attrs with
                    | Some e => if String.eqb e "" then "unknown" else e
                    | None => "unknown"
                    end;
     raw := RawAttrs attrs |}.

End Normalizer.

(** ** Candidate selection of [getSolarData] (lines 158-241) *)

Module Selector.

(** The deduplication key [a.building_id || a.objectid || a.id || a.label ||
    JSON.stringify(a)]: a number, a string, or the serialised attributes
    (kept as the attributes themselves). *)
Inductive Key : Type :=
| KNum (n : Z)
| KStr (str : string)
| KJson (a : Attrs).

Definition opt_eqb {A} (eqb : A -> A -> bool) (a b : option A) : bool :=
  match a, b with
  | Some x, Some y => eqb x y
  | None, None => true
  | _, _ => false
  end.

Definition attrs_eqb (a b : Attrs) : bool :=
  opt_eqb Z.eqb (building_id a) (building_id b)
  && opt_eqb Z.eqb (objectid a) (objectid b)
  && opt_eqb Z.eqb (id a) (id b)
  && opt_eqb String.eqb (label a) (label b)
  && opt_eqb Qeq_bool (flaeche a) (flaeche b)
  && opt_eqb Qeq_bool (stromertrag a) (stromertrag b)
  && opt_eqb Qeq_bool (gstrahlung a) (gstrahlung b)
  && opt_eqb Qeq_bool (mstrahlung a) (mstrahlung b)
  && opt_eqb Qeq_bool (leistung a) (leistung b)
  && opt_eqb String.eqb (eignung a) (eignung b).

Definition key_eqb (k1 k2 : Key) : bool :=
  match k1, k2 with
  | KNum a, KNum b => Z.eqb a b
  | KStr a, KStr b => String.eqb a b
  | KJson a, KJson b => attrs_eqb a b
  | _, _ => false
  end.

Definition truthy_id (n : option Z) : option Key :=
  match n with
  | Some z => if Z.eqb z 0 then None else Some (KNum z)
  | None => None
  end.

Definition truthy_label (l : option string) : option Key :=
  match l with
  | Some str => if String.eqb str "" then None else Some (KStr str)
  | None => None
  end.

Definition first_key (a b : option Key) : option Key :=
  match a with Some k => Some k | None => b end.

Definition keyOf (a : Attrs) : Key :=
  match first_key (truthy_id (building_id a))
          (first_key (truthy_id (objectid a))
             (first_key (truthy_id (id a)) (truthy_label (label a)))) with
  | Some k => k
  | None => KJson a
  end.

(** The entries of [byKey]: [{ attrs, f, s, geom }]. *)
Record Entry : Type := mkEntry {
  e_attrs : Attrs;
  e_f : Q;
  e_s : Q;
  e_geom : option Geometry
}.

(** [byKey] is a [Map]: iteration follows the order of first insertion, and
    [set] on a present key replaces the value in place. *)
Fixpoint byKey_get (key : Key) (m : list (Key * Entry)) : option Entry :=
  match m with
  | [] => None
  | (k, v) :: rest => if key_eqb k key then Some v else byKey_get key rest
  end.

Fixpoint byKey_set (key : Key) (e : Entry) (m : list (Key * Entry))
    : list (Key * Entry) :=
  match m with
  | [] => [(key, e)]
  | (k, v) :: rest =>
      if key_eqb k key then (k, e) :: rest else (k, v) :: byKey_set key e rest
  end.

(** The body of [for (const c of candidates)]. *)
Definition dedupe_step (byKey : list (Key * Entry)) (c : IdentifyResult)
    : list (Key * Entry) :=
  let a := match attributes c with Some a => a | None => noAttrs end in
  let key := keyOf a in
  let f := Normalizer.number_or_zero (flaeche a) in
  let s := match Normalizer.number_or_null (stromertrag a) with
           | Some v => v
           | None => 0
           end in
  match byKey_get key byKey with
  | None => byKey_set key (mkEntry a f s (geometry c)) byKey
  | Some existing =>
      if JS.gt f (e_f existing)
         || (Qeq_bool f (e_f existing) && JS.gt s (e_s existing))
      then byKey_set key (mkEntry a f s (geometry c)) byKey
      else byKey
  end.

(** [Array.from(byKey.values())] *)
Definition uniqOf (results : list IdentifyResult) : list Entry :=
  map snd (fold_left dedupe_step results []).

(** [computeCentroid(geom)] *)
Definition computeCentroid (geom : option Geometry) : option (Q * Q) :=
  match geom with
  | None => None
  | Some (GPoint x y) => Some (x, y)
  | Some (GRings rings) =>
      match rings with
      | (p :: ring') :: _ =>
          let ring := p :: ring' in
          let sx := fold_left (fun acc p => acc + fst p) ring 0 in
          let sy := fold_left (fun acc p => acc + snd p) ring 0 in
          let n := inject_Z (Z.of_nat (length ring)) in
          Some (sx / n, sy / n)
      | _ => None
      end
  | Some (GPoints points) =>
      match points with
      | p :: _ => Some p
      | [] => None
      end
  | Some GOther => None
  end.

(** A representative with its distance to the query point attached. *)
Record Candidate : Type := mkCandidate {
  attrs : Attrs;
  f : Q;
  s : Q;
  geom : option Geometry;
  dist : JS.Dist
}.

(** The body of [for (const u of uniq)] that attaches [dist]. *)
Definition withDist (easting northing : Q) (u : Entry) : Candidate :=
  let d :=
    match computeCentroid (e_geom u) with
    | Some (cx, cy) =>
        let dx := cx - easting in
        let dy := cy - northing in
        JS.Sqrt (dx * dx + dy * dy)
    | None => JS.Infinity
    end in
  mkCandidate (e_attrs u) (e_f u) (e_s u) (e_geom u) d.

(** The comparator of [uniq.sort]: negative when [x] goes first. *)
Definition comparator (x y : Candidate) : Q :=
  if negb (Qeq_bool (f y) (f x)) then f y - f x else s y - s x.

(** [Array.prototype.sort] is stable: an element is put in front of the
    first one that does not have to precede it. *)
Fixpoint sort_insert (x : Candidate) (l : list Candidate) : list Candidate :=
  match l with
  | [] => [x]
  | y :: rest =>
      if JS.lt (comparator y x) 0 then y :: sort_insert x rest else x :: y :: rest
  end.

Definition sort (l : list Candidate) : list Candidate :=
  fold_right sort_insert [] l.

(** [for (const u of uniq) if (u.dist < nearest.dist) nearest = u] *)
Definition nearestOf (first : Candidate) (uniq : list Candidate) : Candidate :=
  fold_left (fun nearest u => if JS.dist_lt (dist u) (dist nearest) then u else nearest)
    uniq first.

Definition CHOOSE_NEARBY_METERS : Q := 20.

(** [chosenObj], from the representatives with their distances. *)
Definition chosenObj (uniq : list Candidate) : option Candidate :=
  match sort uniq with
  | [] => None
  | u0 :: rest =>
      let nearest := nearestOf u0 (u0 :: rest) in
      Some (if JS.dist_le (dist nearest) CHOOSE_NEARBY_METERS then nearest else u0)
  end.

(** [attrs], the attributes handed to the normaliser. *)
Definition chosenAttrs (easting northing : Q) (results : list IdentifyResult)
    : Attrs :=
  match chosenObj (map (withDist easting northing) (uniqOf results)) with
  | Some c => attrs c
  | None =>
      match results with
      | r :: _ => match attributes r with Some a => a | None => noAttrs end
      | [] => noAttrs
      end
  end.

End Selector.

(** ** The world the asynchronous functions run in *)

(** [SwissCoordinates] *)
Record SwissCoordinates : Type := mkLV95 { easting : Q; northing : Q }.

(** The body of an identify response: [data.results] may be missing. *)
Record IdentifyData : Type := mkData { results : option (list IdentifyResult) }.

(** What [await fetch(url)] gives: the promise rejects, or a response with its
    [ok] flag, its [status] and the value of [await response.json()] ([None]
    when that rejects). *)
Record Response (A : Type) : Type := mkResponse {
  ok : bool;
  status : Z;
  json : option A
}.
Arguments mkResponse {A} ok status json.
Arguments ok {A} r.
Arguments status {A} r.
Arguments json {A} r.

Inductive Fetched (A : Type) : Type :=
| Rejected
| Resolved (response : Response A).
Arguments Rejected {A}.
Arguments Resolved {A} response.

(** The three services of api3.geo.admin.ch the module calls, each answer
    depending on the request alone.  The flag of [reframe] tells the
    alternative host geodesy.geo.admin.ch. *)
Record Network : Type := mkNetwork {
  reframe : bool -> Q -> Q -> Fetched SwissCoordinates;
  identifyPoint : Q -> Q -> Fetched IdentifyData;
  identifyPolygon : list (Q * Q) -> Fetched IdentifyData
}.

Inductive Request : Type :=
| ReqReframe (alternative : bool) (lat lng : Q)
| ReqIdentifyPoint (easting northing : Q)
| ReqIdentifyPolygon (ring : list (Q * Q)).

(** The cache key: [JSON.stringify] of the vertices rounded by [toFixed(6)],
    kept as the list of the rounded coordinates in millionths of a degree. *)
Definition PolyKey : Type := list (Z * Z).

(** Module state and the observable effects: the module-level
    [_polygonSampleCache], [globalThis.__polygonSampleCache] (absent until
    first stored), the item [solar_polygon_cache] of [window.localStorage]
    (outer [None]: no [window.localStorage]), the [fetch] calls issued so far
    and the calls of the progress callback.  The cached values are the
    [Math.round] results the module stores, hence integers. *)
Record World : Type := mkWorld {
  memCache : gmap PolyKey Z;
  globalCache : option (gmap PolyKey Z);
  localStorage : option (option (gmap PolyKey Z));
  requests : list Request;
  progress : list (nat * nat)
}.

(** An [async] function either returns or throws, and changes the world. *)
Inductive Outcome (A : Type) : Type :=
| Returned (a : A)
| Thrown.
Arguments Returned {A} a.
Arguments Thrown {A}.

Definition M (A : Type) : Type := World -> Outcome A * World.

Definition ret {A} (a : A) : M A := fun w => (Returned a, w).

Definition throw {A} : M A := fun w => (Thrown, w).

Definition bind {A B} (m : M A) (k : A -> M B) : M B :=
  fun w =>
    match m w with
    | (Returned a, w') => k a w'
    | (Thrown, w') => (Thrown, w')
    end.

(** [try { m } catch (err) { handler }] *)
Definition try_catch {A} (m : M A) (handler : M A) : M A :=
  fun w =>
    match m w with
    | (Returned a, w') => (Returned a, w')
    | (Thrown, w') => handler w'
    end.

Definition get_world : M World := fun w => (Returned w, w).

Definition modify (g : World -> World) : M unit := fun w => (Returned tt, g w).

Declare Scope js_scope.
Delimit Scope js_scope with js.
Notation "x <- m ;; k" := (bind m (fun x => k))
  (at level 100, m at next level, k at level 200, right associativity) : js_scope.
Notation "m ;; k" := (bind m (fun _ => k))
  (at level 100, k at level 200, right associativity) : js_scope.
Local Open Scope js_scope.

Definition log_request (r : Request) : M unit :=
  modify (fun w => mkWorld (memCache w) (globalCache w) (localStorage w)
                           (requests w ++ [r]) (progress w)).

(** [await fetch(url)]: the request is issued; a rejected promise throws. *)
Definition fetch {A} (r : Request) (answer : Fetched A) : M (Response A) :=
  log_request r ;;
  match answer with
  | Rejected => throw
  | Resolved response => ret response
  end.

(** [await response.json()] *)
Definition json_of {A} (response : Response A) : M A :=
  match json response with Some d => ret d | None => throw end.

Section Api.

Variable net : Network.

(** [convertWGS84toLV95(lat, lng)] *)
Definition convertWGS84toLV95 (la ln : Q) : M SwissCoordinates :=
  response <- fetch (ReqReframe false la ln) (reframe net false la ln) ;;
  if negb (ok response) then
    altResponse <- fetch (ReqReframe true la ln) (reframe net true la ln) ;;
    if negb (ok altResponse) then throw
    else
      data <- json_of altResponse ;;
      ret (mkLV95 (easting data) (northing data))
  else
    data <- json_of response ;;
    ret (mkLV95 (easting data) (northing data)).

(** [convertWGS84toLV95] from its first [await] on: what the function does
    once the primary host has answered the request it has sent. *)
Definition convertResume (la ln : Q) : M SwissCoordinates :=
  match reframe net false la ln with
  | Rejected => throw
  | Resolved response =>
      if negb (ok response) then
        altResponse <- fetch (ReqReframe true la ln) (reframe net true la ln) ;;
        if negb (ok altResponse) then throw
        else
          data <- json_of altResponse ;;
          ret (mkLV95 (easting data) (northing data))
      else
        data <- json_of response ;;
        ret (mkLV95 (easting data) (northing data))
  end.

(** [polygonWgs84.map((p) => convertWGS84toLV95(p.lat, p.lng))]: every call
    runs up to its first [await], so the primary requests of all the
    vertices are sent, in the order of the vertices, before any answer is
    handled. *)
Definition startConversions (polygon : list LatLng) : M unit :=
  modify (fun w =>
    mkWorld (memCache w) (globalCache w) (localStorage w)
            (requests w ++ map (fun p => ReqReframe false (lat p) (lng p)) polygon)
            (progress w)).

(** [getSolarData(easting, northing)] *)
Definition getSolarData (e n : Q) : M (option SolarRoofData) :=
  response <- fetch (ReqIdentifyPoint e n) (identifyPoint net e n) ;;
  if negb (ok response) then ret None
  else
    data <- json_of response ;;
    match results data with
    | None => ret None
    | Some [] => ret None
    | Some (r :: rs) =>
        ret (Some (Normalizer.normalize (Selector.chosenAttrs e n (r :: rs))))
    end.

(** [await Promise.all(ms)]: every computation runs, also after one has
    thrown; the result is thrown as soon as one of them throws.  The
    computations are what is left of the calls after their first [await];
    they are resumed in the order of the calls. *)
Fixpoint promise_all {A} (ms : list (M A)) : M (list A) :=
  match ms with
  | [] => ret []
  | m :: rest =>
      fun w =>
        match m w with
        | (Returned a, w') =>
            match promise_all rest w' with
            | (Returned l, w'') => (Returned (a :: l), w'')
            | (Thrown, w'') => (Thrown, w'')
            end
        | (Thrown, w') => (Thrown, snd (promise_all rest w'))
        end
  end.

(** *** [getSolarDataForPolygon] (lines 311-415) *)

(** The accumulators of the loop over [data.results]. *)
Record Totals : Type := mkTotals {
  seen : list Selector.Key;
  totalFlaeche : Q;
  totalStromertrag : Q;
  countStrom : nat;
  totalGstrahlung : Q;
  countG : nat
}.

(** [attrs.building_id || attrs.label || attrs.id || attrs.objectid ||
    JSON.stringify(attrs)] *)
Definition polygonKeyOf (a : Attrs) : Selector.Key :=
  match Selector.first_key (Selector.truthy_id (building_id a))
          (Selector.first_key (Selector.truthy_label (label a))
             (Selector.first_key (Selector.truthy_id (id a))
                (Selector.truthy_id (objectid a)))) with
  | Some k => k
  | None => Selector.KJson a
  end.

Definition totals_step (t : Totals) (r : IdentifyResult) : Totals :=
  let attrs := match attributes r with Some a => a | None => noAttrs end in
  let key := polygonKeyOf attrs in
  if existsb (Selector.key_eqb key) (seen t) then t
  else
    let f := Normalizer.number_or_zero (flaeche attrs) in
    let s := Normalizer.number_or_null (stromertrag attrs) in
    let g := Normalizer.number_or_null (gstrahlung attrs) in
    mkTotals (seen t ++ [key])
      (totalFlaeche t + f)
      (match s with Some v => totalStromertrag t + v | None => totalStromertrag t end)
      (match s with Some _ => S (countStrom t) | None => countStrom t end)
      (match g with Some v => totalGstrahlung t + v | None => totalGstrahlung t end)
      (match g with Some _ => S (countG t) | None => countG t end).

Definition nat_to_Q (n : nat) : Q := inject_Z (Z.of_nat n).

Definition polygonAnnual (t : Totals) : option Q :=
  let a1 :=
    if JS.gt (totalStromertrag t) 0 && JS.gt (totalFlaeche t) 0
    then Some (Normalizer.tier1_quotient (totalStromertrag t) (totalFlaeche t))
    else None in
  let a2 :=
    if negb (JS.truthy_opt a1) && (0 <? countG t)%nat
    then
      let avgG := totalGstrahlung t / nat_to_Q (countG t) in
      match List.find Normalizer.plausible (Normalizer.tier3_candidates avgG) with
      | Some c => Some c
      | None => a1
      end
    else a1 in
  if negb (JS.truthy_opt a2)
  then
    let avgG := if (0 <? countG t)%nat
                then totalGstrahlung t / nat_to_Q (countG t) else 0 in
    Some (JS.or_zero (Some avgG))
  else a2.

Definition polygonRecord (rs : list IdentifyResult) : SolarRoofData :=
  let t := fold_left totals_step rs (mkTotals [] 0 0 0 0 0) in
  let avgStrom :=
    if (0 <? countStrom t)%nat
    then Some (totalStromertrag t / nat_to_Q (countStrom t)) else None in
  {| radiation := JS.Math_round (JS.or_zero (polygonAnnual t));
     area := inject_Z (JS.Math_round (totalFlaeche t));
     power := 0;
     suitability :=
       match rs with
       | r :: _ =>
           match attributes r with
           | Some a => match eignung a with
                       | Some e => if String.eqb e "" then "unknown" else e
                       | None => "unknown"
                       end
           | None => "unknown"
           end
       | [] => "unknown"
       end;
     stretrag := JS.or avgStrom None;
     raw := RawResults rs |}.

Definition getSolarDataForPolygon (polygonWgs84 : option (list LatLng))
    : M (option SolarRoofData) :=
  match polygonWgs84 with
  | None => ret None
  | Some polygon =>
      if (length polygon <? 3)%nat then ret None
      else
        startConversions polygon ;;
        lv95Points <-
          promise_all (map (fun p => convertResume (lat p) (lng p)) polygon) ;;
        let ring := map (fun pt => (easting pt, northing pt)) lv95Points in
        response <- fetch (ReqIdentifyPolygon ring) (identifyPolygon net ring) ;;
        if negb (ok response) then ret None
        else
          data <- json_of response ;;
          match results data with
          | None => ret None
          | Some [] => ret None
          | Some (r :: rs) => ret (Some (polygonRecord (r :: rs)))
          end
  end.

(** *** The sample cache *)

(** [+x.toFixed(6)], in millionths: the nearest multiple, halves away from
    zero. *)
Definition toFixed6 (x : Q) : Z :=
  let n := Qfloor (Qabs x * 1000000 + (1 # 2)) in
  if JS.lt x 0 then (- n)%Z else n.

Definition cacheKey (polygon : list LatLng) : PolyKey :=
  map (fun p => (toFixed6 (lat p), toFixed6 (lng p))) polygon.

(** [_saveCacheToLocalStorage()] writes the whole in-memory map. *)
Definition saved (mem : gmap PolyKey Z) (storage : option (option (gmap PolyKey Z)))
    : option (option (gmap PolyKey Z)) :=
  match storage with
  | Some _ => Some (Some mem)
  | None => None
  end.

(** The three writes after a successful computation: the in-memory map,
    local storage, and [globalThis.__polygonSampleCache], created when
    absent. *)
Definition storeResult (key : PolyKey) (result : Z) : M unit :=
  modify (fun w =>
    let mem := <[key := result]> (memCache w) in
    let glob := match globalCache w with Some g => g | None => ∅ end in
    mkWorld mem (Some (<[key := result]> glob)) (saved mem (localStorage w))
            (requests w) (progress w)).

(** [clearPolygonSampleCache()] *)
Definition clearPolygonSampleCache : M unit :=
  modify (fun w =>
    mkWorld ∅ (globalCache w)
            (match localStorage w with Some _ => Some None | None => None end)
            (requests w) (progress w)).

(** *** The grid of [samplePolygonRadiation] (lines 499-532) *)

(** [if (v < acc) acc = v] from [Infinity] ([None]), and its mirror. *)
Definition lower (acc : option Q) (v : Q) : option Q :=
  match acc with
  | None => Some v
  | Some a => if JS.lt v a then Some v else acc
  end.

Definition upper (acc : option Q) (v : Q) : option Q :=
  match acc with
  | None => Some v
  | Some a => if JS.gt v a then Some v else acc
  end.

(** A bound of a polygon with a vertex is a number. *)
Definition finite (b : option Q) : Q :=
  match b with Some v => v | None => 0 end.

Definition minLat (polygon : list LatLng) : Q := finite (fold_left lower (map lat polygon) None).
Definition maxLat (polygon : list LatLng) : Q := finite (fold_left upper (map lat polygon) None).
Definition minLng (polygon : list LatLng) : Q := finite (fold_left lower (map lng polygon) None).
Definition maxLng (polygon : list LatLng) : Q := finite (fold_left upper (map lng polygon) None).

Definition adaptiveGrid (polygon : list LatLng) (gridSize : nat) : nat :=
  let latRange := maxLat polygon - minLat polygon in
  let lngRange := maxLng polygon - minLng polygon in
  let approxAreaDeg := latRange * lngRange in
  let g1 := if JS.gt approxAreaDeg 0.0005 then JS.Math_max gridSize 4 else gridSize in
  let g2 := if JS.gt approxAreaDeg 0.002 then JS.Math_max g1 6 else g1 in
  if JS.gt approxAreaDeg 0.01 then JS.Math_max g2 8 else g2.

Definition candidatePts (polygon : list LatLng) (gridSize : nat) : list LatLng :=
  let grid := adaptiveGrid polygon gridSize in
  let latStep := (maxLat polygon - minLat polygon) / (nat_to_Q grid + 1) in
  let lngStep := (maxLng polygon - minLng polygon) / (nat_to_Q grid + 1) in
  flat_map (fun i =>
    flat_map (fun j =>
      let pt := mkLatLng (minLat polygon + latStep * nat_to_Q i)
                         (minLng polygon + lngStep * nat_to_Q j) in
      if pointInPolygon pt polygon then [pt] else [])
      (seq 1 grid))
    (seq 1 grid).

(** The vertex mean of the centroid fallback. *)
Definition centroid (polygon : list LatLng) : LatLng :=
  fold_left (fun acc p =>
      mkLatLng (lat acc + lat p / nat_to_Q (length polygon))
               (lng acc + lng p / nat_to_Q (length polygon)))
    polygon (mkLatLng 0 0).

(** *** The workers of [samplePolygonRadiation] (lines 565-604) *)

(** The state the workers share. *)
Record Session : Type := mkSession {
  samples : list Z;
  done : nat;
  stopEarly : bool
}.

(** A worker is suspended in the lookups of a point, with the points it has
    not started yet, or its loop has ended, or the progress callback has
    thrown out of it. *)
Inductive Worker : Type :=
| InFlight (pt : LatLng) (rest : list LatLng)
| Finished
| Failed.

(** The head of the loop: [for (const pt of pts) { if (stopEarly) break]. *)
Definition next_point (stop : bool) (pts : list LatLng) : Worker :=
  match pts with
  | [] => Finished
  | pt :: rest => if stop then Finished else InFlight pt rest
  end.

(** The [try] block of a worker: the radiation it pushes, if any. *)
Definition lookupPoint (pt : LatLng) : M (option Z) :=
  try_catch
    (lv95 <- convertWGS84toLV95 (lat pt) (lng pt) ;;
     roof <- getSolarData (easting lv95) (northing lv95) ;;
     ret (match roof with
          | Some r => if (0 <? radiation r)%Z then Some (radiation r) else None
          | None => None
          end))
    (ret None).

(** The stability test on [samples]: [mean > 0 && stddev / mean < 0.05]. *)
Definition stable (samples : list Z) : bool :=
  let n := nat_to_Q (length samples) in
  let mean := fold_left (fun a b => a + inject_Z b) samples 0 / n in
  let variance :=
    fold_left (fun a b => a + (inject_Z b - mean) * (inject_Z b - mean)) samples 0 / n in
  JS.gt mean 0 && JS.sqrt_div_lt variance mean 0.05.

(** [if (progressCb) progressCb(done, total)]: the call is recorded; the
    callback tells whether it returns ([true]) or throws. *)
Definition callProgress (progressCb : option (nat -> nat -> bool)) (d total : nat)
    : M bool :=
  match progressCb with
  | None => ret true
  | Some cb =>
      modify (fun w => mkWorld (memCache w) (globalCache w) (localStorage w)
                               (requests w) (progress w ++ [(d, total)])) ;;
      ret (cb d total)
  end.

(** A worker resumes when the lookups of its point are over: it runs the
    rest of the loop body and goes on to the head of the loop. *)
Definition finishPoint (progressCb : option (nat -> nat -> bool)) (total : nat)
    (pt : LatLng) (rest : list LatLng) (ss : Session) : M (Session * Worker) :=
  pushed <- lookupPoint pt ;;
  let samples' := match pushed with
                  | Some r => samples ss ++ [r]
                  | None => samples ss
                  end in
  let done' := S (done ss) in
  returned <- callProgress progressCb done' total ;;
  if negb returned then ret (mkSession samples' done' (stopEarly ss), Failed)
  else if (4 <=? length samples')%nat && stable samples'
  then ret (mkSession samples' done' true, Finished)
  else ret (mkSession samples' done' (stopEarly ss), next_point (stopEarly ss) rest).

Record Pool : Type := mkPool {
  session : Session;
  workers : list Worker
}.

(** The event loop resumes worker [i], if that worker is waiting. *)
Definition resume (progressCb : option (nat -> nat -> bool)) (total : nat)
    (i : nat) (p : Pool) : M Pool :=
  match workers p !! i with
  | Some (InFlight pt rest) =>
      r <- finishPoint progressCb total pt rest (session p) ;;
      ret (mkPool (fst r) (<[i := snd r]> (workers p)))
  | _ => ret p
  end.

(** The lookups complete in the order [sched] names the workers ... *)
Fixpoint runSchedule (progressCb : option (nat -> nat -> bool)) (total : nat)
    (sched : list nat) (p : Pool) : M Pool :=
  match sched with
  | [] => ret p
  | i :: sched' =>
      p' <- resume progressCb total i p ;;
      runSchedule progressCb total sched' p'
  end.

Fixpoint firstInFlight (ws : list Worker) : option nat :=
  match ws with
  | [] => None
  | InFlight _ _ :: _ => Some O
  | _ :: rest => option_map S (firstInFlight rest)
  end.

(** ... and, once [sched] is used up, lowest waiting worker first, until
    [Promise.all] settles. *)
Fixpoint drain (progressCb : option (nat -> nat -> bool)) (total : nat)
    (fuel : nat) (p : Pool) : M Pool :=
  match fuel with
  | O => ret p
  | S fuel' =>
      match firstInFlight (workers p) with
      | None => ret p
      | Some i =>
          p' <- resume progressCb total i p ;;
          drain progressCb total fuel' p'
      end
  end.

(** [groups[i % concurrency].push(candidatePts[i])] *)
Fixpoint distribute (concurrency : nat) (i : nat) (pts : list LatLng)
    (groups : list (list LatLng)) : list (list LatLng) :=
  match pts with
  | [] => groups
  | pt :: rest =>
      distribute concurrency (S i) rest
        (alter (fun g => g ++ [pt]) (i mod concurrency)%nat groups)
  end.

Definition groupsOf (concurrency : nat) (pts : list LatLng) : list (list LatLng) :=
  distribute concurrency 0 pts (replicate concurrency []).

Definition is_failed (w : Worker) : bool :=
  match w with Failed => true | _ => false end.

(** [groups.map((g) => worker(g))]: every worker runs up to its first lookup
    before any lookup completes; then the lookups complete one by one. *)
Definition settle (progressCb : option (nat -> nat -> bool))
    (groups : list (list LatLng)) (total : nat) (sched : list nat) : M Pool :=
  let start := mkPool (mkSession [] 0 false) (map (next_point false) groups) in
  p <- runSchedule progressCb total sched start ;;
  drain progressCb total total p.

(** [await Promise.all(...)]: rejected when a worker has been thrown out of. *)
Definition runWorkers (progressCb : option (nat -> nat -> bool))
    (groups : list (list LatLng)) (total : nat) (sched : list nat) : M (list Z) :=
  p' <- settle progressCb groups total sched ;;
  if existsb is_failed (workers p') then throw
  else ret (samples (session p')).

(** *** [samplePolygonRadiation] (lines 473-623) *)

Definition sum_Z (l : list Z) : Z := fold_left Z.add l 0%Z.

(** Lines 535-563: no grid point has passed the test; the vertex mean is
    looked up instead. *)
Definition centroidFallback (polygon : list LatLng) (key : PolyKey) : M (option Z) :=
  try_catch
    (let c := centroid polygon in
     lv95 <- convertWGS84toLV95 (lat c) (lng c) ;;
     roof <- getSolarData (easting lv95) (northing lv95) ;;
     match roof with
     | Some r =>
         if (0 <? radiation r)%Z then
           let result := JS.Math_round (inject_Z (radiation r)) in
           storeResult key result ;;
           ret (Some result)
         else ret None
     | None => ret None
     end)
    (ret None).

(** Lines 499-623: the computation behind the cache, and the writes that
    follow its success. *)
Definition sampleUncached (polygon : list LatLng) (key : PolyKey)
    (gridSize : nat) (progressCb : option (nat -> nat -> bool))
    (concurrency : nat) (sched : list nat) : M (option Z) :=
  let pts := candidatePts polygon gridSize in
  let total := length pts in
  if (total =? 0)%nat then centroidFallback polygon key
  else if (concurrency =? 0)%nat then throw
  else
    samples <- runWorkers progressCb (groupsOf concurrency pts) total sched ;;
    if (length samples =? 0)%nat then ret None
    else
      let sum := sum_Z samples in
      let result := JS.Math_round (inject_Z sum / nat_to_Q (length samples)) in
      storeResult key result ;;
      ret (Some result).

Definition samplePolygonRadiation (polygonWgs84 : option (list LatLng))
    (gridSize : nat) (progressCb : option (nat -> nat -> bool))
    (concurrency : nat) (sched : list nat) : M (option Z) :=
  match polygonWgs84 with
  | None => ret None
  | Some polygon =>
      if (length polygon <? 3)%nat then ret None
      else
        let key := cacheKey polygon in
        w <- get_world ;;
        match memCache w !! key with
        | Some v => ret (if Z.eqb v 0 then None else Some v)
        | None =>
            match globalCache w ≫= (fun g => g !! key) with
            | Some val =>
                modify (fun w => mkWorld (<[key := val]> (memCache w)) (globalCache w)
                                         (localStorage w) (requests w) (progress w)) ;;
                ret (Some val)
            | None => sampleUncached polygon key gridSize progressCb concurrency sched
            end
        end
  end.

(** *** [getSolarDataForPolygonWithSampling] (lines 419-449) *)

Definition getSolarDataForPolygonWithSampling (polygonWgs84 : option (list LatLng))
    (progressCb : option (nat -> nat -> bool)) (sched : list nat)
    : M (option SolarRoofData) :=
  base <- getSolarDataForPolygon polygonWgs84 ;;
  try_catch
    (sampled <- samplePolygonRadiation polygonWgs84 3 progressCb 4 sched ;;
     match sampled with
     | Some v =>
         if negb (Z.eqb v 0) && (0 <? v)%Z then
           match base with
           | Some b => ret (Some (with_radiation b v))
           | None => ret (Some (mkRoof v 0 0 "unknown" None RawNone))
           end
         else ret base
     | None => ret base
     end)
    (ret base).

End Api.

(** ** Reference data of the scripts and of the specification *)

(** The square of [scripts/test_polygon_sampling.js]. *)
Definition lausanneSquare : list LatLng :=
  [ mkLatLng 46.5205 6.631; mkLatLng 46.5205 6.633;
    mkLatLng 46.519 6.633; mkLatLng 46.519 6.631 ].

(** The square from each of its corners, in both directions. *)
Definition squareOrders : list (list LatLng) :=
  let a := mkLatLng 46.5205 6.631 in
  let b := mkLatLng 46.5205 6.633 in
  let c := mkLatLng 46.519 6.633 in
  let d := mkLatLng 46.519 6.631 in
  [ [a; b; c; d]; [b; c; d; a]; [c; d; a; b]; [d; a; b; c];
    [d; c; b; a]; [c; b; a; d]; [b; a; d; c]; [a; d; c; b] ].

Definition interiorPoint : LatLng := mkLatLng 46.5198 6.632.
Definition farPoint : LatLng := mkLatLng 46.5300 6.632.

(** The crossing test of standard ray casting, for comparison: the abscissa
    of the edge at height [y] is [(xj - xi) * (y - yi) / (yj - yi) + xi]. *)
Definition intersect_standard (x y : Q) (vi vj : LatLng) : bool :=
  let xi := lng vi in
  let yi := lat vi in
  let xj := lng vj in
  let yj := lat vj in
  negb (Bool.eqb (JS.gt yi y) (JS.gt yj y))
  && JS.lt x (((xj - xi) * (y - yi)) / (yj - yi) + xi).

Fixpoint raycast_standard_loop (x y : Q) (vj : LatLng) (vs : list LatLng)
    (inside : bool) : bool :=
  match vs with
  | [] => inside
  | vi :: rest =>
      raycast_standard_loop x y vi rest
        (if intersect_standard x y vi vj then negb inside else inside)
  end.

Definition raycast_standard (point : LatLng) (vs : list LatLng) : bool :=
  match vs with
  | [] => false
  | v0 :: _ =>
      raycast_standard_loop (lng point) (lat point) (List.last vs v0) vs false
  end.

Definition attrsOf (flaeche stromertrag gstrahlung mstrahlung : option Q) : Attrs :=
  mkAttrs None None None None flaeche stromertrag gstrahlung mstrahlung None None.

(** The sample of [scripts/check_normalization.js] and its two edge cases. *)
Definition sampleAttrs : Attrs :=
  attrsOf (Some 35.2531614459) (Some 4862) (Some 30388) (Some 862).
Definition edge1 : Attrs := attrsOf (Some 0) None (Some 3000000) None.

(** A roof whose exact tier-1 quotient, 3034.5 / (2000 * 0.1445), is 10.5. *)
Definition halfWay : Attrs := attrsOf (Some 2000) (Some 3034.5) None None.

(** A roof whose only figure is a negative general radiation. *)
Definition negativeGeneral : Attrs := attrsOf None None (Some (-5)) None.

(** A service that answers every point identify with one feature, and a
    world in which nothing has happened yet. *)
Definition roofNetwork (a : Attrs) : Network :=
  {| reframe := fun _ la ln => Resolved (mkResponse true 200 (Some (mkLV95 ln la)));
     identifyPoint := fun _ _ =>
       Resolved (mkResponse true 200 (Some (mkData (Some [mkResult (Some a) None]))));
     identifyPolygon := fun _ => Rejected |}.

Definition emptyWorld : World := mkWorld ∅ None None [] [].


Definition nonneg_opt (a : option Q) : Prop :=
  match a with Some q => 0 <= q | None => True end.
Definition opt_nonneg (o : option Q) : Prop := nonneg_opt o.

(** The two candidates of the selection example: A (area 50, 5 m away) and
    B (area 80, 30 m away). *)
Definition candidateA : Selector.Candidate :=
  Selector.mkCandidate (attrsOf (Some 50) None None None) 50 0 None (JS.distance 5).
Definition candidateB : Selector.Candidate :=
  Selector.mkCandidate (attrsOf (Some 80) None None None) 80 0 None (JS.distance 30).

(** [x] has the larger area than [y], or the same area and at least the
    production of [y]. *)
Definition outranks (x y : Selector.Candidate) : Prop :=
  Selector.f y < Selector.f x
  \/ (Selector.f y == Selector.f x /\ Selector.s y <= Selector.s x).

(** The head of a list in sorting order outranks every other element. *)
Inductive ranked : list Selector.Candidate -> Prop :=
| ranked_nil : ranked []
| ranked_cons x l : (forall y, In y l -> outranks x y) -> ranked l -> ranked (x :: l).

(** [a] is not farther than [b]. *)
Definition not_farther (a b : JS.Dist) : Prop := JS.dist_lt b a = false.

(** A polygon the guards of the two polygon functions turn away: [null], or
    fewer than three vertices. *)
Definition malformed (polygonWgs84 : option (list LatLng)) : Prop :=
  match polygonWgs84 with
  | None => True
  | Some polygon => (length polygon < 3)%nat
  end.

(** A service whose point identify answers with status 500. *)
Definition failingNetwork : Network :=
  {| reframe := fun _ la ln => Resolved (mkResponse true 200 (Some (mkLV95 ln la)));
     identifyPoint := fun _ _ => Resolved (mkResponse false 500 None);
     identifyPolygon := fun _ => Resolved (mkResponse false 500 None) |}.

(** A service that answers every identify, by point or by polygon, with the
    one feature [a]. *)
Definition surveyNetwork (a : Attrs) : Network :=
  {| reframe := fun _ la ln => Resolved (mkResponse true 200 (Some (mkLV95 ln la)));
     identifyPoint := fun _ _ =>
       Resolved (mkResponse true 200 (Some (mkData (Some [mkResult (Some a) None]))));
     identifyPolygon := fun _ =>
       Resolved (mkResponse true 200 (Some (mkData (Some [mkResult (Some a) None])))) |}.

(** A service whose point identify answers with the feature [point] and
    whose polygon identify answers with the feature [polygon]. *)
Definition mixedNetwork (point polygon : Attrs) : Network :=
  {| reframe := fun _ la ln => Resolved (mkResponse true 200 (Some (mkLV95 ln la)));
     identifyPoint := fun _ _ =>
       Resolved (mkResponse true 200 (Some (mkData (Some [mkResult (Some point) None]))));
     identifyPolygon := fun _ =>
       Resolved (mkResponse true 200 (Some (mkData (Some [mkResult (Some polygon) None])))) |}.

(** The number of workers waiting for a lookup, and the number of points
    still to be finished: those in flight and those not started. *)
Fixpoint inFlight (ws : list Worker) : nat :=
  match ws with
  | [] => 0
  | InFlight _ _ :: rest => S (inFlight rest)
  | _ :: rest => inFlight rest
  end.

Fixpoint remaining (ws : list Worker) : nat :=
  match ws with
  | [] => 0
  | InFlight _ pts :: rest => S (length pts) + remaining rest
  | _ :: rest => remaining rest
  end.











(** The points a single worker has still to finish. *)
Definition remaining1 (wk : Worker) : nat :=
  match wk with
  | InFlight _ pts => S (length pts)
  | _ => 0
  end.

(** ** The same arithmetic on IEEE doubles

    The numbers of the source are binary64 values.  The crossing test, the
    tier-1 quotient and the product behind the power are repeated on the
    primitive floats, to evaluate the reference inputs in the arithmetic of
    the program itself and to compare [Binary64.fl] with it. *)

Module Double.

Import PrimFloat.

#[warnings="-inexact-float"]
Definition square : list (float * float) :=
  [ (46.5205, 6.631); (46.5205, 6.633); (46.519, 6.633); (46.519, 6.631) ]%float.

#[warnings="-inexact-float"]
Definition interior : float * float := (46.5198, 6.632)%float.

#[warnings="-inexact-float"]
Definition COMBINED_FACTOR : float := (0.17 * 0.85)%float.

#[warnings="-inexact-float"]
Definition sampleQuotient : float := (4862 / (35.2531614459 * COMBINED_FACTOR))%float.

(** [954.44 < sampleQuotient && sampleQuotient < 954.45] *)
#[warnings="-inexact-float"]
Definition sampleQuotientRounds954 : bool :=
  (PrimFloat.ltb 954.44 sampleQuotient && PrimFloat.ltb sampleQuotient 954.45)%bool.

Definition intersect (x y : float) (vi vj : float * float) : bool :=
  let xi := snd vi in
  let yi := fst vi in
  let xj := snd vj in
  let yj := fst vj in
  (negb (Bool.eqb (PrimFloat.ltb y yi) (PrimFloat.ltb y yj))
   && PrimFloat.ltb x (((xj - xi) * (y - yi)) / (yj - yi + xi))%float)%bool.

Fixpoint pointInPolygon_loop (x y : float) (vj : float * float)
    (vs : list (float * float)) (inside : bool) : bool :=
  match vs with
  | [] => inside
  | vi :: rest =>
      pointInPolygon_loop x y vi rest
        (if intersect x y vi vj then negb inside else inside)
  end.

Definition pointInPolygon (point : float * float) (vs : list (float * float)) : bool :=
  match vs with
  | [] => false
  | v0 :: _ => pointInPolygon_loop (snd point) (fst point) (List.last vs v0) vs false
  end.

(** The rational a finite binary64 number denotes. *)
Definition value (x : float) : option Q :=
  match FloatOps.Prim2SF x with
  | SpecFloat.S754_zero _ => Some 0
  | SpecFloat.S754_finite sign m e =>
      Some ((if sign then - 1 else 1) * inject_Z (Zpos m) * 2 ^ e)
  | _ => None
  end.

(** The primitive float [x] denotes the rational [q]. *)
Definition denotes (x : float) (q : Q) : bool :=
  match value x with
  | Some v => Qeq_bool v q
  | None => false
  end.

(** [3034.5 / (2000 * COMBINED_FACTOR)], whose exact counterpart is 10.5. *)
#[warnings="-inexact-float"]
Definition halfWayQuotient : float := (3034.5 / (2000 * COMBINED_FACTOR))%float.

(** [(2.135 + Number.EPSILON) * 100] *)
#[warnings="-inexact-float"]
Definition roundingProduct : float := ((2.135 + 0x1p-52) * 100)%float.

(** Operands of all sizes: subnormal and large numbers, numbers that are not
    dyadic, and pairs whose product or quotient is half way between two
    binary64 numbers. *)
#[warnings="-inexact-float"]
Definition operands : list (float * float) :=
  [ (0.17, 0.85); (2000, 0.14450000000000002); (3034.5, 289.00000000000006);
    (4862, 5.0940818287325509); (35.2531614459, 0.14450000000000002);
    (2.135, 100); (213.50000000000003, 100); (213, 100); (1, 3); (2, 3);
    (0.1, 0.2); (0.1, 3); (1e-310, 3); (5e-324, 0.3); (5e-324, 0.5);
    (1.5e-323, 0.5); (1e300, 1e-5); (1e150, 1e150); (1e-200, 1e-120);
    (9007199254740993, 3); (9007199254740991, 0.5); (4503599627370497, 1.5);
    (123456.789, 1000); (999.99999999999989, 1000); (1e22, 3.6);
    (21601.8, 3.6); (862, 12); (-4862, 5.09); (-0.1, 0.7); (1e-5, -7) ]%float.

(** [Binary64.fl] gives the sum, the difference, the product and the
    quotient of the primitive floats [x] and [y]. *)
Definition agree (xy : float * float) : bool :=
  match value (fst xy), value (snd xy) with
  | Some x, Some y =>
      denotes (fst xy + snd xy)%float (Binary64.fl (x + y))
      && denotes (fst xy - snd xy)%float (Binary64.fl (x - y))
      && denotes (fst xy * snd xy)%float (Binary64.fl (x * y))
      && denotes (fst xy / snd xy)%float (Binary64.fl (x / y))
  | _, _ => false
  end.

End Double.

(** A box around Switzerland, in WGS84 degrees. *)
Definition in_switzerland (p : LatLng) : Prop :=
  45.8 <= lat p /\ lat p <= 47.9 /\ 5.9 <= lng p /\ lng p <= 10.5.

(** ** Notions for the properties of the remaining code *)

(** [r.attributes || {}] *)
Definition attrsOfResult (r : IdentifyResult) : Attrs :=
  match attributes r with Some a => a | None => noAttrs end.

(** Nothing but the request log differs between [w] and [w']. *)
Definition only_requests (w w' : World) : Prop :=
  memCache w' = memCache w
  /\ globalCache w' = globalCache w
  /\ localStorage w' = localStorage w
  /\ progress w' = progress w.

(** The three stores of sample values are the same in [w] and [w']. *)
Definition same_caches (w w' : World) : Prop :=
  memCache w' = memCache w
  /\ globalCache w' = globalCache w
  /\ localStorage w' = localStorage w.

(** The requests [convertWGS84toLV95] issues: the primary host, and the
    alternative one when the primary has answered with a failure status. *)
Definition reframeRequests (net : Network) (la ln : Q) : list Request :=
  ReqReframe false la ln ::
  match reframe net false la ln with
  | Resolved response => if ok response then [] else [ReqReframe true la ln]
  | Rejected => []
  end.

(** The map [byKey] after the loop over the candidates; [Selector.uniqOf]
    lists its values. *)
Definition byKeyOf (results : list IdentifyResult) : list (Selector.Key * Selector.Entry) :=
  fold_left Selector.dedupe_step results [].

(** The area [f] and the production [s] the deduplication reads off a
    result. *)
Definition rankOf (r : IdentifyResult) : Q * Q :=
  (Normalizer.number_or_zero (flaeche (attrsOfResult r)),
   match Normalizer.number_or_null (stromertrag (attrsOfResult r)) with
   | Some v => v
   | None => 0
   end).

(** [b] has the larger area, or the same area and at least the production. *)
Definition rank_le (a b : Q * Q) : Prop :=
  fst a < fst b \/ (fst a == fst b /\ snd a <= snd b).

(** The entry [u] was made from the result [r]. *)
Definition entry_of (u : Selector.Entry) (r : IdentifyResult) : Prop :=
  Selector.e_attrs u = attrsOfResult r
  /\ (Selector.e_f u, Selector.e_s u) = rankOf r
  /\ Selector.e_geom u = geometry r.

(** What the loop over the candidates keeps, [seen] being the results it has
    gone through: each of them has an entry under its key that ranks at
    least as high, every entry was made from one of them with the entry's
    key, and no two entries have the same key. *)
Definition dedupe_invariant (seen : list IdentifyResult)
    (m : list (Selector.Key * Selector.Entry)) : Prop :=
  (forall r, In r seen ->
     exists k u, In (k, u) m
                 /\ Selector.key_eqb k (Selector.keyOf (attrsOfResult r)) = true
                 /\ rank_le (rankOf r) (Selector.e_f u, Selector.e_s u))
  /\ (forall k u, In (k, u) m ->
        exists r, In r seen /\ entry_of u r
                  /\ Selector.key_eqb k (Selector.keyOf (attrsOfResult r)) = true)
  /\ ForallOrdPairs (fun x y => Selector.key_eqb x y = false) (map fst m).

(** The accumulators [getSolarDataForPolygon] ends its loop with. *)
Definition totalsOf (results : list IdentifyResult) : Totals :=
  fold_left totals_step results (mkTotals [] 0 0 0 0 0).

(** The result [r'] is a further row of the roof of [r]: it has the key of
    [r] in the polygon lookup. *)
Definition same_roof (r' r : IdentifyResult) : Prop :=
  Selector.key_eqb (polygonKeyOf (attrsOfResult r')) (polygonKeyOf (attrsOfResult r)) = true.

(** What [convertWGS84toLV95] resolves to, [None] when it throws: the
    outcome is the service's, whatever the state of the module. *)
Definition converted (net : Network) (la ln : Q) : option SwissCoordinates :=
  match fst (convertWGS84toLV95 net la ln emptyWorld) with
  | Returned c => Some c
  | Thrown => None
  end.

(** The vertices of a polygon converted, [None] when one conversion throws. *)
Fixpoint convertedAll (net : Network) (polygon : list LatLng)
    : option (list SwissCoordinates) :=
  match polygon with
  | [] => Some []
  | p :: rest =>
      match converted net (lat p) (lng p), convertedAll net rest with
      | Some c, Some l => Some (c :: l)
      | _, _ => None
      end
  end.

(** The primary conversion requests of the vertices of a polygon, and the
    request to the alternative host for each vertex whose primary request is
    answered with a failure status. *)
Definition primaryRequests (polygon : list LatLng) : list Request :=
  map (fun p => ReqReframe false (lat p) (lng p)) polygon.

Definition fallbackRequests (net : Network) (polygon : list LatLng) : list Request :=
  flat_map (fun p => tail (reframeRequests net (lat p) (lng p))) polygon.

(** A service whose primary conversion host answers with status 503 and
    whose alternative host answers. *)
Definition fallbackNetwork (a : Attrs) : Network :=
  {| reframe := fun alt la ln =>
       if alt then Resolved (mkResponse true 200 (Some (mkLV95 ln la)))
       else Resolved (mkResponse false 503 None);
     identifyPoint := fun _ _ =>
       Resolved (mkResponse true 200 (Some (mkData (Some [mkResult (Some a) None]))));
     identifyPolygon := fun _ =>
       Resolved (mkResponse true 200 (Some (mkData (Some [mkResult (Some a) None])))) |}.

(** The calls of the progress callback that follow the count [d], [k] of
    them: [(d + 1, total)], ..., [(d + k, total)]. *)
Definition reports (progressCb : option (nat -> nat -> bool)) (total d k : nat)
    : list (nat * nat) :=
  match progressCb with
  | Some _ => map (fun i => (i, total)) (seq (S d) k)
  | None => []
  end.

(** The pool has gone from [p] in [w] to [p'] in [w'] by finishing [k]
    points: the caches are as they were, the count has grown by [k], at least
    [k] points fewer are left, the callback has been called once per point
    with the running count, and each point has cost between one and three
    requests and has added at most one sample. *)
Definition advanced (progressCb : option (nat -> nat -> bool)) (total : nat)
    (p p' : Pool) (w w' : World) : Prop :=
  same_caches w w'
  /\ exists k,
       done (session p') = (done (session p) + k)%nat
       /\ (k + remaining (workers p') <= remaining (workers p))%nat
       /\ progress w' = progress w ++ reports progressCb total (done (session p)) k
       /\ (length (requests w) + k <= length (requests w'))%nat
       /\ (length (requests w') <= length (requests w) + 3 * k)%nat
       /\ (length (samples (session p')) <= length (samples (session p)) + k)%nat.

(** Every value the three stores of sample values hold is positive. *)
Definition positive_caches (w : World) : Prop :=
  (forall k v, memCache w !! k = Some v -> (0 < v)%Z)
  /\ (forall g k v, globalCache w = Some g -> g !! k = Some v -> (0 < v)%Z)
  /\ (forall m k v, localStorage w = Some (Some m) -> m !! k = Some v -> (0 < v)%Z).

(** The number of grid points a polygon is sampled at. *)
Definition totalOf (polygon : list LatLng) (gridSize : nat) : nat :=
  length (candidatePts polygon gridSize).

(** [_loadCacheFromLocalStorage()] (lines 34-46): the stored entries are put
    into the in-memory map, over the entries it holds; nothing happens
    without [window.localStorage] or without a stored item. *)
Definition loadCacheFromLocalStorage : M unit :=
  modify (fun w =>
    match localStorage w with
    | Some (Some stored) =>
        mkWorld (stored ∪ memCache w) (globalCache w) (localStorage w)
                (requests w) (progress w)
    | _ => w
    end).

(** The module initialisation (lines 68-71). *)
Definition moduleInit : M unit := loadCacheFromLocalStorage.

(** A browser in which nothing is stored and nothing has happened. *)
Definition browserWorld : World := mkWorld ∅ None (Some None) [] [].

(** The reported power in kW: a figure above 1000 is taken as Watts. *)
Definition kilowatts (l : Q) : Q := if JS.gt l 1000 then l / 1000 else l.

Definition reportedKw (attrs : Attrs) : Q :=
  match leistung attrs with Some l => kilowatts l | None => 0 end.

(** A roof whose reported power is the binary64 number nearest to 2.135. *)
Definition roundingRoof : Attrs :=
  mkAttrs None None None None None None None None (Some (Binary64.fl 2.135)) None.



(** * Properties *)

(** Unfolds the plumbing of [M]. *)
Ltac run_js :=
  cbv [bind ret throw try_catch fetch log_request modify json_of get_world]; cbn.

(** ** Comparisons, truthiness and rounding *)

Lemma lt_true (a b : Q) : JS.lt a b = true <-> a < b.
Proof.
  unfold JS.lt. rewrite Qlt_alt. destruct (a ?= b); split; congruence.
Qed.

Lemma lt_false (a b : Q) : JS.lt a b = false <-> b <= a.
Proof.
  rewrite <- not_true_iff_false, lt_true. split; [apply Qnot_lt_le | apply Qle_not_lt].
Qed.

Lemma gt_true (a b : Q) : JS.gt a b = true <-> b < a.
Proof. apply lt_true. Qed.

Lemma gt_false (a b : Q) : JS.gt a b = false <-> a <= b.
Proof. apply lt_false. Qed.

Lemma le_true (a b : Q) : JS.le a b = true <-> a <= b.
Proof. apply Qle_bool_iff. Qed.

Lemma truthy_true (x : Q) : JS.truthy x = true <-> ~ x == 0.
Proof.
  unfold JS.truthy. rewrite negb_true_iff, <- not_true_iff_false, Qeq_bool_iff.
  reflexivity.
Qed.

Lemma truthy_false (x : Q) : JS.truthy x = false <-> x == 0.
Proof.
  unfold JS.truthy. rewrite negb_false_iff. apply Qeq_bool_iff.
Qed.

Lemma plausible_true (c : Q) : Normalizer.plausible c = true <-> 200 < c /\ c < 20000.
Proof.
  unfold Normalizer.plausible. rewrite andb_true_iff, gt_true, lt_true. reflexivity.
Qed.


(** [Math.round x] is the integer within one half of [x], halves going up. *)
Lemma Math_round_nearest (x : Q) :
  inject_Z (JS.Math_round x) - (1 # 2) <= x /\ x < inject_Z (JS.Math_round x) + (1 # 2).
Proof.
  unfold JS.Math_round.
  pose proof (Qfloor_le (x + (1 # 2))) as Hle.
  pose proof (Qlt_floor (x + (1 # 2))) as Hlt.
  rewrite inject_Z_plus in Hlt. change (inject_Z 1) with 1 in Hlt. split; lra.
Qed.

Lemma Math_round_nonneg (x : Q) : 0 <= x -> (0 <= JS.Math_round x)%Z.
Proof.
  intros Hx. unfold JS.Math_round.
  change 0%Z with (Qfloor 0). apply Qfloor_resp_le. lra.
Qed.

Lemma Math_round_integer (z : Z) : JS.Math_round (inject_Z z) = z.
Proof.
  pose proof (Math_round_nearest (inject_Z z)) as [H1 H2].
  assert (inject_Z (JS.Math_round (inject_Z z)) < inject_Z z + 1) as Ha by lra.
  assert (inject_Z z < inject_Z (JS.Math_round (inject_Z z)) + 1) as Hb by lra.
  change 1 with (inject_Z 1) in Ha, Hb.
  rewrite <- inject_Z_plus, <- Zlt_Qlt in Ha, Hb. lia.
Qed.

(** ** Point in polygon *)

(** C1 (the code departs from the claim): on the square of the test script,
    taken from any corner in either direction, [pointInPolygon] answers
    outside for the interior point (46.5198, 6.632) as well as for the far
    point (46.5300, 6.632): the divisor of the crossing test is
    [yj - yi + xi], so a vertical edge is met at abscissa [0]. *)
Theorem pointInPolygon_square_interior_outside :
  Forall (fun vs => pointInPolygon interiorPoint vs = false
                    /\ pointInPolygon farPoint vs = false) squareOrders.
Proof.
  unfold squareOrders. repeat constructor.
Qed.

(** With the divisor [yj - yi] and [xi] added afterwards the same inputs are
    classified as the specification tells. *)
Lemma raycast_standard_square :
  Forall (fun vs => raycast_standard interiorPoint vs = true
                    /\ raycast_standard farPoint vs = false) squareOrders.
Proof.
  unfold squareOrders. repeat constructor.
Qed.

(** *** What the divisor does to polygons in Switzerland

    Between vertices of Swiss latitude and longitude the right-hand side of
    the crossing test stays below 2.6 while every longitude is at least 5.9:
    no edge is ever crossed, every point is outside, the grid of the sampler
    is empty and sampling always takes the centroid fallback. *)

Lemma intersect_switzerland (x y : Q) (vi vj : LatLng) :
  5.9 <= x -> 45.8 <= y -> y <= 47.9 ->
  in_switzerland vi -> in_switzerland vj ->
  intersect x y vi vj = false.
Proof.
  intros Hx Hy1 Hy2 (Hi1 & Hi2 & Hi3 & Hi4) (Hj1 & Hj2 & Hj3 & Hj4).
  unfold intersect. apply andb_false_iff. right. unfold JS.lt_div.
  assert (3.8 <= lat vj - lat vi + lng vi) as Hden by lra.
  destruct (Qeq_bool (lat vj - lat vi + lng vi) 0) eqn:E.
  - apply Qeq_bool_iff in E. rewrite E in Hden. lra.
  - apply lt_false. apply Qle_shift_div_r; [lra |].
    assert ((lng vj - lng vi) * (y - lat vi) <= 9.66) as Hnum by nra.
    assert (22.42 <= x * (lat vj - lat vi + lng vi)) as Hrhs by nra.
    lra.
Qed.

Lemma pointInPolygon_loop_switzerland (x y : Q) (vs : list LatLng) (vj : LatLng)
    (inside : bool) :
  5.9 <= x -> 45.8 <= y -> y <= 47.9 ->
  Forall in_switzerland vs -> in_switzerland vj ->
  pointInPolygon_loop x y vj vs inside = inside.
Proof.
  intros Hx Hy1 Hy2 Hvs. revert vj inside.
  induction Hvs as [| vi vs Hvi Hvs IH]; intros vj inside Hvj; cbn; [reflexivity |].
  rewrite (intersect_switzerland x y vi vj) by assumption. now apply IH.
Qed.

Lemma pointInPolygon_switzerland (point : LatLng) (vs : list LatLng) :
  in_switzerland point -> Forall in_switzerland vs ->
  pointInPolygon point vs = false.
Proof.
  intros (Hp1 & Hp2 & Hp3 & _) Hvs. unfold pointInPolygon.
  destruct vs as [| v0 vs']; [reflexivity |].
  apply pointInPolygon_loop_switzerland; try assumption.
  rewrite List.Forall_forall in Hvs. apply Hvs.
  destruct (exists_last (l := v0 :: vs')) as (l' & a & E); [discriminate |].
  rewrite E, last_last. apply in_or_app. right. now left.
Qed.

Lemma lower_within (lo hi : Q) (l : list Q) (acc : option Q) :
  Forall (fun v => lo <= v /\ v <= hi) l ->
  match acc with Some a => lo <= a /\ a <= hi | None => l <> [] end ->
  lo <= finite (fold_left lower l acc) /\ finite (fold_left lower l acc) <= hi.
Proof.
  intros Hl. revert acc. induction Hl as [| v l Hv Hl IH]; intros acc Hacc; cbn.
  - destruct acc; [exact Hacc | congruence].
  - apply IH. destruct acc as [a |]; cbn; [| exact Hv].
    destruct (JS.lt v a); assumption.
Qed.

Lemma upper_within (lo hi : Q) (l : list Q) (acc : option Q) :
  Forall (fun v => lo <= v /\ v <= hi) l ->
  match acc with Some a => lo <= a /\ a <= hi | None => l <> [] end ->
  lo <= finite (fold_left upper l acc) /\ finite (fold_left upper l acc) <= hi.
Proof.
  intros Hl. revert acc. induction Hl as [| v l Hv Hl IH]; intros acc Hacc; cbn.
  - destruct acc; [exact Hacc | congruence].
  - apply IH. destruct acc as [a |]; cbn; [| exact Hv].
    destruct (JS.gt v a); assumption.
Qed.

Lemma grid_coordinate_within (lo hi mn mx : Q) (grid i : nat) :
  lo <= mn -> mn <= hi -> lo <= mx -> mx <= hi ->
  (1 <= i <= grid)%nat ->
  lo <= mn + (mx - mn) / (nat_to_Q grid + 1) * nat_to_Q i
  /\ mn + (mx - mn) / (nat_to_Q grid + 1) * nat_to_Q i <= hi.
Proof.
  intros H1 H2 H3 H4 Hi.
  assert (1 <= nat_to_Q i) as Hi0.
  { unfold nat_to_Q. change 1 with (inject_Z 1). rewrite <- Zle_Qle. lia. }
  assert (nat_to_Q i <= nat_to_Q grid + 1) as Hi1.
  { unfold nat_to_Q. change 1 with (inject_Z 1). rewrite <- inject_Z_plus, <- Zle_Qle. lia. }
  assert (0 < nat_to_Q grid + 1) as Hg by lra.
  set (g := nat_to_Q grid + 1) in *. set (k := nat_to_Q i) in *.
  set (d := (mx - mn) / g).
  assert (d * g == mx - mn) as Hd by (unfold d; field; intros E; lra).
  split; nra.
Qed.

Lemma flat_map_nil {A B} (g : A -> list B) (l : list A) :
  (forall x, In x l -> g x = []) -> flat_map g l = [].
Proof.
  induction l as [| x l IH]; intros H; cbn; [reflexivity |].
  rewrite (H x) by now left. apply IH. intros y Hy. apply H. now right.
Qed.

Lemma candidatePts_switzerland (polygon : list LatLng) (gridSize : nat) :
  polygon <> [] -> Forall in_switzerland polygon ->
  candidatePts polygon gridSize = [].
Proof.
  intros Hne Hsw. unfold candidatePts.
  set (grid := adaptiveGrid polygon gridSize).
  assert (Forall (fun v => 45.8 <= v /\ v <= 47.9) (map lat polygon)) as Hlat.
  { apply List.Forall_map. eapply List.Forall_impl; [| exact Hsw].
    intros p (H1 & H2 & _). auto. }
  assert (Forall (fun v => 5.9 <= v /\ v <= 10.5) (map lng polygon)) as Hlng.
  { apply List.Forall_map. eapply List.Forall_impl; [| exact Hsw].
    intros p (_ & _ & H3 & H4). auto. }
  assert (map lat polygon <> []) as Hne1 by (destruct polygon; [congruence | discriminate]).
  assert (map lng polygon <> []) as Hne2 by (destruct polygon; [congruence | discriminate]).
  pose proof (lower_within _ _ _ None Hlat Hne1) as [Ha1 Ha2].
  pose proof (upper_within _ _ _ None Hlat Hne1) as [Hb1 Hb2].
  pose proof (lower_within _ _ _ None Hlng Hne2) as [Hc1 Hc2].
  pose proof (upper_within _ _ _ None Hlng Hne2) as [Hd1 Hd2].
  apply flat_map_nil. intros i Hi. apply flat_map_nil. intros j Hj.
  apply in_seq in Hi, Hj.
  rewrite pointInPolygon_switzerland; [reflexivity | | exact Hsw].
  destruct (grid_coordinate_within 45.8 47.9 (minLat polygon) (maxLat polygon) grid i)
    as [L1 L2]; try assumption; [lia |].
  destruct (grid_coordinate_within 5.9 10.5 (minLng polygon) (maxLng polygon) grid j)
    as [L3 L4]; try assumption; [lia |].
  repeat split; assumption.
Qed.

(** For a polygon in Switzerland the workers are never started. *)
Lemma sampleUncached_switzerland (net : Network) (polygon : list LatLng) (key : PolyKey)
    (gridSize : nat) (progressCb : option (nat -> nat -> bool)) (concurrency : nat)
    (sched : list nat) :
  polygon <> [] -> Forall in_switzerland polygon ->
  sampleUncached net polygon key gridSize progressCb concurrency sched
    = centroidFallback net polygon key.
Proof.
  intros Hne Hsw. unfold sampleUncached.
  now rewrite (candidatePts_switzerland polygon gridSize Hne Hsw).
Qed.

(** ** Binary64 rounding *)

Section Rounding.

Import Binary64.

Lemma nearest_even_error (y : Q) :
  - (1 # 2) <= inject_Z (nearest_even y) - y /\ inject_Z (nearest_even y) - y <= 1 # 2.
Proof.
  unfold nearest_even.
  pose proof (Qfloor_le y) as Hlo. pose proof (Qlt_floor y) as Hhi.
  rewrite inject_Z_plus in Hhi. change (inject_Z 1) with 1 in Hhi.
  set (q := Qfloor y) in *.
  destruct (Qcompare (y - inject_Z q) (1 # 2)) eqn:E.
  - apply Qeq_alt in E. destruct (Z.even q).
    + split; lra.
    + rewrite inject_Z_plus. change (inject_Z 1) with 1. split; lra.
  - apply Qlt_alt in E. split; lra.
  - apply Qgt_alt in E. rewrite inject_Z_plus. change (inject_Z 1) with 1. split; lra.
Qed.

Lemma pow2_pos (k : Z) : 0 < 2 ^ k.
Proof. apply Qpower_0_lt. reflexivity. Qed.

Lemma pow2_plus (a b : Z) : 2 ^ (a + b) == 2 ^ a * 2 ^ b.
Proof. apply Qpower_plus. discriminate. Qed.

Lemma pow2_Z (n : Z) : (0 <= n)%Z -> inject_Z (2 ^ n) == 2 ^ n.
Proof. intros H. now rewrite Zpower_Qpower. Qed.

(** [exponent] is the exponent: [2 ^ e <= x < 2 ^ (e + 1)]. *)
Lemma exponent_lower (x : Q) : 0 < x -> 2 ^ exponent x <= x.
Proof.
  intros Hx. unfold exponent.
  set (e := (Z.log2 (Qnum x) - Z.log2 (Zpos (Qden x)))%Z).
  destruct (Qle_bool (2 ^ e) x) eqn:E; [now apply Qle_bool_iff |].
  destruct x as [n d]. cbn [Qnum Qden] in e.
  assert (0 < n)%Z as Hn by (unfold Qlt in Hx; cbn in Hx; lia).
  destruct (Z.log2_spec n Hn) as [Hn1 _].
  destruct (Z.log2_spec (Zpos d) (Pos2Z.is_pos d)) as [_ Hd2].
  pose proof (Z.log2_nonneg n) as Hln. pose proof (Z.log2_nonneg (Zpos d)) as Hld.
  set (ln := Z.log2 n) in *. set (ld := Z.log2 (Zpos d)) in *.
  assert (2 ^ ln <= inject_Z n) as H1 by (rewrite <- pow2_Z by lia; now rewrite <- Zle_Qle).
  assert (inject_Z (Zpos d) <= 2 ^ (ld + 1)) as H2.
  { rewrite <- pow2_Z by lia. rewrite <- Zle_Qle. unfold Z.succ in Hd2. lia. }
  assert (n # d == inject_Z n / inject_Z (Zpos d)) as -> by apply Qmake_Qdiv.
  assert (0 < inject_Z (Zpos d)) as Hdpos by reflexivity.
  apply Qle_shift_div_l; [exact Hdpos |].
  pose proof (pow2_pos (e - 1)) as Hp.
  assert (2 ^ (e - 1) * 2 ^ (ld + 1) == 2 ^ ln) as Heq.
  { rewrite <- pow2_plus. subst e. now replace (ln - ld - 1 + (ld + 1))%Z with ln by lia. }
  assert (2 ^ (e - 1) * inject_Z (Z.pos d) <= 2 ^ (e - 1) * 2 ^ (ld + 1)) as H3.
  { rewrite !(Qmult_comm (2 ^ (e - 1))). apply Qmult_le_compat_r; [exact H2 | lra]. }
  lra.
Qed.

Lemma exponent_upper (x : Q) : 0 < x -> x < 2 ^ (exponent x + 1).
Proof.
  intros Hx. unfold exponent.
  set (e := (Z.log2 (Qnum x) - Z.log2 (Zpos (Qden x)))%Z).
  destruct (Qle_bool (2 ^ e) x) eqn:E.
  - destruct x as [n d]. cbn [Qnum Qden] in e.
    assert (0 < n)%Z as Hn by (unfold Qlt in Hx; cbn in Hx; lia).
    destruct (Z.log2_spec n Hn) as [_ Hn2].
    destruct (Z.log2_spec (Zpos d) (Pos2Z.is_pos d)) as [Hd1 _].
    pose proof (Z.log2_nonneg n) as Hln. pose proof (Z.log2_nonneg (Zpos d)) as Hld.
    set (ln := Z.log2 n) in *. set (ld := Z.log2 (Zpos d)) in *.
    assert (inject_Z n < 2 ^ (ln + 1)) as H1.
    { rewrite <- pow2_Z by lia. rewrite <- Zlt_Qlt. unfold Z.succ in Hn2. exact Hn2. }
    assert (2 ^ ld <= inject_Z (Zpos d)) as H2
        by (rewrite <- pow2_Z by lia; now rewrite <- Zle_Qle).
    assert (n # d == inject_Z n / inject_Z (Zpos d)) as -> by apply Qmake_Qdiv.
    assert (0 < inject_Z (Zpos d)) as Hdpos by reflexivity.
    apply Qlt_shift_div_r; [exact Hdpos |].
    pose proof (pow2_pos (e + 1)) as Hp.
    assert (2 ^ (e + 1) * 2 ^ ld == 2 ^ (ln + 1)) as Heq.
    { rewrite <- pow2_plus. subst e. now replace (ln - ld + 1 + ld)%Z with (ln + 1)%Z by lia. }
    assert (2 ^ (e + 1) * 2 ^ ld <= 2 ^ (e + 1) * inject_Z (Z.pos d)) as H3.
    { rewrite !(Qmult_comm (2 ^ (e + 1))). apply Qmult_le_compat_r; [exact H2 | lra]. }
    lra.
  - replace (e - 1 + 1)%Z with e by lia.
    apply Qnot_le_lt. intros H. apply Qle_bool_iff in H. congruence.
Qed.

Lemma round_pos_error (x : Q) :
  0 < x -> Qabs (round_pos x - x) <= u * x + eta.
Proof.
  intros Hx. unfold round_pos.
  pose proof (exponent_lower x Hx) as He.
  set (e := exponent x) in *.
  set (k := Z.max (e - 52) (-1074)).
  pose proof (pow2_pos k) as Hk.
  destruct (nearest_even_error (x / 2 ^ k)) as [H1 H2].
  set (m := inject_Z (nearest_even (x / 2 ^ k))) in *.
  assert (x / 2 ^ k * 2 ^ k == x) as Hxk by (field; lra).
  assert (m * 2 ^ k - x == (m - x / 2 ^ k) * 2 ^ k) as -> by (rewrite <- Hxk at 1; ring).
  assert (2 ^ k * (1 # 2) <= u * x + eta) as Hb.
  { destruct (Z.max_spec (e - 52) (-1074)) as [[Hlt Hmax] | [Hle Hmax]]; fold k in Hmax.
    - rewrite Hmax. assert (0 < u * x) by (apply Qmult_lt_0_compat; [reflexivity | exact Hx]).
      assert (2 ^ (-1074) * (1 # 2) == eta) as -> by reflexivity. lra.
    - rewrite Hmax. replace (e - 52)%Z with (e + -52)%Z by lia. rewrite pow2_plus.
      assert (2 ^ e * 2 ^ (-52) * (1 # 2) == u * 2 ^ e) as ->.
      { assert (2 ^ (-52) * (1 # 2) == u) as Hc by reflexivity.
        rewrite <- Hc. set (p := 2 ^ e). set (c := 2 ^ (-52)). ring. }
      assert (0 < eta) by reflexivity.
      assert (u * 2 ^ e <= u * x) by (apply Qmult_le_l; [reflexivity | exact He]).
      lra. }
  apply Qabs_Qle_condition. clearbody m. set (p := 2 ^ k) in *. clearbody p.
  set (d := m - x / p) in *. clearbody d.
  split.
  - assert (- (p * (1 # 2)) <= d * p) by nra. lra.
  - assert (d * p <= p * (1 # 2)) by nra. lra.
Qed.

Lemma fl_comp (x y : Q) : x == y -> fl x = fl y.
Proof. intros H. unfold fl. now rewrite (Qred_complete x y H). Qed.

(** A rounding error is at most half a unit in the last place. *)
Lemma fl_error (x : Q) : Qabs (fl x - x) <= u * Qabs x + eta.
Proof.
  unfold fl. pose proof (Qred_correct x) as Hr.
  set (r := Qred x) in *. 
  destruct (Qnum r) as [| n | n] eqn:E.
  - assert (x == 0) as -> by (rewrite <- Hr; destruct r; cbn in E; subst; reflexivity).
    apply Qle_bool_iff. reflexivity.
  - assert (0 < r) as Hpos by (destruct r; cbn in E; subst; reflexivity).
    rewrite Qred_correct. rewrite <- Hr. rewrite (Qabs_pos r) by lra.
    now apply round_pos_error.
  - assert (r < 0) as Hneg by (destruct r; cbn in E; subst; reflexivity).
    rewrite Qred_correct. rewrite <- Hr. rewrite (Qabs_neg r) by lra.
    assert (0 < - r) as Hpos by lra.
    pose proof (round_pos_error (- r) Hpos) as H.
    assert (- round_pos (- r) - r == - (round_pos (- r) - - r)) as -> by ring.
    now rewrite Qabs_opp.
Qed.

Lemma round_pos_nonneg (x : Q) : 0 < x -> 0 <= round_pos x.
Proof.
  intros Hx. unfold round_pos.
  set (k := Z.max _ _). pose proof (pow2_pos k) as Hk.
  apply Qmult_le_0_compat; [| lra].
  assert (0 <= x / 2 ^ k) as Hy by (apply Qle_shift_div_l; lra).
  unfold nearest_even.
  assert (0 <= Qfloor (x / 2 ^ k))%Z as Hq by (change 0%Z with (Qfloor 0); now apply Qfloor_resp_le).
  change 0 with (inject_Z 0). rewrite <- Zle_Qle.
  destruct (Qcompare _ _); [destruct (Z.even _) |..]; lia.
Qed.

Lemma fl_nonneg (x : Q) : 0 <= x -> 0 <= fl x.
Proof.
  intros Hx. unfold fl. pose proof (Qred_correct x) as Hr.
  set (r := Qred x) in *.
  destruct (Qnum r) as [| n | n] eqn:E.
  - lra.
  - rewrite Qred_correct. apply round_pos_nonneg. destruct r; cbn in E; subst; reflexivity.
  - exfalso. assert (r < 0) as Hneg by (destruct r; cbn in E; subst; reflexivity). lra.
Qed.

Lemma fl_within (x B : Q) :
  Qabs x <= B -> - (u * B + eta) <= fl x - x /\ fl x - x <= u * B + eta.
Proof.
  intros HB. pose proof (fl_error x) as H. apply Qabs_Qle_condition in H.
  assert (u * Qabs x <= u * B) by (apply Qmult_le_l; [reflexivity | exact HB]).
  split; lra.
Qed.

(** The combined factor is 0.1445 to one rounding error. *)
Lemma COMBINED_FACTOR_bounds :
  0.1445 <= Normalizer.COMBINED_FACTOR
  /\ Normalizer.COMBINED_FACTOR <= 0.1445 * (1 + 2 * u).
Proof. split; apply Qle_bool_iff; vm_compute; reflexivity. Qed.

(** The rounded quotient is the exact one to eight rounding errors. *)
Lemma tier1_quotient_error (p a : Q) :
  2 ^ (-1000) <= a ->
  Qabs (Normalizer.tier1_quotient p a - p / (a * 0.1445))
  <= 2 ^ (-50) * Qabs (p / (a * 0.1445)) + eta.
Proof.
  intros Ha. unfold Normalizer.tier1_quotient.
  destruct COMBINED_FACTOR_bounds as [Hc1 Hc2]. set (c := Normalizer.COMBINED_FACTOR) in *.
  assert (0 < 2 ^ (-1000)) as Hpos by reflexivity.
  assert (0 < a) as Ha0 by lra.
  set (A := a * 0.1445).
  assert (0 < A) as HA by (unfold A; lra).
  assert (eta <= u * (2 ^ (-1000) * 0.1445)) as Heta
      by (apply Qle_bool_iff; vm_compute; reflexivity).
  assert (0 < u) as Hu by reflexivity.
  assert (u <= 1 # 1000) as Hu' by (apply Qle_bool_iff; reflexivity).
  assert (u * (2 ^ (-1000) * 0.1445) <= u * A) as HuA
      by (apply Qmult_le_l; [exact Hu | unfold A; lra]).
  assert (A <= a * c) as Hac1.
  { unfold A. rewrite !(Qmult_comm a). apply Qmult_le_compat_r; lra. }
  assert (a * c <= A + 2 * (u * A)) as Hac2.
  { assert (a * c <= a * (0.1445 * (1 + 2 * u))) as H
        by (apply Qmult_le_l; assumption).
    assert (a * (0.1445 * (1 + 2 * u)) == A + 2 * (u * A)) as E by (unfold A; ring).
    lra. }
  assert (0 <= u * A) as HuA0 by (apply Qmult_le_0_compat; lra).
  assert (u * A <= (1 # 1000) * A) as HuA1 by (apply Qmult_le_compat_r; lra).
  assert (Qabs (a * c) <= 2 * A) as Habs by (rewrite Qabs_pos; lra).
  destruct (fl_within (a * c) _ Habs) as [HD1 HD2].
  set (D := fl (a * c)) in *.
  assert (u * (2 * A) == 2 * (u * A)) as E2 by ring.
  assert (A - 3 * (u * A) <= D) as HDlo by lra.
  assert (D <= A + 5 * (u * A)) as HDhi by lra.
  assert ((99 # 100) * A <= D) as HDhalf by lra.
  assert (0 < D) as HD by lra.
  assert (u * ((99 # 100) * A) <= u * D) as HuD by (apply Qmult_le_l; assumption).
  set (E := p / A).
  assert (Qabs E == Qabs p / A) as HE.
  { unfold E, Qdiv. rewrite Qabs_Qmult, (Qabs_pos (/ A)); [reflexivity |].
    apply Qlt_le_weak, Qinv_lt_0_compat; exact HA. }
  assert (Qabs (p / D - E) <= 6 * u * Qabs E) as Hq.
  { assert (p / D - E == p * ((A - D) / (D * A))) as -> by (unfold E; field; lra).
    rewrite HE, Qabs_Qmult.
    assert (0 < D * A) as HDA by (apply Qmult_lt_0_compat; assumption).
    assert (Qabs ((A - D) / (D * A)) <= 6 * u / A) as Hr.
    { apply Qabs_Qle_condition. split.
      - apply Qle_shift_div_l; [exact HDA |].
        assert (- (6 * u / A) * (D * A) == - (6 * (u * D))) as -> by (field; lra). lra.
      - apply Qle_shift_div_r; [exact HDA |].
        assert (6 * u / A * (D * A) == 6 * (u * D)) as -> by (field; lra). lra. }
    assert (0 <= Qabs p) as Hp by apply Qabs_nonneg.
    assert (6 * u * (Qabs p / A) == Qabs p * (6 * u / A)) as -> by (field; lra).
    rewrite !(Qmult_comm (Qabs p)). apply Qmult_le_compat_r; assumption. }
  assert (Qabs (p / D) <= 2 * Qabs E) as HpD.
  { assert (p / D == (p / D - E) + E) as -> by ring.
    pose proof (Qabs_triangle (p / D - E) E) as Ht.
    assert (0 <= Qabs E) as HE0 by apply Qabs_nonneg.
    assert (6 * u * Qabs E <= 6 * (1 # 1000) * Qabs E) as H6.
    { apply Qmult_le_compat_r; [lra | exact HE0]. }
    lra. }
  destruct (fl_within (p / D) _ HpD) as [Hf1 Hf2].
  apply Qabs_Qle_condition in Hq. destruct Hq as [Hq1 Hq2].
  assert (u * (2 * Qabs E) == 2 * (u * Qabs E)) as E3 by ring.
  assert (6 * u * Qabs E == 6 * (u * Qabs E)) as E4 by ring.
  assert (2 ^ (-50) * Qabs E == 8 * (u * Qabs E)) as E5.
  { assert (2 ^ (-50) == 8 * u) as -> by reflexivity. ring. }
  apply Qabs_Qle_condition. fold A. fold E. split; lra.
Qed.

End Rounding.

(** ** The normaliser *)

Lemma or_zero_Some (v : Q) : JS.or_zero (Some v) == v.
Proof.
  unfold JS.or_zero, JS.or, JS.truthy_opt.
  destruct (JS.truthy v) eqn:E; [reflexivity |].
  apply truthy_false in E. symmetry. exact E.
Qed.

Lemma Math_round_comp (x y : Q) : x == y -> JS.Math_round x = JS.Math_round y.
Proof.
  intros E. unfold JS.Math_round. apply Qfloor_comp. rewrite E. reflexivity.
Qed.


Lemma number_or_null_truthy (v : Q) :
  ~ v == 0 -> Normalizer.number_or_null (Some v) = Some v.
Proof.
  intros H. unfold Normalizer.number_or_null, JS.truthy_opt.
  apply truthy_true in H. now rewrite H.
Qed.

(** In binary64 the product of 0.17 and 0.85 is 0.14450000000000002: the
    number above the one nearest to 0.1445. *)
Lemma COMBINED_FACTOR_value :
  Normalizer.COMBINED_FACTOR == 2603080584620147 # 18014398509481984
  /\ 0.1445 < Normalizer.COMBINED_FACTOR
  /\ Binary64.fl 0.1445 < Normalizer.COMBINED_FACTOR.
Proof. repeat split. Qed.

Lemma tier1_quotient_comp (s s' f f' : Q) :
  s == s' -> f == f' -> Normalizer.tier1_quotient s f = Normalizer.tier1_quotient s' f'.
Proof.
  intros Hs Hf. unfold Normalizer.tier1_quotient.
  assert (Binary64.fl (f * Normalizer.COMBINED_FACTOR)
          = Binary64.fl (f' * Normalizer.COMBINED_FACTOR)) as ->
      by (apply fl_comp; now rewrite Hf).
  apply fl_comp. now rewrite Hs.
Qed.

Lemma tier1_quotient_nonneg (s f : Q) :
  0 <= s -> 0 <= f -> 0 <= Normalizer.tier1_quotient s f.
Proof.
  intros Hs Hf. unfold Normalizer.tier1_quotient. apply fl_nonneg.
  assert (0 <= Binary64.fl (f * Normalizer.COMBINED_FACTOR)) as Hd.
  { apply fl_nonneg. apply Qmult_le_0_compat; [exact Hf |].
    destruct COMBINED_FACTOR_bounds as [Hc _]. lra. }
  unfold Qdiv. apply Qmult_le_0_compat; [exact Hs |]. now apply Qinv_le_0_compat.
Qed.

Lemma tier1_Some (stromertrag : option Q) (flaeche v : Q) :
  Normalizer.tier1 stromertrag flaeche = Some v ->
  exists p, stromertrag = Some p /\ ~ p == 0 /\ 0 < flaeche
            /\ v = Normalizer.tier1_quotient p flaeche.
Proof.
  unfold Normalizer.tier1. destruct stromertrag as [p |]; [| discriminate].
  destruct (JS.truthy p) eqn:Ep; [| discriminate].
  destruct (JS.gt flaeche 0) eqn:Ef; [| discriminate].
  intros [= <-]. exists p. apply truthy_true in Ep. apply gt_true in Ef. auto.
Qed.

(** Once a tier has produced a truthy value the later tiers keep it. *)
Lemma later_tiers_keep (g m : option Q) (v : Q) :
  JS.truthy v = true ->
  Normalizer.tier4 g m (Normalizer.tier3 g (Normalizer.tier2 m (Some v))) = Some v.
Proof.
  intros Hv.
  assert (Normalizer.tier2 m (Some v) = Some v) as ->.
  { unfold Normalizer.tier2. destruct m; [| reflexivity]. simpl. now rewrite Hv. }
  assert (Normalizer.tier3 g (Some v) = Some v) as ->.
  { unfold Normalizer.tier3. destruct g; [| reflexivity]. simpl. now rewrite Hv. }
  unfold Normalizer.tier4. simpl. now rewrite Hv.
Qed.

Lemma tier1_nonneg (stromertrag : option Q) (flaeche : Q) :
  nonneg_opt stromertrag -> opt_nonneg (Normalizer.tier1 stromertrag flaeche).
Proof.
  intros Hs. destruct (Normalizer.tier1 stromertrag flaeche) as [v |] eqn:E; [| exact I].
  apply tier1_Some in E as (p & -> & _ & Hf & ->). simpl in *.
  apply tier1_quotient_nonneg; [exact Hs | lra].
Qed.

Lemma tier2_nonneg (m acc : option Q) :
  opt_nonneg acc -> opt_nonneg (Normalizer.tier2 m acc).
Proof.
  intros Hacc. unfold Normalizer.tier2. destruct m as [mv |]; [| exact Hacc].
  destruct (negb (JS.truthy_opt acc) && JS.truthy mv); [| exact Hacc].
  destruct (Normalizer.plausible (mv * 12)) eqn:E; [| exact Hacc].
  apply plausible_true in E. simpl. lra.
Qed.

Lemma tier3_nonneg (g acc : option Q) :
  opt_nonneg acc -> opt_nonneg (Normalizer.tier3 g acc).
Proof.
  intros Hacc. unfold Normalizer.tier3. destruct g as [gv |]; [| exact Hacc].
  destruct (negb (JS.truthy_opt acc) && JS.truthy gv); [| exact Hacc].
  destruct (find Normalizer.plausible (Normalizer.tier3_candidates gv)) as [c |] eqn:E;
    [| exact Hacc].
  apply find_some in E as [_ E]. apply plausible_true in E. simpl. lra.
Qed.

Lemma tier4_Some (g m acc : option Q) : exists v, Normalizer.tier4 g m acc = Some v.
Proof.
  unfold Normalizer.tier4. destruct acc as [a |]; simpl.
  - destruct (JS.truthy a); simpl; eauto.
  - eauto.
Qed.

Lemma tier4_nonneg (g m acc : option Q) :
  nonneg_opt g -> nonneg_opt m -> opt_nonneg acc ->
  opt_nonneg (Normalizer.tier4 g m acc).
Proof.
  intros Hg Hm Hacc. unfold Normalizer.tier4.
  destruct (negb (JS.truthy_opt acc)); [| exact Hacc].
  unfold JS.or_zero, JS.or, JS.and, JS.truthy_opt.
  destruct g as [gv |], m as [mv |]; simpl in *;
    repeat match goal with
           | |- context [JS.truthy ?x] => destruct (JS.truthy x)
           end; simpl; lra.
Qed.

Lemma nonneg_number_or_null (a : option Q) :
  nonneg_opt a -> nonneg_opt (Normalizer.number_or_null a).
Proof.
  unfold Normalizer.number_or_null. destruct (JS.truthy_opt a); [auto | intros _; exact I].
Qed.

Lemma annual_nonneg (attrs : Attrs) :
  nonneg_opt (stromertrag attrs) -> nonneg_opt (gstrahlung attrs) ->
  nonneg_opt (mstrahlung attrs) ->
  opt_nonneg (Normalizer.annualKwhPerM2 attrs).
Proof.
  intros Hs Hg Hm. unfold Normalizer.annualKwhPerM2.
  apply tier4_nonneg; try now apply nonneg_number_or_null.
  apply tier3_nonneg, tier2_nonneg, tier1_nonneg. now apply nonneg_number_or_null.
Qed.

(** What [getSolarData] returns when it returns a record. *)
Lemma getSolarData_Some (net : Network) (e n : Q) (w w' : World) (r : SolarRoofData) :
  getSolarData net e n w = (Returned (Some r), w') ->
  exists rs, r = Normalizer.normalize (Selector.chosenAttrs e n rs).
Proof.
  unfold getSolarData. run_js.
  destruct (identifyPoint net e n) as [| resp]; [discriminate |]. cbn.
  destruct (ok resp); cbn; [| discriminate].
  destruct (json resp) as [data |]; [| discriminate].
  destruct (results data) as [[| r0 rs] |]; try discriminate.
  intros [= <- _]. eauto.
Qed.

(** C4 (as amended): the radiation [getSolarData] returns is the annual
    value the tiers settle on, rounded to the nearest integer; it is not
    negative when the reported production, general and monthly figures of the
    chosen feature are not negative.  Negative figures are not clamped. *)
Theorem getSolarData_radiation_rounded (net : Network) (e n : Q) (w w' : World)
    (r : SolarRoofData) :
  getSolarData net e n w = (Returned (Some r), w') ->
  exists attrs v,
    raw r = RawAttrs attrs
    /\ Normalizer.annualKwhPerM2 attrs = Some v
    /\ inject_Z (radiation r) - (1 # 2) <= v
    /\ v < inject_Z (radiation r) + (1 # 2)
    /\ (nonneg_opt (stromertrag attrs) -> nonneg_opt (gstrahlung attrs) ->
        nonneg_opt (mstrahlung attrs) -> (0 <= radiation r)%Z).
Proof.
  intros H. apply getSolarData_Some in H as [rs ->].
  set (attrs := Selector.chosenAttrs e n rs).
  destruct (tier4_Some (Normalizer.number_or_null (gstrahlung attrs))
              (Normalizer.number_or_null (mstrahlung attrs))
              (Normalizer.tier3 (Normalizer.number_or_null (gstrahlung attrs))
                 (Normalizer.tier2 (Normalizer.number_or_null (mstrahlung attrs))
                    (Normalizer.tier1 (Normalizer.number_or_null (stromertrag attrs))
                       (Normalizer.number_or_zero (flaeche attrs))))))
    as [v Hv].
  fold (Normalizer.annualKwhPerM2 attrs) in Hv.
  exists attrs, v. simpl. rewrite Hv.
  rewrite (Math_round_comp _ _ (or_zero_Some v)).
  pose proof (Math_round_nearest v) as [H1 H2].
  repeat split; auto.
  intros Hs Hg Hm. apply Math_round_nonneg.
  pose proof (annual_nonneg attrs Hs Hg Hm) as Hn. now rewrite Hv in Hn.
Qed.

Lemma getSolarData_radiation_rounded_witness :
  exists attrs v,
    raw (Normalizer.normalize sampleAttrs) = RawAttrs attrs
    /\ Normalizer.annualKwhPerM2 attrs = Some v
    /\ inject_Z (radiation (Normalizer.normalize sampleAttrs)) - (1 # 2) <= v
    /\ v < inject_Z (radiation (Normalizer.normalize sampleAttrs)) + (1 # 2)
    /\ (nonneg_opt (stromertrag attrs) -> nonneg_opt (gstrahlung attrs) ->
        nonneg_opt (mstrahlung attrs) ->
        (0 <= radiation (Normalizer.normalize sampleAttrs))%Z).
Proof.
  apply (getSolarData_radiation_rounded (roofNetwork sampleAttrs) 0 0 emptyWorld
           (mkWorld ∅ None None [ReqIdentifyPoint 0 0] [])).
  reflexivity.
Defined.

(** C4 (counterexample): a feature whose only figure is the general radiation
    [-5] is returned with radiation [-5]. *)
Lemma getSolarData_negative_radiation :
  exists r w',
    getSolarData (roofNetwork negativeGeneral) 0 0 emptyWorld = (Returned (Some r), w')
    /\ (radiation r < 0)%Z.
Proof.
  eexists. eexists. split; [reflexivity |]. vm_compute. reflexivity.
Qed.


(** The radiation of the record once the tiers have settled on [v]. *)
Lemma normalize_radiation (attrs : Attrs) (v : Q) :
  Normalizer.annualKwhPerM2 attrs = Some v ->
  radiation (Normalizer.normalize attrs) = JS.Math_round v.
Proof.
  intros H. simpl. rewrite H. apply Math_round_comp, or_zero_Some.
Qed.

(** C5 (as amended): with a production the code takes as present (not zero)
    and a positive area, when the quotient the program computes in binary64,
    production / (area * (0.17 * 0.85)), is finite and not zero, the value
    after all four tiers is that quotient, so the radiation is that quotient
    rounded, whatever the monthly and general figures are.  The computed
    quotient is production / (area * 0.1445) to 2^-50 of it, and the
    radiation is within one half and that much of it; it is not always its
    nearest integer: an area of 2000 with a production of 3034.5 yields 10
    where 3034.5 / (2000 * 0.1445) = 10.5 rounds to 11.  The sample of the
    normalisation script yields 954. *)
Theorem tier1_production_derived (attrs : Attrs) (p a : Q) :
  stromertrag attrs = Some p -> ~ p == 0 ->
  flaeche attrs = Some a -> 2 ^ (-1000) <= a ->
  ~ Normalizer.tier1_quotient p a == 0 ->
  Binary64.no_overflow (Normalizer.tier1_quotient p a) ->
  Normalizer.annualKwhPerM2 attrs = Some (Normalizer.tier1_quotient p a)
  /\ radiation (Normalizer.normalize attrs)
     = JS.Math_round (Normalizer.tier1_quotient p a)
  /\ Qabs (Normalizer.tier1_quotient p a - p / (a * 0.1445))
     <= 2 ^ (-50) * Qabs (p / (a * 0.1445)) + Binary64.eta
  /\ Qabs (inject_Z (radiation (Normalizer.normalize attrs)) - p / (a * 0.1445))
     <= (1 # 2) + 2 ^ (-50) * Qabs (p / (a * 0.1445)) + Binary64.eta
  /\ radiation (Normalizer.normalize sampleAttrs) = 954%Z
  /\ radiation (Normalizer.normalize halfWay) = 10%Z
  /\ JS.Math_round (3034.5 / (2000 * 0.1445)) = 11%Z.
Proof.
  intros Hs Hp Hf Ha Hq _.
  assert (0 < a) as Ha0 by (assert (0 < 2 ^ (-1000)) by reflexivity; lra).
  assert (Normalizer.annualKwhPerM2 attrs = Some (Normalizer.tier1_quotient p a)) as Hv.
  { unfold Normalizer.annualKwhPerM2. rewrite Hs, Hf.
    rewrite (number_or_null_truthy p Hp). cbn [Normalizer.number_or_zero Normalizer.tier1].
    apply truthy_true in Hp as Hp'. apply gt_true in Ha0 as Ha'. rewrite Hp', Ha'. cbn [andb].
    apply later_tiers_keep, truthy_true. exact Hq. }
  pose proof (tier1_quotient_error p a Ha) as Herr.
  pose proof (normalize_radiation _ _ Hv) as Hr.
  split; [exact Hv |]. split; [exact Hr |]. split; [exact Herr |].
  split; [| split; [vm_compute; reflexivity | split; vm_compute; reflexivity]].
  rewrite Hr.
  destruct (Math_round_nearest (Normalizer.tier1_quotient p a)) as [H1 H2].
  apply Qabs_Qle_condition in Herr. destruct Herr as [H3 H4].
  apply Qabs_Qle_condition. split; lra.
Qed.

Lemma tier1_production_derived_witness :
  Normalizer.annualKwhPerM2 halfWay = Some (Normalizer.tier1_quotient 3034.5 2000)
  /\ radiation (Normalizer.normalize halfWay)
     = JS.Math_round (Normalizer.tier1_quotient 3034.5 2000)
  /\ Qabs (Normalizer.tier1_quotient 3034.5 2000 - 3034.5 / (2000 * 0.1445))
     <= 2 ^ (-50) * Qabs (3034.5 / (2000 * 0.1445)) + Binary64.eta
  /\ Qabs (inject_Z (radiation (Normalizer.normalize halfWay)) - 3034.5 / (2000 * 0.1445))
     <= (1 # 2) + 2 ^ (-50) * Qabs (3034.5 / (2000 * 0.1445)) + Binary64.eta
  /\ radiation (Normalizer.normalize sampleAttrs) = 954%Z
  /\ radiation (Normalizer.normalize halfWay) = 10%Z
  /\ JS.Math_round (3034.5 / (2000 * 0.1445)) = 11%Z.
Proof.
  apply (tier1_production_derived halfWay 3034.5 2000).
  - reflexivity.
  - intros E. vm_compute in E. discriminate.
  - reflexivity.
  - apply Qle_bool_iff. vm_compute. reflexivity.
  - intros E. vm_compute in E. discriminate.
  - apply Qlt_alt. vm_compute. reflexivity.
Defined.

(** C5 (counterexample): the sample {area=35.2531614459, production=4862,
    monthly=862, general=30388} does not yield 955:
    4862 / (35.2531614459 * 0.1445) lies between 954.44 and 954.45. *)
Lemma sampleAttrs_not_955 :
  radiation (Normalizer.normalize sampleAttrs) <> 955%Z
  /\ 954.44 < 4862 / (35.2531614459 * 0.1445) < 954.45.
Proof.
  split; [vm_compute; discriminate |]. split; reflexivity.
Qed.




(** ** Candidate selection *)

Lemma comparator_outranks (x y : Selector.Candidate) :
  JS.lt (Selector.comparator y x) 0 = false <-> outranks x y.
Proof.
  rewrite lt_false. unfold Selector.comparator, outranks.
  destruct (Qeq_bool (Selector.f x) (Selector.f y)) eqn:E; cbn [negb].
  - apply Qeq_bool_iff in E. split; [intros H; right; split; lra | intros [H | [_ H]]; lra].
  - apply Qeq_bool_neq in E. split.
    + intros H. left. destruct (Qlt_le_dec (Selector.f y) (Selector.f x)) as [L | L]; [exact L |].
      exfalso. apply E. lra.
    + intros [H | [H _]]; [lra |]. exfalso. apply E. now symmetry.
Qed.

Lemma outranks_refl (x : Selector.Candidate) : outranks x x.
Proof. right. split; [reflexivity | apply Qle_refl]. Qed.

Lemma outranks_trans (x y z : Selector.Candidate) :
  outranks x y -> outranks y z -> outranks x z.
Proof.
  unfold outranks. intros [H1 | [H1 H1']] [H2 | [H2 H2']].
  - left. lra.
  - left. lra.
  - left. lra.
  - right. split; lra.
Qed.

Lemma outranks_total (x y : Selector.Candidate) : outranks x y \/ outranks y x.
Proof.
  unfold outranks.
  destruct (Q_dec (Selector.f x) (Selector.f y)) as [[L | L] | E].
  - right. now left.
  - left. now left.
  - destruct (Qlt_le_dec (Selector.s x) (Selector.s y)) as [L | L].
    + right. right. split; [exact E | lra].
    + left. right. split; [now symmetry | exact L].
Qed.

Lemma sort_insert_In (x y : Selector.Candidate) (l : list Selector.Candidate) :
  In y (Selector.sort_insert x l) <-> y = x \/ In y l.
Proof.
  induction l as [| z l IH]; cbn.
  - intuition.
  - destruct (JS.lt (Selector.comparator z x) 0); cbn; rewrite ?IH; intuition.
Qed.

Lemma sort_In (y : Selector.Candidate) (l : list Selector.Candidate) :
  In y (Selector.sort l) <-> In y l.
Proof.
  induction l as [| x l IH]; cbn; [reflexivity |].
  rewrite sort_insert_In, IH. intuition.
Qed.

Lemma sort_insert_ranked (x : Selector.Candidate) (l : list Selector.Candidate) :
  ranked l -> ranked (Selector.sort_insert x l).
Proof.
  induction 1 as [| z l Hz Hl IH]; cbn.
  - constructor; [intros y [] | constructor].
  - destruct (JS.lt (Selector.comparator z x) 0) eqn:E.
    + constructor; [| exact IH].
      intros y Hy. apply sort_insert_In in Hy as [-> | Hy]; [| now apply Hz].
      destruct (outranks_total z x) as [H | H]; [exact H |].
      apply comparator_outranks in H. congruence.
    + apply comparator_outranks in E.
      constructor; [| now constructor].
      intros y [<- | Hy]; [exact E |]. apply outranks_trans with z; auto.
Qed.

Lemma sort_ranked (l : list Selector.Candidate) : ranked (Selector.sort l).
Proof.
  induction l as [| x l IH]; cbn; [constructor | now apply sort_insert_ranked].
Qed.

Lemma not_farther_refl (a : JS.Dist) : not_farther a a.
Proof.
  unfold not_farther. destruct a as [r |]; cbn; [| reflexivity].
  apply lt_false, Qle_refl.
Qed.

Lemma not_farther_trans (a b c : JS.Dist) :
  not_farther a b -> not_farther b c -> not_farther a c.
Proof.
  unfold not_farther.
  destruct a as [ra |], b as [rb |], c as [rc |]; cbn; try congruence.
  rewrite !lt_false. intros. lra.
Qed.

Lemma dist_lt_not_farther (a b : JS.Dist) : JS.dist_lt a b = true -> not_farther a b.
Proof.
  unfold not_farther. destruct a as [ra |], b as [rb |]; cbn; try congruence.
  rewrite lt_true, lt_false. intros. lra.
Qed.

Lemma not_farther_within (a b : JS.Dist) (n : Q) :
  not_farther a b -> JS.dist_le b n = true -> JS.dist_le a n = true.
Proof.
  unfold not_farther. destruct a as [ra |], b as [rb |]; cbn; try congruence.
  rewrite lt_false, !le_true. intros. lra.
Qed.

(** The loop for the nearest candidate ends on an element that no element
    is nearer than. *)
Lemma nearestOf_spec (l : list Selector.Candidate) (first : Selector.Candidate) :
  (Selector.nearestOf first l = first \/ In (Selector.nearestOf first l) l)
  /\ not_farther (Selector.dist (Selector.nearestOf first l)) (Selector.dist first)
  /\ forall u, In u l ->
       not_farther (Selector.dist (Selector.nearestOf first l)) (Selector.dist u).
Proof.
  revert first. induction l as [| u l IH]; intros first.
  - cbn. split; [now left |]. split; [apply not_farther_refl | intros ? []].
  - change (Selector.nearestOf first (u :: l))
      with (Selector.nearestOf
              (if JS.dist_lt (Selector.dist u) (Selector.dist first) then u else first) l).
    set (n1 := if JS.dist_lt (Selector.dist u) (Selector.dist first) then u else first).
    destruct (IH n1) as (Hin & Hn1 & Hall).
    assert (not_farther (Selector.dist n1) (Selector.dist first)
            /\ not_farther (Selector.dist n1) (Selector.dist u)) as [Hf Hu].
    { subst n1. destruct (JS.dist_lt (Selector.dist u) (Selector.dist first)) eqn:E.
      - split; [now apply dist_lt_not_farther | apply not_farther_refl].
      - split; [apply not_farther_refl | exact E]. }
    split.
    + destruct Hin as [-> | Hin]; [| now right; right].
      subst n1. destruct (JS.dist_lt (Selector.dist u) (Selector.dist first));
        [right; now left | now left].
    + split; [eapply not_farther_trans; eauto |].
      intros v [<- | Hv]; [eapply not_farther_trans; eauto | now apply Hall].
Qed.

(** C7: the selection among the representatives with their distances.  A
    candidate is chosen as soon as there is one; when some representative is
    within 20 length units the chosen one is a nearest representative (itself
    within 20); when none is, the chosen one has the largest area, and the
    largest production among those of that area.  With A (area 50, distance
    5) and B (area 80, distance 30), A is chosen. *)
Theorem chosenObj_rule (uniq : list Selector.Candidate) :
  uniq <> [] ->
  exists c,
    Selector.chosenObj uniq = Some c
    /\ In c uniq
    /\ ((exists u, In u uniq /\ JS.dist_le (Selector.dist u) 20 = true) ->
        JS.dist_le (Selector.dist c) 20 = true
        /\ forall u, In u uniq -> JS.dist_lt (Selector.dist u) (Selector.dist c) = false)
    /\ ((forall u, In u uniq -> JS.dist_le (Selector.dist u) 20 = false) ->
        forall u, In u uniq -> outranks c u)
    /\ Selector.chosenObj [candidateA; candidateB] = Some candidateA
    /\ Selector.chosenObj [candidateB; candidateA] = Some candidateA.
Proof.
  intros Hne. unfold Selector.chosenObj, Selector.CHOOSE_NEARBY_METERS.
  pose proof (sort_ranked uniq) as Hr. pose proof (fun y => sort_In y uniq) as Hin.
  destruct (Selector.sort uniq) as [| u0 rest] eqn:Es.
  { destruct uniq as [| x l]; [congruence |]. destruct (proj2 (Hin x)); now left. }
  set (nearest := Selector.nearestOf u0 (u0 :: rest)).
  destruct (nearestOf_spec (u0 :: rest) u0) as (Hn & _ & Hall). fold nearest in Hn, Hall.
  assert (In nearest (u0 :: rest)) as Hn' by (destruct Hn as [-> | Hn]; [now left | exact Hn]).
  inversion Hr as [| x l Hx Hl]; subst.
  eexists. split; [reflexivity |].
  destruct (JS.dist_le (Selector.dist nearest) 20) eqn:E.
  - split; [now apply Hin |]. split; [| split].
    + intros _. split; [exact E |]. intros u Hu. apply Hall. now apply Hin.
    + intros Hfar. rewrite (Hfar nearest) in E; [discriminate | now apply Hin].
    + split; reflexivity.
  - split; [apply Hin; now left |]. split; [| split].
    + intros (u & Hu & Hclose). exfalso.
      apply Hin in Hu. apply Hall in Hu.
      rewrite (not_farther_within _ _ _ Hu Hclose) in E. discriminate.
    + intros _ u Hu. apply Hin in Hu as [<- | Hu]; [apply outranks_refl | now apply Hx].
    + split; reflexivity.
Qed.

Lemma chosenObj_rule_witness :
  exists c,
    Selector.chosenObj [candidateA; candidateB] = Some c
    /\ In c [candidateA; candidateB]
    /\ ((exists u, In u [candidateA; candidateB]
                   /\ JS.dist_le (Selector.dist u) 20 = true) ->
        JS.dist_le (Selector.dist c) 20 = true
        /\ forall u, In u [candidateA; candidateB] ->
                     JS.dist_lt (Selector.dist u) (Selector.dist c) = false)
    /\ ((forall u, In u [candidateA; candidateB] ->
                   JS.dist_le (Selector.dist u) 20 = false) ->
        forall u, In u [candidateA; candidateB] -> outranks c u)
    /\ Selector.chosenObj [candidateA; candidateB] = Some candidateA
    /\ Selector.chosenObj [candidateB; candidateA] = Some candidateA.
Proof.
  apply (chosenObj_rule [candidateA; candidateB]). discriminate.
Defined.

(** ** Guards and failures *)

(** C2 (as amended): for a polygon that is [null] or has fewer than three
    vertices, [samplePolygonRadiation] and [getSolarDataForPolygon] return
    [null] at once and leave the world as it is: no request is issued, no
    cache is touched.  Nothing is raised. *)
Theorem malformed_polygon_returns_null (net : Network)
    (polygonWgs84 : option (list LatLng)) (gridSize : nat)
    (progressCb : option (nat -> nat -> bool)) (concurrency : nat) (sched : list nat)
    (w : World) :
  malformed polygonWgs84 ->
  samplePolygonRadiation net polygonWgs84 gridSize progressCb concurrency sched w
    = (Returned None, w)
  /\ getSolarDataForPolygon net polygonWgs84 w = (Returned None, w).
Proof.
  intros H. unfold samplePolygonRadiation, getSolarDataForPolygon.
  destruct polygonWgs84 as [polygon |]; [| split; reflexivity].
  cbn in H. apply Nat.ltb_lt in H. rewrite H. split; reflexivity.
Qed.

Lemma malformed_polygon_returns_null_witness :
  samplePolygonRadiation failingNetwork
      (Some [mkLatLng 46.5205 6.631; mkLatLng 46.519 6.633]) 3 None 4 [] emptyWorld
    = (Returned None, emptyWorld)
  /\ getSolarDataForPolygon failingNetwork
       (Some [mkLatLng 46.5205 6.631; mkLatLng 46.519 6.633]) emptyWorld
     = (Returned None, emptyWorld).
Proof.
  apply malformed_polygon_returns_null. cbn. lia.
Defined.

(** C2 (counterexample): a polygon of two vertices, and [null], are not
    answered by an error. *)
Lemma malformed_polygon_not_raised :
  malformed (Some [mkLatLng 46.5205 6.631; mkLatLng 46.519 6.633])
  /\ fst (samplePolygonRadiation failingNetwork
            (Some [mkLatLng 46.5205 6.631; mkLatLng 46.519 6.633]) 3 None 4 []
            emptyWorld) <> Thrown
  /\ fst (getSolarDataForPolygon failingNetwork
            (Some [mkLatLng 46.5205 6.631; mkLatLng 46.519 6.633]) emptyWorld) <> Thrown
  /\ fst (samplePolygonRadiation failingNetwork None 3 None 4 [] emptyWorld) <> Thrown.
Proof.
  split; [cbn; lia |]. repeat split; discriminate.
Qed.

(** C3 (as amended): when the identify request is answered, [getSolarData]
    returns [null] both for a non-success status and for a successful answer
    without results; the one request it has issued is all it does. *)
Theorem getSolarData_null (net : Network) (e n : Q) (w : World)
    (response : Response IdentifyData) :
  identifyPoint net e n = Resolved response ->
  ok response = false
  \/ (ok response = true
      /\ exists data, json response = Some data
                      /\ (results data = Some [] \/ results data = None)) ->
  getSolarData net e n w
    = (Returned None,
       mkWorld (memCache w) (globalCache w) (localStorage w)
               (requests w ++ [ReqIdentifyPoint e n]) (progress w)).
Proof.
  intros Hnet H. unfold getSolarData. run_js. rewrite Hnet. cbn.
  destruct H as [-> | (-> & data & -> & Hres)]; cbn; [reflexivity |].
  destruct Hres as [-> | ->]; reflexivity.
Qed.

Lemma getSolarData_null_witness :
  getSolarData failingNetwork 2538000 1152000 emptyWorld
    = (Returned None, mkWorld ∅ None None [ReqIdentifyPoint 2538000 1152000] []).
Proof.
  apply (getSolarData_null failingNetwork 2538000 1152000 emptyWorld
           (mkResponse false 500 None)).
  - reflexivity.
  - left. reflexivity.
Defined.

(** C3 (counterexample): a response with status 500 does not make
    [getSolarData] raise. *)
Lemma getSolarData_status_500_not_raised :
  identifyPoint failingNetwork 2538000 1152000 = Resolved (mkResponse false 500 None)
  /\ fst (getSolarData failingNetwork 2538000 1152000 emptyWorld) <> Thrown.
Proof.
  split; [reflexivity | discriminate].
Qed.

(** [getSolarData] raises only when the request or the decoding of the body
    is rejected. *)
Lemma getSolarData_Thrown (net : Network) (e n : Q) (w w' : World) :
  getSolarData net e n w = (Thrown, w') ->
  identifyPoint net e n = Rejected
  \/ exists response, identifyPoint net e n = Resolved response
                      /\ ok response = true /\ json response = None.
Proof.
  unfold getSolarData. run_js.
  destruct (identifyPoint net e n) as [| response]; [now left |]. cbn.
  destruct (ok response) eqn:Eok; cbn; [| discriminate].
  destruct (json response) as [data |] eqn:Ej.
  - destruct (results data) as [[| r0 rs] |]; discriminate.
  - intros _. right. exists response. auto.
Qed.

(** ** The frame of [getSolarDataForPolygonWithSampling] *)

(** C10: when the polygon identify has returned the record [base], the
    result is [base] with its radiation replaced by the sampled value when
    sampling returns a positive one, all other fields being those of [base];
    it is [base] itself when sampling returns [null] or a value that is not
    positive, or throws. *)
Theorem sampling_frame (net : Network) (polygonWgs84 : option (list LatLng))
    (progressCb : option (nat -> nat -> bool)) (sched : list nat)
    (w w1 : World) (base : SolarRoofData) :
  getSolarDataForPolygon net polygonWgs84 w = (Returned (Some base), w1) ->
  match samplePolygonRadiation net polygonWgs84 3 progressCb 4 sched w1 with
  | (Returned (Some v), w2) =>
      if (0 <? v)%Z
      then exists r,
             getSolarDataForPolygonWithSampling net polygonWgs84 progressCb sched w
               = (Returned (Some r), w2)
             /\ radiation r = v
             /\ area r = area base
             /\ power r = power base
             /\ suitability r = suitability base
             /\ stretrag r = stretrag base
             /\ raw r = raw base
      else getSolarDataForPolygonWithSampling net polygonWgs84 progressCb sched w
             = (Returned (Some base), w2)
  | (Returned None, w2) | (Thrown, w2) =>
      getSolarDataForPolygonWithSampling net polygonWgs84 progressCb sched w
        = (Returned (Some base), w2)
  end.
Proof.
  intros Hbase.
  assert (getSolarDataForPolygonWithSampling net polygonWgs84 progressCb sched w
          = match samplePolygonRadiation net polygonWgs84 3 progressCb 4 sched w1 with
            | (Returned (Some v), w2) =>
                (Returned (Some (if negb (v =? 0)%Z && (0 <? v)%Z
                                 then with_radiation base v else base)), w2)
            | (Returned None, w2) | (Thrown, w2) => (Returned (Some base), w2)
            end) as ->.
  { unfold getSolarDataForPolygonWithSampling, bind, try_catch. rewrite Hbase.
    destruct (samplePolygonRadiation net polygonWgs84 3 progressCb 4 sched w1)
      as [[[v |] |] w2]; cbn; try reflexivity.
    destruct (negb (v =? 0)%Z && (0 <? v)%Z); reflexivity. }
  destruct (samplePolygonRadiation net polygonWgs84 3 progressCb 4 sched w1)
    as [[[v |] |] w2]; try reflexivity.
  destruct (0 <? v)%Z eqn:Epos.
  - assert ((v =? 0)%Z = false) as -> by (apply Z.ltb_lt in Epos; apply Z.eqb_neq; lia).
    cbn. eexists. split; [reflexivity |]. cbn. repeat split; reflexivity.
  - rewrite andb_false_r. reflexivity.
Qed.

Lemma sampling_frame_witness :
  match samplePolygonRadiation (mixedNetwork edge1 sampleAttrs) (Some lausanneSquare)
          3 None 4 []
          (snd (getSolarDataForPolygon (mixedNetwork edge1 sampleAttrs)
                  (Some lausanneSquare) emptyWorld)) with
  | (Returned (Some v), w2) =>
      if (0 <? v)%Z
      then exists r,
             getSolarDataForPolygonWithSampling (mixedNetwork edge1 sampleAttrs)
                 (Some lausanneSquare) None [] emptyWorld
               = (Returned (Some r), w2)
             /\ radiation r = v
             /\ area r = area (polygonRecord [mkResult (Some sampleAttrs) None])
             /\ power r = power (polygonRecord [mkResult (Some sampleAttrs) None])
             /\ suitability r
                = suitability (polygonRecord [mkResult (Some sampleAttrs) None])
             /\ stretrag r = stretrag (polygonRecord [mkResult (Some sampleAttrs) None])
             /\ raw r = raw (polygonRecord [mkResult (Some sampleAttrs) None])
      else getSolarDataForPolygonWithSampling (mixedNetwork edge1 sampleAttrs)
               (Some lausanneSquare) None [] emptyWorld
             = (Returned (Some (polygonRecord [mkResult (Some sampleAttrs) None])), w2)
  | (Returned None, w2) | (Thrown, w2) =>
      getSolarDataForPolygonWithSampling (mixedNetwork edge1 sampleAttrs)
          (Some lausanneSquare) None [] emptyWorld
        = (Returned (Some (polygonRecord [mkResult (Some sampleAttrs) None])), w2)
  end.
Proof.
  apply sampling_frame. reflexivity.
Defined.

(** On the test square, with a polygon identify that reports the sample
    feature and point identifies that report the first edge case, the
    sampled 3000 replaces the radiation 954 of the polygon record, whose
    area and production stay. *)
Example sampling_replaces_radiation :
  exists r w',
    getSolarDataForPolygonWithSampling (mixedNetwork edge1 sampleAttrs)
        (Some lausanneSquare) None [] emptyWorld = (Returned (Some r), w')
    /\ radiation (polygonRecord [mkResult (Some sampleAttrs) None]) = 954%Z
    /\ radiation r = 3000%Z
    /\ area r = 35
    /\ stretrag r = Some 4862.
Proof.
  eexists. eexists. split; [vm_compute; reflexivity |]. repeat split.
Qed.

(** ** The workers *)

Lemma lookupPoint_returns (net : Network) (pt : LatLng) (w : World) :
  exists pushed w', lookupPoint net pt w = (Returned pushed, w').
Proof.
  unfold lookupPoint, try_catch.
  match goal with |- context [match ?m w with _ => _ end] => destruct (m w) as [[a |] w1] end;
    eauto.
Qed.

Lemma bind_Returned {A B} (m : M A) (k : A -> M B) (w w' : World) (b : B) :
  bind m k w = (Returned b, w') ->
  exists a w1, m w = (Returned a, w1) /\ k a w1 = (Returned b, w').
Proof.
  unfold bind. destruct (m w) as [[a |] w1]; [eauto | discriminate].
Qed.

(** Only a positive radiation is pushed. *)
Lemma lookupPoint_positive (net : Network) (pt : LatLng) (w w' : World) (v : Z) :
  lookupPoint net pt w = (Returned (Some v), w') -> (0 < v)%Z.
Proof.
  unfold lookupPoint, try_catch.
  match goal with |- context [match ?m w with _ => _ end] =>
    destruct (m w) as [[a |] w1] eqn:E end; [| discriminate].
  intros [= -> ->].
  apply bind_Returned in E as (lv95 & w2 & _ & E).
  apply bind_Returned in E as (roof & w3 & _ & E).
  unfold ret in E. injection E as E _.
  destruct roof as [r |]; [| discriminate].
  destruct (0 <? radiation r)%Z eqn:Epos; [| discriminate].
  injection E as <-. now apply Z.ltb_lt.
Qed.

Lemma callProgress_returns (progressCb : option (nat -> nat -> bool)) (d total : nat)
    (w : World) :
  exists returned w', callProgress progressCb d total w = (Returned returned, w')
                      /\ requests w' = requests w.
Proof.
  unfold callProgress. destruct progressCb as [cb |]; run_js; eauto.
Qed.

(** What the rest of the loop body does, case by case. *)
Lemma finishPoint_cases (net : Network) (progressCb : option (nat -> nat -> bool))
    (total : nat) (pt : LatLng) (rest : list LatLng) (ss : Session) (w : World) :
  exists pushed returned w',
    (forall v, pushed = Some v -> (0 < v)%Z)
    /\ finishPoint net progressCb total pt rest ss w
       = (Returned
            (let samples' := match pushed with
                             | Some r => samples ss ++ [r]
                             | None => samples ss
                             end in
             if negb returned
             then (mkSession samples' (S (done ss)) (stopEarly ss), Failed)
             else if (4 <=? length samples')%nat && stable samples'
                  then (mkSession samples' (S (done ss)) true, Finished)
                  else (mkSession samples' (S (done ss)) (stopEarly ss),
                        next_point (stopEarly ss) rest)),
          w').
Proof.
  destruct (lookupPoint_returns net pt w) as (pushed & w1 & Hl).
  destruct (callProgress_returns progressCb (S (done ss)) total w1)
    as (returned & w' & Hc & _).
  exists pushed, returned, w'. split.
  - intros v ->. eapply lookupPoint_positive; eauto.
  - unfold finishPoint, bind. rewrite Hl, Hc.
    destruct (negb returned); [reflexivity |].
    destruct ((4 <=? _)%nat && _); reflexivity.
Qed.


Lemma resume_idle (net : Network) (progressCb : option (nat -> nat -> bool))
    (total i : nat) (p : Pool) (w : World) :
  (forall pt rest, workers p !! i <> Some (InFlight pt rest)) ->
  resume net progressCb total i p w = (Returned p, w).
Proof.
  intros H. unfold resume.
  destruct (workers p !! i) as [[pt rest | |] |] eqn:E; try reflexivity.
  now destruct (H pt rest).
Qed.

Lemma resume_in_flight (net : Network) (progressCb : option (nat -> nat -> bool))
    (total i : nat) (p : Pool) (w : World) (pt : LatLng) (rest : list LatLng) :
  workers p !! i = Some (InFlight pt rest) ->
  exists ss' wk w',
    finishPoint net progressCb total pt rest (session p) w = (Returned (ss', wk), w')
    /\ resume net progressCb total i p w
       = (Returned (mkPool ss' (<[i := wk]> (workers p))), w').
Proof.
  intros H. unfold resume. rewrite H.
  destruct (finishPoint_cases net progressCb total pt rest (session p) w)
    as (pushed & returned & w' & _ & E).
  unfold bind. rewrite E. cbv zeta.
  match goal with |- context [Returned ?r] => destruct r as [ss' wk] eqn:Er end.
  exists ss', wk, w'. split; reflexivity.
Qed.







Lemma firstInFlight_Some (ws : list Worker) (i : nat) :
  firstInFlight ws = Some i -> exists pt rest, ws !! i = Some (InFlight pt rest).
Proof.
  revert i. induction ws as [| x ws IH]; intros i; [discriminate |].
  destruct x as [pt rest | |]; cbn.
  - intros [= <-]. eauto.
  - destruct (firstInFlight ws) as [k |]; [| discriminate]. intros [= <-]. now apply IH.
  - destruct (firstInFlight ws) as [k |]; [| discriminate]. intros [= <-]. now apply IH.
Qed.

Lemma firstInFlight_None (ws : list Worker) :
  firstInFlight ws = None -> inFlight ws = 0%nat /\ remaining ws = 0%nat.
Proof.
  induction ws as [| x ws IH]; [auto |].
  destruct x; cbn; [discriminate | ..];
    (destruct (firstInFlight ws); [discriminate | auto]).
Qed.







(** *** Every run of the workers comes to an end *)

Lemma remaining_insert (ws : list Worker) (i : nat) (old wk : Worker) :
  ws !! i = Some old ->
  (remaining (<[i := wk]> ws) + remaining1 old = remaining ws + remaining1 wk)%nat.
Proof.
  revert i. induction ws as [| x ws IH]; intros i Hi; [discriminate |].
  destruct i as [| i]; cbn in Hi.
  - injection Hi as ->. destruct old, wk; cbn; lia.
  - specialize (IH i Hi).
    change (<[S i := wk]> (x :: ws)) with (x :: <[i := wk]> ws).
    destruct x; cbn [remaining]; lia.
Qed.

Lemma next_point_remaining (stop : bool) (pts : list LatLng) :
  (remaining1 (next_point stop pts) <= length pts)%nat.
Proof.
  destruct pts as [| pt rest]; cbn; [lia |]. destruct stop; cbn; lia.
Qed.

(** Resuming a waiting worker leaves fewer points to finish. *)
Lemma resume_remaining (net : Network) (progressCb : option (nat -> nat -> bool))
    (total i : nat) (p : Pool) (w : World) :
  exists p' w',
    resume net progressCb total i p w = (Returned p', w')
    /\ (remaining (workers p') <= remaining (workers p))%nat
    /\ (forall pt rest, workers p !! i = Some (InFlight pt rest) ->
        (remaining (workers p') < remaining (workers p))%nat).
Proof.
  destruct (workers p !! i) as [[pt rest | |] |] eqn:Ei.
  2-4: exists p, w; split; [apply resume_idle; congruence |];
       split; [lia | congruence].
  destruct (resume_in_flight net progressCb total i p w pt rest Ei)
    as (ss' & wk & w' & Hf & Hr).
  exists (mkPool ss' (<[i := wk]> (workers p))), w'. split; [exact Hr |].
  destruct (finishPoint_cases net progressCb total pt rest (session p) w)
    as (pushed & returned & w'' & _ & E).
  rewrite E in Hf. cbv zeta in Hf.
  assert (remaining1 wk <= length rest)%nat as Hwk.
  { destruct (negb returned); [injection Hf as _ <- _; cbn; lia |].
    destruct ((4 <=? _)%nat && _); injection Hf as _ <- _;
      [cbn; lia | apply next_point_remaining]. }
  pose proof (remaining_insert (workers p) i _ wk Ei) as Hrem. cbn in Hrem |- *.
  split; [lia | intros; lia].
Qed.

Lemma runSchedule_remaining (net : Network) (progressCb : option (nat -> nat -> bool))
    (total : nat) (sched : list nat) (p : Pool) (w : World) :
  exists p' w',
    runSchedule net progressCb total sched p w = (Returned p', w')
    /\ (remaining (workers p') <= remaining (workers p))%nat.
Proof.
  revert p w. induction sched as [| i sched IH]; intros p w.
  - exists p, w. split; [reflexivity | lia].
  - destruct (resume_remaining net progressCb total i p w) as (p1 & w1 & Hr & Hle & _).
    destruct (IH p1 w1) as (p2 & w2 & Hrun & Hle2).
    exists p2, w2. cbn. unfold bind. rewrite Hr. split; [exact Hrun | lia].
Qed.

Lemma drain_settles (net : Network) (progressCb : option (nat -> nat -> bool))
    (total fuel : nat) (p : Pool) (w : World) :
  (remaining (workers p) <= fuel)%nat ->
  exists p' w',
    drain net progressCb total fuel p w = (Returned p', w')
    /\ inFlight (workers p') = 0%nat.
Proof.
  revert p w. induction fuel as [| fuel IH]; intros p w Hfuel; cbn.
  - exists p, w. split; [reflexivity |].
    destruct (firstInFlight (workers p)) as [i |] eqn:Ei;
      [| now apply firstInFlight_None].
    destruct (firstInFlight_Some _ _ Ei) as (pt & rest & Hi).
    pose proof (remaining_insert (workers p) i _ Finished Hi) as H. cbn in H. lia.
  - destruct (firstInFlight (workers p)) as [i |] eqn:Ei.
    + destruct (firstInFlight_Some _ _ Ei) as (pt & rest & Hi).
      destruct (resume_remaining net progressCb total i p w) as (p1 & w1 & Hr & _ & Hlt).
      specialize (Hlt pt rest Hi).
      destruct (IH p1 w1) as (p2 & w2 & Hd & Hz); [lia |].
      exists p2, w2. unfold bind. rewrite Hr. auto.
    + exists p, w. split; [reflexivity | now apply firstInFlight_None].
Qed.

Lemma remaining_start (groups : list (list LatLng)) :
  remaining (map (next_point false) groups) = length (concat groups).
Proof.
  induction groups as [| g groups IH]; [reflexivity |].
  cbn. rewrite length_app, <- IH. destruct g; cbn; lia.
Qed.

Lemma concat_alter_push (groups : list (list LatLng)) (k : nat) (pt : LatLng) :
  (k < length groups)%nat ->
  length (concat (alter (fun g => g ++ [pt]) k groups)) = S (length (concat groups)).
Proof.
  revert k. induction groups as [| g groups IH]; intros k Hk; cbn in Hk; [lia |].
  destruct k as [| k]; cbn.
  - rewrite !length_app. cbn. lia.
  - rewrite !length_app, IH by lia. lia.
Qed.

Lemma distribute_length (concurrency i : nat) (pts : list LatLng)
    (groups : list (list LatLng)) :
  (0 < concurrency)%nat -> length groups = concurrency ->
  length (concat (distribute concurrency i pts groups))
    = (length (concat groups) + length pts)%nat.
Proof.
  intros Hc. revert i groups. induction pts as [| pt pts IH]; intros i groups Hg; cbn.
  - lia.
  - rewrite IH by (rewrite length_alter; exact Hg).
    rewrite concat_alter_push; [lia |].
    rewrite Hg. apply Nat.mod_upper_bound. lia.
Qed.

(** With at least one worker, [Promise.all] settles: the turns granted after
    the schedule are enough for every worker to end. *)
Lemma settle_settles (net : Network) (progressCb : option (nat -> nat -> bool))
    (concurrency : nat) (pts : list LatLng) (sched : list nat) (w : World) :
  (0 < concurrency)%nat ->
  exists p' w',
    settle net progressCb (groupsOf concurrency pts) (length pts) sched w
      = (Returned p', w')
    /\ inFlight (workers p') = 0%nat.
Proof.
  intros Hc. unfold settle.
  set (start := mkPool _ _).
  destruct (runSchedule_remaining net progressCb (length pts) sched start w)
    as (p1 & w1 & Hrun & Hle).
  assert (remaining (workers start) = length pts) as Hstart.
  { subst start. cbn. rewrite remaining_start. unfold groupsOf.
    rewrite distribute_length; [| exact Hc | apply length_replicate].
    assert (concat (replicate concurrency ([] : list LatLng)) = []) as ->; [| reflexivity].
    clear. induction concurrency; cbn; auto. }
  destruct (drain_settles net progressCb (length pts) (length pts) p1 w1) as (p2 & w2 & Hd & Hz);
    [lia |].
  exists p2, w2. unfold bind. rewrite Hrun. auto.
Qed.

(** ** The sample cache *)

Lemma finishPoint_positive (net : Network) (progressCb : option (nat -> nat -> bool))
    (total : nat) (pt : LatLng) (rest : list LatLng) (ss ss' : Session) (wk : Worker)
    (w w' : World) :
  Forall (fun v => 0 < v)%Z (samples ss) ->
  finishPoint net progressCb total pt rest ss w = (Returned (ss', wk), w') ->
  Forall (fun v => 0 < v)%Z (samples ss').
Proof.
  intros Hpos Hf.
  destruct (finishPoint_cases net progressCb total pt rest ss w)
    as (pushed & returned & w'' & Hp & E).
  rewrite E in Hf. cbv zeta in Hf.
  assert (Forall (fun v => 0 < v)%Z
            match pushed with Some r => samples ss ++ [r] | None => samples ss end) as H.
  { destruct pushed as [v |]; [| exact Hpos].
    apply Forall_app; split; [exact Hpos |]. constructor; [now apply Hp | constructor]. }
  destruct (negb returned); [injection Hf as <- _ _; exact H |].
  destruct ((4 <=? _)%nat && _); injection Hf as <- _ _; exact H.
Qed.

Lemma resume_positive (net : Network) (progressCb : option (nat -> nat -> bool))
    (total i : nat) (p p' : Pool) (w w' : World) :
  Forall (fun v => 0 < v)%Z (samples (session p)) ->
  resume net progressCb total i p w = (Returned p', w') ->
  Forall (fun v => 0 < v)%Z (samples (session p')).
Proof.
  intros Hpos. destruct (workers p !! i) as [[pt rest | |] |] eqn:Ei.
  2-4: rewrite resume_idle by congruence; intros [= <- _]; exact Hpos.
  destruct (resume_in_flight net progressCb total i p w pt rest Ei)
    as (ss' & wk & w1 & Hf & ->).
  intros [= <- _]. cbn. eapply finishPoint_positive; eauto.
Qed.

Lemma runSchedule_positive (net : Network) (progressCb : option (nat -> nat -> bool))
    (total : nat) (sched : list nat) (p p' : Pool) (w w' : World) :
  Forall (fun v => 0 < v)%Z (samples (session p)) ->
  runSchedule net progressCb total sched p w = (Returned p', w') ->
  Forall (fun v => 0 < v)%Z (samples (session p')).
Proof.
  revert p w. induction sched as [| i sched IH]; intros p w Hpos; cbn.
  - intros [= <- _]. exact Hpos.
  - intros H. apply bind_Returned in H as (p1 & w1 & Hr & Hrun).
    eapply IH; [| exact Hrun]. eapply resume_positive; eauto.
Qed.

Lemma drain_positive (net : Network) (progressCb : option (nat -> nat -> bool))
    (total fuel : nat) (p p' : Pool) (w w' : World) :
  Forall (fun v => 0 < v)%Z (samples (session p)) ->
  drain net progressCb total fuel p w = (Returned p', w') ->
  Forall (fun v => 0 < v)%Z (samples (session p')).
Proof.
  revert p w. induction fuel as [| fuel IH]; intros p w Hpos; cbn.
  - intros [= <- _]. exact Hpos.
  - destruct (firstInFlight (workers p)) as [i |]; [| intros [= <- _]; exact Hpos].
    intros H. apply bind_Returned in H as (p1 & w1 & Hr & Hd).
    eapply IH; [| exact Hd]. eapply resume_positive; eauto.
Qed.

(** The samples the workers hand back are positive. *)
Lemma runWorkers_positive (net : Network) (progressCb : option (nat -> nat -> bool))
    (groups : list (list LatLng)) (total : nat) (sched : list nat) (w w' : World)
    (l : list Z) :
  runWorkers net progressCb groups total sched w = (Returned l, w') ->
  Forall (fun v => 0 < v)%Z l.
Proof.
  unfold runWorkers. intros H. apply bind_Returned in H as (p' & w1 & Hs & H).
  destruct (existsb is_failed (workers p')); [discriminate |].
  injection H as <- _.
  unfold settle in Hs. apply bind_Returned in Hs as (p1 & w2 & Hrun & Hd).
  eapply drain_positive; [| exact Hd].
  eapply runSchedule_positive; [| exact Hrun]. constructor.
Qed.

Lemma fold_add_positive (l : list Z) (a : Z) :
  Forall (fun v => 0 < v)%Z l -> (a + Z.of_nat (length l) <= fold_left Z.add l a)%Z.
Proof.
  revert a. induction l as [| x l IH]; intros a Hpos; cbn [fold_left length].
  - lia.
  - inversion Hpos as [| ? ? Hx Hl]; subst. specialize (IH (a + x)%Z Hl). lia.
Qed.

(** The rounded mean of positive integers is positive. *)
Lemma mean_positive (l : list Z) :
  Forall (fun v => 0 < v)%Z l -> l <> [] ->
  (0 < JS.Math_round (inject_Z (sum_Z l) / nat_to_Q (length l)))%Z.
Proof.
  intros Hpos Hne.
  pose proof (fold_add_positive l 0 Hpos) as Hsum. fold (sum_Z l) in Hsum.
  assert (0 < Z.of_nat (length l))%Z as Hlen by (destruct l; [congruence | cbn; lia]).
  assert (1 <= inject_Z (sum_Z l) / nat_to_Q (length l)) as Hmean.
  { apply Qle_shift_div_l.
    - unfold nat_to_Q. change 0 with (inject_Z 0). now rewrite <- Zlt_Qlt.
    - rewrite Qmult_1_l. unfold nat_to_Q. rewrite <- Zle_Qle. lia. }
  assert (1 <= JS.Math_round (inject_Z (sum_Z l) / nat_to_Q (length l)))%Z; [| lia].
  unfold JS.Math_round.
  apply (Qfloor_resp_le 1 (inject_Z (sum_Z l) / nat_to_Q (length l) + (1 # 2))). lra.
Qed.

Lemma storeResult_run (key : PolyKey) (result : Z) (w : World) :
  storeResult key result w
  = (Returned tt,
     mkWorld (<[key := result]> (memCache w))
             (Some (<[key := result]> (match globalCache w with Some g => g | None => ∅ end)))
             (saved (<[key := result]> (memCache w)) (localStorage w))
             (requests w) (progress w)).
Proof. reflexivity. Qed.

(** A value the computation returns is positive and has been written to the
    in-memory map and to the global map. *)
Lemma sampleUncached_Some (net : Network) (polygon : list LatLng) (key : PolyKey)
    (gridSize : nat) (progressCb : option (nat -> nat -> bool)) (concurrency : nat)
    (sched : list nat) (w w1 : World) (r : Z) :
  sampleUncached net polygon key gridSize progressCb concurrency sched w
    = (Returned (Some r), w1) ->
  (0 < r)%Z
  /\ memCache w1 !! key = Some r
  /\ exists g, globalCache w1 = Some g /\ g !! key = Some r.
Proof.
  unfold sampleUncached.
  destruct (length (candidatePts polygon gridSize) =? 0)%nat.
  - unfold centroidFallback, try_catch.
    match goal with |- context [match ?m w with _ => _ end] =>
      destruct (m w) as [[a |] w2] eqn:E end; [| discriminate].
    intros [= -> ->].
    apply bind_Returned in E as (lv95 & w3 & _ & E).
    apply bind_Returned in E as (roof & w4 & _ & E).
    destruct roof as [roof |]; [| discriminate].
    destruct (0 <? radiation roof)%Z eqn:Epos; [| discriminate].
    apply bind_Returned in E as ([] & w5 & Hstore & E).
    injection E as <- <-. rewrite storeResult_run in Hstore. injection Hstore as <-.
    rewrite Math_round_integer. apply Z.ltb_lt in Epos. cbn.
    split; [exact Epos |]. split; [apply lookup_insert_eq |].
    eexists. split; [reflexivity | apply lookup_insert_eq].
  - destruct (concurrency =? 0)%nat; [discriminate |].
    intros H. apply bind_Returned in H as (l & w2 & Hrun & H).
    destruct (length l =? 0)%nat eqn:El; [discriminate |].
    apply bind_Returned in H as ([] & w3 & Hstore & H).
    injection H as <- <-. rewrite storeResult_run in Hstore. injection Hstore as <-.
    cbn. split; [| split; [apply lookup_insert_eq |
                           eexists; split; [reflexivity | apply lookup_insert_eq]]].
    apply mean_positive; [eapply runWorkers_positive; eauto |].
    intros ->. discriminate.
Qed.

Lemma cacheKey_length (polygon : list LatLng) : length (cacheKey polygon) = length polygon.
Proof. apply length_map. Qed.

(** A call that finds its key in the in-memory map returns the entry and
    touches nothing. *)
Lemma sample_cached (net : Network) (polygon : list LatLng) (gridSize : nat)
    (progressCb : option (nat -> nat -> bool)) (concurrency : nat) (sched : list nat)
    (w : World) (r : Z) :
  (3 <= length polygon)%nat -> r <> 0%Z ->
  memCache w !! cacheKey polygon = Some r ->
  samplePolygonRadiation net (Some polygon) gridSize progressCb concurrency sched w
    = (Returned (Some r), w).
Proof.
  intros Hlen Hr Hmem. unfold samplePolygonRadiation.
  assert ((length polygon <? 3)%nat = false) as -> by (apply Nat.ltb_ge; lia).
  unfold bind, get_world. rewrite Hmem.
  apply Z.eqb_neq in Hr. rewrite Hr. reflexivity.
Qed.

(** A call that misses the in-memory map and finds its key in the global map
    returns that entry after copying it; it issues no request. *)
Lemma sample_global (net : Network) (polygon : list LatLng) (gridSize : nat)
    (progressCb : option (nat -> nat -> bool)) (concurrency : nat) (sched : list nat)
    (w : World) (g : gmap PolyKey Z) (r : Z) :
  (3 <= length polygon)%nat ->
  memCache w !! cacheKey polygon = None ->
  globalCache w = Some g -> g !! cacheKey polygon = Some r ->
  samplePolygonRadiation net (Some polygon) gridSize progressCb concurrency sched w
    = (Returned (Some r),
       mkWorld (<[cacheKey polygon := r]> (memCache w)) (globalCache w)
               (localStorage w) (requests w) (progress w)).
Proof.
  intros Hlen Hmem Hglob Hg. unfold samplePolygonRadiation.
  assert ((length polygon <? 3)%nat = false) as -> by (apply Nat.ltb_ge; lia).
  run_js. rewrite Hmem. destruct w as [mem glob storage reqs prog]. cbn in *.
  subst glob. cbn. rewrite Hg. reflexivity.
Qed.

(** Whatever the state of the caches, a value other than zero that a call
    returns is returned again by the next call, which touches nothing. *)
Lemma sample_round_trip (net : Network) (polygon polygon' : list LatLng)
    (gridSize gridSize' : nat) (progressCb progressCb' : option (nat -> nat -> bool))
    (concurrency concurrency' : nat) (sched sched' : list nat) (w w1 : World) (r : Z) :
  samplePolygonRadiation net (Some polygon) gridSize progressCb concurrency sched w
    = (Returned (Some r), w1) ->
  r <> 0%Z ->
  cacheKey polygon' = cacheKey polygon ->
  samplePolygonRadiation net (Some polygon') gridSize' progressCb' concurrency' sched' w1
    = (Returned (Some r), w1).
Proof.
  intros Hrun Hr Hkey.
  unfold samplePolygonRadiation in Hrun.
  destruct (length polygon <? 3)%nat eqn:Hlen; [discriminate |].
  apply Nat.ltb_ge in Hlen.
  assert (3 <= length polygon')%nat as Hlen'.
  { rewrite <- cacheKey_length, Hkey, cacheKey_length. exact Hlen. }
  apply sample_cached; [exact Hlen' | exact Hr |]. rewrite Hkey.
  unfold bind at 1, get_world in Hrun.
  destruct (memCache w !! cacheKey polygon) as [v |] eqn:Hmem.
  - unfold ret in Hrun. destruct (v =? 0)%Z; [discriminate |].
    injection Hrun as <- <-. exact Hmem.
  - destruct (globalCache w ≫= (fun g => g !! cacheKey polygon)) as [val |].
    + apply bind_Returned in Hrun as ([] & w2 & Hmod & Hret).
      unfold modify in Hmod. injection Hmod as <-.
      unfold ret in Hret. injection Hret as <- <-. cbn. apply lookup_insert_eq.
    + now apply sampleUncached_Some in Hrun as (_ & Hm1 & _).
Qed.

(** C9 (the code departs from the claim in its last part): a value [r] that
    [samplePolygonRadiation] has computed for a polygon is returned again,
    with the world untouched, by any later call for a polygon with the same
    rounded vertices.  After [clearPolygonSampleCache] the next call does not
    recompute: the entry is still in [globalThis.__polygonSampleCache], which
    the clearing leaves alone, and the call returns [r] from there without a
    request. *)
Theorem cache_survives_clear (net : Network) (polygon polygon' : list LatLng)
    (gridSize gridSize' : nat) (progressCb progressCb' : option (nat -> nat -> bool))
    (concurrency concurrency' : nat) (sched sched' : list nat) (w w1 : World) (r : Z) :
  memCache w !! cacheKey polygon = None ->
  globalCache w ≫= (fun g => g !! cacheKey polygon) = None ->
  samplePolygonRadiation net (Some polygon) gridSize progressCb concurrency sched w
    = (Returned (Some r), w1) ->
  cacheKey polygon' = cacheKey polygon ->
  samplePolygonRadiation net (Some polygon') gridSize' progressCb' concurrency' sched' w1
    = (Returned (Some r), w1)
  /\ exists w3,
       samplePolygonRadiation net (Some polygon') gridSize' progressCb' concurrency'
           sched' (snd (clearPolygonSampleCache w1))
         = (Returned (Some r), w3)
       /\ requests w3 = requests w1
       /\ progress w3 = progress w1.
Proof.
  intros Hmem Hglob Hrun Hkey.
  unfold samplePolygonRadiation in Hrun.
  destruct (length polygon <? 3)%nat eqn:Hlen; [discriminate |].
  apply Nat.ltb_ge in Hlen.
  unfold bind at 1, get_world in Hrun. rewrite Hmem, Hglob in Hrun.
  apply sampleUncached_Some in Hrun as (Hpos & Hm1 & g & Hg1 & Hgr).
  assert (3 <= length polygon')%nat as Hlen'.
  { rewrite <- cacheKey_length, Hkey, cacheKey_length. exact Hlen. }
  split.
  - apply sample_cached; [exact Hlen' | lia | now rewrite Hkey].
  - eexists. split.
    + apply (sample_global net polygon' gridSize' progressCb' concurrency' sched' _ g r);
        [exact Hlen' | apply lookup_empty | exact Hg1 | now rewrite Hkey].
    + split; reflexivity.
Qed.

Lemma cache_survives_clear_witness :
  samplePolygonRadiation (surveyNetwork sampleAttrs) (Some lausanneSquare) 3 None 4 []
      (snd (samplePolygonRadiation (surveyNetwork sampleAttrs) (Some lausanneSquare)
              3 None 4 [] emptyWorld))
    = (Returned (Some 954%Z),
       snd (samplePolygonRadiation (surveyNetwork sampleAttrs) (Some lausanneSquare)
              3 None 4 [] emptyWorld))
  /\ exists w3,
       samplePolygonRadiation (surveyNetwork sampleAttrs) (Some lausanneSquare)
           3 None 4 []
           (snd (clearPolygonSampleCache
                   (snd (samplePolygonRadiation (surveyNetwork sampleAttrs)
                           (Some lausanneSquare) 3 None 4 [] emptyWorld))))
         = (Returned (Some 954%Z), w3)
       /\ requests w3
          = requests (snd (samplePolygonRadiation (surveyNetwork sampleAttrs)
                             (Some lausanneSquare) 3 None 4 [] emptyWorld))
       /\ progress w3
          = progress (snd (samplePolygonRadiation (surveyNetwork sampleAttrs)
                             (Some lausanneSquare) 3 None 4 [] emptyWorld)).
Proof.
  apply (cache_survives_clear (surveyNetwork sampleAttrs) lausanneSquare lausanneSquare
           3 3 None None 4 4 [] [] emptyWorld).
  - reflexivity.
  - reflexivity.
  - vm_compute. reflexivity.
  - reflexivity.
Defined.

(** The three calls on the test square: the first computes from the centroid
    with two requests; the second and, after the clearing, the third return
    954 with the same two requests on record. *)
Example clear_then_sample_issues_no_request :
  let first := samplePolygonRadiation (surveyNetwork sampleAttrs) (Some lausanneSquare)
                 3 None 4 [] emptyWorld in
  let cleared := clearPolygonSampleCache (snd first) in
  let third := samplePolygonRadiation (surveyNetwork sampleAttrs) (Some lausanneSquare)
                 3 None 4 [] (snd cleared) in
  fst first = Returned (Some 954%Z)
  /\ length (requests (snd first)) = 2%nat
  /\ memCache (snd cleared) = ∅
  /\ fst third = Returned (Some 954%Z)
  /\ length (requests (snd third)) = 2%nat.
Proof.
  vm_compute. repeat split.
Qed.

(** ** Square roots over the reals

    The comparisons of [JS.Dist] and the stability test decide, on the
    radicands, the comparisons the code makes on [Math.sqrt] values. *)

Lemma Q2R_0 : Q2R 0 = 0%R.
Proof. unfold Q2R. cbn. Lra.lra. Qed.

Lemma sqrt_lt_square (a b : R) :
  (0 <= a)%R -> (0 <= b)%R -> (sqrt a < b)%R <-> (a < b * b)%R.
Proof.
  intros Ha Hb. split; intros H.
  - rewrite <- (sqrt_sqrt a Ha) at 1.
    apply Rmult_le_0_lt_compat; auto using sqrt_pos.
  - rewrite <- (sqrt_square b Hb). apply sqrt_lt_1_alt. split; assumption.
Qed.

Lemma distance_real (d : Q) :
  0 <= d -> sqrt (Q2R (d * d)) = Q2R d.
Proof.
  intros Hd. apply Qle_Rle in Hd. rewrite Q2R_0 in Hd.
  rewrite Q2R_mult. now apply sqrt_square.
Qed.

Lemma dist_lt_real (a b : Q) :
  0 <= a -> 0 <= b ->
  JS.dist_lt (JS.Sqrt a) (JS.Sqrt b) = true <-> (sqrt (Q2R a) < sqrt (Q2R b))%R.
Proof.
  intros Ha Hb. cbn. rewrite lt_true.
  apply Qle_Rle in Ha, Hb. rewrite Q2R_0 in Ha, Hb. split; intros H.
  - apply sqrt_lt_1_alt. split; [exact Ha | now apply Qlt_Rlt].
  - apply Rlt_Qlt. now apply sqrt_lt_0_alt.
Qed.

Lemma dist_le_real (a n : Q) :
  0 <= a -> 0 <= n ->
  JS.dist_le (JS.Sqrt a) n = true <-> (sqrt (Q2R a) <= Q2R n)%R.
Proof.
  intros Ha Hn. cbn. rewrite le_true.
  apply Qle_Rle in Ha, Hn. rewrite Q2R_0 in Ha, Hn.
  rewrite <- (sqrt_square (Q2R n) Hn) at 1. rewrite <- Q2R_mult. split; intros H.
  - apply sqrt_le_1_alt. now apply Qle_Rle.
  - apply Rle_Qle. apply sqrt_le_0; [exact Ha | | exact H].
    rewrite Q2R_mult. now apply Rmult_le_pos.
Qed.

Lemma sqrt_div_lt_real (v m t : Q) :
  0 <= v -> 0 < m -> 0 < t ->
  JS.sqrt_div_lt v m t = true <-> (sqrt (Q2R v) / Q2R m < Q2R t)%R.
Proof.
  intros Hv Hm Ht. unfold JS.sqrt_div_lt. rewrite lt_true.
  apply Qle_Rle in Hv. apply Qlt_Rlt in Hm, Ht. rewrite Q2R_0 in Hv, Hm, Ht.
  assert ((sqrt (Q2R v) / Q2R m < Q2R t)%R <-> (sqrt (Q2R v) < Q2R t * Q2R m)%R) as ->.
  { split; intros H.
    - apply (Rmult_lt_compat_r (Q2R m)) in H; [| exact Hm].
      unfold Rdiv in H. rewrite Rmult_assoc, Rinv_l, Rmult_1_r in H by Lra.lra. exact H.
    - apply (Rmult_lt_reg_r (Q2R m)); [exact Hm |].
      unfold Rdiv. rewrite Rmult_assoc, Rinv_l, Rmult_1_r by Lra.lra. exact H. }
  rewrite sqrt_lt_square; [| exact Hv | apply Rmult_le_pos; Lra.lra].
  rewrite <- !Q2R_mult. split; [apply Qlt_Rlt | apply Rlt_Qlt].
Qed.

(** ** The reference inputs on IEEE doubles *)

Lemma double_square_interior_outside :
  Double.pointInPolygon Double.interior Double.square = false.
Proof. vm_compute. reflexivity. Qed.

(** On the operands of all sizes, [Binary64.fl] of the exact sum, difference,
    product and quotient is the result of the primitive operation. *)
Lemma double_operations_agree : forallb Double.agree Double.operands = true.
Proof. vm_compute. reflexivity. Qed.

(** The combined factor, the tier-1 quotient of the half-way roof and the
    product behind the power of 2.135, on the primitive floats. *)
Lemma double_reference_figures :
  Double.denotes Double.COMBINED_FACTOR Normalizer.COMBINED_FACTOR = true
  /\ Double.denotes Double.halfWayQuotient (Normalizer.tier1_quotient 3034.5 2000) = true
  /\ Double.denotes Double.sampleQuotient
       (Normalizer.tier1_quotient 4862 (Binary64.fl 35.2531614459)) = true
  /\ Double.denotes Double.roundingProduct
       (Binary64.fl (Binary64.fl (Binary64.fl 2.135 + JS.EPSILON) * 100)) = true.
Proof. repeat split; vm_compute; reflexivity. Qed.

Lemma double_sample_quotient : Double.sampleQuotientRounds954 = true.
Proof. vm_compute. reflexivity. Qed.

(** * Further properties of the module *)

(** ** Coordinate conversion (lines 77-113) *)

Lemma convert_run (net : Network) (la ln : Q) (w : World) :
  only_requests w (snd (convertWGS84toLV95 net la ln w))
  /\ requests (snd (convertWGS84toLV95 net la ln w))
     = requests w ++ reframeRequests net la ln.
Proof.
  unfold convertWGS84toLV95, reframeRequests, only_requests. run_js.
  destruct (reframe net false la ln) as [| response]; cbn; [auto |].
  destruct (ok response); cbn.
  - destruct (json response); cbn; auto.
  - destruct (reframe net true la ln) as [| altResponse]; cbn;
      rewrite <- ?app_assoc; cbn; [auto |].
    destruct (ok altResponse); cbn; [| auto].
    destruct (json altResponse); cbn; auto.
Qed.


(** ** The point lookup (lines 118-157) and the lookups of a worker *)

Lemma getSolarData_run (net : Network) (e n : Q) (w : World) :
  only_requests w (snd (getSolarData net e n w))
  /\ requests (snd (getSolarData net e n w)) = requests w ++ [ReqIdentifyPoint e n].
Proof.
  unfold getSolarData, only_requests. run_js.
  destruct (identifyPoint net e n) as [| response]; cbn; [auto |].
  destruct (ok response); cbn; [| auto].
  destruct (json response) as [data |]; cbn; [| auto].
  destruct (results data) as [[| r rs] |]; cbn; auto.
Qed.

Lemma only_requests_trans (w1 w2 w3 : World) :
  only_requests w1 w2 -> only_requests w2 w3 -> only_requests w1 w3.
Proof.
  unfold only_requests. intros (-> & -> & -> & ->) (-> & -> & -> & ->). auto.
Qed.

Lemma only_requests_refl (w : World) : only_requests w w.
Proof. repeat split. Qed.

(** The world after the [try] block of a worker. *)
Lemma lookupPoint_run (net : Network) (pt : LatLng) (w : World) :
  exists pushed w',
    lookupPoint net pt w = (Returned pushed, w')
    /\ only_requests w w'
    /\ (length (requests w) < length (requests w') <= length (requests w) + 3)%nat.
Proof.
  destruct (convert_run net (lat pt) (lng pt) w) as [Hf1 Hr1].
  assert (1 <= length (reframeRequests net (lat pt) (lng pt)) <= 2)%nat as Hlen.
  { unfold reframeRequests. destruct (reframe net false (lat pt) (lng pt)) as [| r];
      cbn; [lia |]. destruct (ok r); cbn; lia. }
  unfold lookupPoint, try_catch, bind.
  destruct (convertWGS84toLV95 net (lat pt) (lng pt) w) as [[lv95 |] w1] eqn:Ec;
    cbn in Hf1, Hr1.
  - destruct (getSolarData_run net (easting lv95) (northing lv95) w1) as [Hf2 Hr2].
    destruct (getSolarData net (easting lv95) (northing lv95) w1) as [[roof |] w2];
      cbn in Hf2, Hr2; eexists; eexists; (split; [reflexivity |]);
      (split; [eapply only_requests_trans; eauto |]);
      rewrite Hr2, Hr1, !length_app; cbn [length]; lia.
  - eexists. eexists. split; [reflexivity |]. split; [exact Hf1 |].
    rewrite Hr1, length_app. lia.
Qed.

(** X2: the lookups of one grid point never throw out of the worker: a failed
    conversion or identify yields no sample.  They issue between one and
    three requests, leave caches and progress alone, and hand over a sample
    only when it is a positive radiation. *)
Theorem lookupPoint_absorbs_failures (net : Network) (pt : LatLng) (w : World) :
  exists pushed w',
    lookupPoint net pt w = (Returned pushed, w')
    /\ only_requests w w'
    /\ (length (requests w) < length (requests w') <= length (requests w) + 3)%nat
    /\ (forall v, pushed = Some v -> (0 < v)%Z)
    /\ (reframe net false (lat pt) (lng pt) = Rejected -> pushed = None).
Proof.
  destruct (lookupPoint_run net pt w) as (pushed & w' & Hl & Hf & Hr).
  exists pushed, w'.
  split; [exact Hl |]. split; [exact Hf |]. split; [exact Hr |]. split.
  - intros v ->. eapply lookupPoint_positive; eauto.
  - intros Hrej. revert Hl. unfold lookupPoint, try_catch, bind, convertWGS84toLV95.
    run_js. rewrite Hrej. cbn. intros [= <- _]. reflexivity.
Qed.

(** ** The tiers the claims leave out (lines 267-294) *)





(** ** Deduplication (lines 162-182) *)

Lemma opt_eqb_refl {A} (eqb : A -> A -> bool) (a : option A) :
  (forall x, eqb x x = true) -> Selector.opt_eqb eqb a a = true.
Proof. intros H. destruct a; cbn; auto. Qed.

Lemma key_eqb_refl (k : Selector.Key) : Selector.key_eqb k k = true.
Proof.
  destruct k as [n | str | a]; cbn.
  - apply Z.eqb_refl.
  - apply String.eqb_refl.
  - unfold Selector.attrs_eqb.
    rewrite !(opt_eqb_refl Z.eqb) by apply Z.eqb_refl.
    rewrite !(opt_eqb_refl String.eqb) by apply String.eqb_refl.
    rewrite !(opt_eqb_refl Qeq_bool) by apply Qeq_bool_refl. reflexivity.
Qed.

(** [get] finds the first entry under the key, and [set] replaces that entry
    or, when there is none, adds one at the end. *)
Lemma byKey_get_set (key : Selector.Key) (m : list (Selector.Key * Selector.Entry)) :
  match Selector.byKey_get key m with
  | Some v =>
      exists m1 k m2,
        m = m1 ++ (k, v) :: m2
        /\ Selector.key_eqb k key = true
        /\ forall e, Selector.byKey_set key e m = m1 ++ (k, e) :: m2
  | None =>
      Forall (fun x => Selector.key_eqb (fst x) key = false) m
      /\ forall e, Selector.byKey_set key e m = m ++ [(key, e)]
  end.
Proof.
  induction m as [| [k v] m IH]; cbn.
  - split; [constructor | reflexivity].
  - destruct (Selector.key_eqb k key) eqn:E.
    + exists [], k, m. repeat split; auto.
    + destruct (Selector.byKey_get key m) as [v' |].
      * destruct IH as (m1 & k' & m2 & -> & Hk & Hset).
        exists ((k, v) :: m1), k', m2. repeat split; [exact Hk |].
        intros e. cbn. now rewrite Hset.
      * destruct IH as [Hall Hset]. split; [constructor; [exact E | exact Hall] |].
        intros e. now rewrite Hset.
Qed.

Lemma rank_le_refl (a : Q * Q) : rank_le a a.
Proof. right. split; [reflexivity | apply Qle_refl]. Qed.

Lemma rank_le_trans (a b c : Q * Q) : rank_le a b -> rank_le b c -> rank_le a c.
Proof.
  unfold rank_le. intros [H1 | [H1 H1']] [H2 | [H2 H2']].
  - left. lra.
  - left. lra.
  - left. lra.
  - right. split; lra.
Qed.

(** The test [f > existing.f || (f === existing.f && s > existing.s)] decides
    which of the two ranks is kept. *)
Lemma replace_test (f s ef es : Q) :
  if JS.gt f ef || (Qeq_bool f ef && JS.gt s es)
  then rank_le (ef, es) (f, s)
  else rank_le (f, s) (ef, es).
Proof.
  unfold rank_le. cbn [fst snd].
  destruct (JS.gt f ef) eqn:E1; cbn [orb].
  - apply gt_true in E1. now left.
  - apply gt_false in E1. destruct (Qeq_bool f ef) eqn:E2; cbn [andb].
    + apply Qeq_bool_iff in E2. destruct (JS.gt s es) eqn:E3.
      * apply gt_true in E3. right. split; [now symmetry | lra].
      * apply gt_false in E3. right. split; [exact E2 | exact E3].
    + apply Qeq_bool_neq in E2. left.
      destruct (Qlt_le_dec f ef) as [L | L]; [exact L |]. exfalso. apply E2. lra.
Qed.

Lemma FOP_snoc {A} (R : A -> A -> Prop) (l : list A) (a : A) :
  ForallOrdPairs R l -> Forall (fun x => R x a) l -> ForallOrdPairs R (l ++ [a]).
Proof.
  induction 1 as [| x l Hx Hl IH]; intros Ha; cbn.
  - repeat constructor.
  - inversion Ha as [| ? ? Hxa Hla]; subst. constructor; [| now apply IH].
    apply Forall_app. split; [exact Hx | now constructor].
Qed.

Lemma dedupe_step_invariant (seen : list IdentifyResult)
    (m : list (Selector.Key * Selector.Entry)) (c : IdentifyResult) :
  dedupe_invariant seen m -> dedupe_invariant (seen ++ [c]) (Selector.dedupe_step m c).
Proof.
  intros (Hdom & Hfrom & Hkeys). unfold Selector.dedupe_step.
  fold (attrsOfResult c).
  set (a := attrsOfResult c). set (key := Selector.keyOf a).
  set (f := Normalizer.number_or_zero (flaeche a)).
  set (s := match Normalizer.number_or_null (stromertrag a) with
            | Some v => v
            | None => 0
            end).
  set (new := Selector.mkEntry a f s (geometry c)).
  assert (entry_of new c) as Hnew by (repeat split).
  assert (rankOf c = (f, s)) as Hrank by reflexivity.
  pose proof (byKey_get_set key m) as Hgs.
  destruct (Selector.byKey_get key m) as [existing |].
  - destruct Hgs as (m1 & k & m2 & -> & Hk & Hset).
    pose proof (replace_test f s (Selector.e_f existing) (Selector.e_s existing)) as Htest.
    destruct (JS.gt f (Selector.e_f existing)
              || (Qeq_bool f (Selector.e_f existing) && JS.gt s (Selector.e_s existing))).
    + rewrite Hset. split; [| split].
      * intros r Hr. apply in_app_or in Hr as [Hr | [<- | []]].
        -- destruct (Hdom r Hr) as (k' & u & Hin & Hk' & Hle).
           apply in_app_or in Hin as [Hin | [Heq | Hin]].
           ++ exists k', u. split; [apply in_or_app; now left | auto].
           ++ injection Heq as <- <-. exists k, new.
              split; [apply in_or_app; right; now left |]. split; [exact Hk' |].
              eapply rank_le_trans; [exact Hle | exact Htest].
           ++ exists k', u. split; [apply in_or_app; right; now right | auto].
        -- exists k, new. split; [apply in_or_app; right; now left |].
           split; [exact Hk | rewrite Hrank; apply rank_le_refl].
      * intros k' u Hin. apply in_app_or in Hin as [Hin | [Heq | Hin]].
        -- destruct (Hfrom k' u) as (r & Hr & He); [apply in_or_app; now left |].
           exists r. split; [apply in_or_app; now left | exact He].
        -- injection Heq as <- <-. exists c.
           split; [apply in_or_app; right; now left | split; [exact Hnew | exact Hk]].
        -- destruct (Hfrom k' u) as (r & Hr & He); [apply in_or_app; right; now right |].
           exists r. split; [apply in_or_app; now left | exact He].
      * rewrite map_app in Hkeys |- *. exact Hkeys.
    + split; [| split; [| exact Hkeys]].
      * intros r Hr. apply in_app_or in Hr as [Hr | [<- | []]]; [now apply Hdom |].
        exists k, existing. split; [apply in_or_app; right; now left |].
        split; [exact Hk | rewrite Hrank; exact Htest].
      * intros k' u Hin. destruct (Hfrom k' u Hin) as (r & Hr & He).
        exists r. split; [apply in_or_app; now left | exact He].
  - destruct Hgs as [Hnone Hset]. rewrite Hset. split; [| split].
    + intros r Hr. apply in_app_or in Hr as [Hr | [<- | []]].
      * destruct (Hdom r Hr) as (k' & u & Hin & Hk' & Hle).
        exists k', u. split; [apply in_or_app; now left | auto].
      * exists key, new. split; [apply in_or_app; right; now left |].
        split; [apply key_eqb_refl | rewrite Hrank; apply rank_le_refl].
    + intros k' u Hin. apply in_app_or in Hin as [Hin | [Heq | []]].
      * destruct (Hfrom k' u Hin) as (r & Hr & He).
        exists r. split; [apply in_or_app; now left | exact He].
      * injection Heq as <- <-. exists c.
        split; [apply in_or_app; right; now left | split; [exact Hnew | apply key_eqb_refl]].
    + rewrite map_app. cbn. apply FOP_snoc; [exact Hkeys |].
      apply List.Forall_map. exact Hnone.
Qed.

Lemma dedupe_fold_invariant (rs seen : list IdentifyResult)
    (m : list (Selector.Key * Selector.Entry)) :
  dedupe_invariant seen m ->
  dedupe_invariant (seen ++ rs) (fold_left Selector.dedupe_step rs m).
Proof.
  revert seen m. induction rs as [| c rs IH]; intros seen m Hinv; cbn.
  - now rewrite app_nil_r.
  - replace (seen ++ c :: rs) with ((seen ++ [c]) ++ rs) by now rewrite <- app_assoc.
    apply IH. now apply dedupe_step_invariant.
Qed.

Lemma byKeyOf_invariant (rs : list IdentifyResult) : dedupe_invariant rs (byKeyOf rs).
Proof.
  apply (dedupe_fold_invariant rs [] []).
  split; [intros ? [] | split; [intros ? ? [] | constructor]].
Qed.

(** X5: the deduplication loses no roof to a lesser one: after the loop,
    every result of the identify service has a representative under its own
    key whose area is larger, or whose area is the same and whose production
    is at least as large. *)
Theorem dedupe_keeps_best (results : list IdentifyResult) :
  Forall (fun r =>
            exists k u,
              In (k, u) (byKeyOf results)
              /\ In u (Selector.uniqOf results)
              /\ Selector.key_eqb k (Selector.keyOf (attrsOfResult r)) = true
              /\ rank_le (rankOf r) (Selector.e_f u, Selector.e_s u))
         results.
Proof.
  apply List.Forall_forall. intros r Hr.
  destruct (byKeyOf_invariant results) as (Hdom & _ & _).
  destruct (Hdom r Hr) as (k & u & Hin & Hk & Hle).
  exists k, u. repeat split; try assumption.
  unfold Selector.uniqOf. fold (byKeyOf results).
  change u with (snd (k, u)). now apply in_map.
Qed.

(** X6: the representatives are taken from the results and there is one per
    key: each carries the attributes, the area, the production and the
    geometry of a result that has its key, no two of them have the same key,
    and there are at most as many as there are results. *)
Theorem dedupe_representatives (results : list IdentifyResult) :
  Forall (fun ku =>
            exists r, In r results /\ entry_of (snd ku) r
                      /\ Selector.key_eqb (fst ku) (Selector.keyOf (attrsOfResult r)) = true)
         (byKeyOf results)
  /\ ForallOrdPairs (fun x y => Selector.key_eqb x y = false) (map fst (byKeyOf results))
  /\ Selector.uniqOf results = map snd (byKeyOf results)
  /\ (length (Selector.uniqOf results) <= length results)%nat.
Proof.
  destruct (byKeyOf_invariant results) as (_ & Hfrom & Hkeys).
  split; [| split; [exact Hkeys | split; [reflexivity |]]].
  - apply List.Forall_forall. intros [k u] Hin. now apply Hfrom.
  - unfold Selector.uniqOf. rewrite length_map. fold (byKeyOf results).
    unfold byKeyOf.
    assert (forall rs m, (length (fold_left Selector.dedupe_step rs m)
                          <= length m + length rs)%nat) as H.
    { induction rs as [| c rs IH]; intros m; cbn [fold_left length]; [lia |].
      specialize (IH (Selector.dedupe_step m c)).
      assert (length (Selector.dedupe_step m c) <= S (length m))%nat as Hstep.
      { unfold Selector.dedupe_step.
        pose proof (byKey_get_set
                      (Selector.keyOf match attributes c with Some a => a | None => noAttrs end) m)
          as Hgs.
        cbv zeta.
        destruct (Selector.byKey_get _ m) as [existing |].
        - destruct Hgs as (m1 & k & m2 & -> & _ & Hset).
          destruct (_ || _); [rewrite Hset |]; rewrite !length_app; cbn [length]; lia.
        - destruct Hgs as [_ Hset]. rewrite Hset, length_app. cbn [length]. lia. }
      lia. }
    apply (H results []).
Qed.

(** The attributes handed to the normaliser are those of one of the
    results. *)
Lemma chosenAttrs_In (e n : Q) (results : list IdentifyResult) :
  results <> [] ->
  exists r, In r results /\ Selector.chosenAttrs e n results = attrsOfResult r.
Proof.
  intros Hne. unfold Selector.chosenAttrs, Selector.chosenObj.
  set (cands := map (Selector.withDist e n) (Selector.uniqOf results)).
  assert (forall c, In c cands ->
            exists r, In r results /\ Selector.attrs c = attrsOfResult r) as Hc.
  { intros c Hin. apply in_map_iff in Hin as (u & <- & Hu).
    unfold Selector.uniqOf in Hu. apply in_map_iff in Hu as ([k u'] & <- & Hku).
    destruct (byKeyOf_invariant results) as (_ & Hfrom & _).
    destruct (Hfrom k u' Hku) as (r & Hr & (Ha & _) & _).
    exists r. split; [exact Hr | exact Ha]. }
  destruct (Selector.sort cands) as [| u0 rest] eqn:Es.
  - destruct results as [| r rs]; [congruence |]. exists r. split; [now left | reflexivity].
  - assert (forall c, In c (u0 :: rest) -> In c cands) as Hs
        by (intros c Hin; apply sort_In; now rewrite Es).
    cbv zeta. destruct (nearestOf_spec (u0 :: rest) u0) as ([Hn | Hn] & _).
    + rewrite Hn. destruct (JS.dist_le _ _); apply Hc, Hs; now left.
    + destruct (JS.dist_le _ _); apply Hc, Hs; [exact Hn | now left].
Qed.

(** X7: a record returned by [getSolarData] is taken from the answer of the
    service: the response was a success, its body listed at least one result,
    and the record is the normalisation of the attributes of one of the
    listed results, which it carries as [raw]. *)
Theorem getSolarData_from_results (net : Network) (e n : Q) (w w' : World)
    (record : SolarRoofData) :
  getSolarData net e n w = (Returned (Some record), w') ->
  exists response data rs r,
    identifyPoint net e n = Resolved response
    /\ ok response = true
    /\ json response = Some data
    /\ results data = Some rs
    /\ In r rs
    /\ record = Normalizer.normalize (attrsOfResult r)
    /\ raw record = RawAttrs (attrsOfResult r).
Proof.
  unfold getSolarData. run_js.
  destruct (identifyPoint net e n) as [| response]; [discriminate |]. cbn.
  destruct (ok response) eqn:Eok; cbn; [| discriminate].
  destruct (json response) as [data |] eqn:Ej; [| discriminate].
  destruct (results data) as [[| r0 rs] |] eqn:Er; try discriminate.
  intros [= <- _].
  destruct (chosenAttrs_In e n (r0 :: rs)) as (r & Hr & ->); [discriminate |].
  exists response, data, (r0 :: rs), r. repeat split; auto.
Qed.

Lemma getSolarData_from_results_witness :
  exists response data rs r,
    identifyPoint (roofNetwork sampleAttrs) 0 0 = Resolved response
    /\ ok response = true
    /\ json response = Some data
    /\ results data = Some rs
    /\ In r rs
    /\ Normalizer.normalize sampleAttrs = Normalizer.normalize (attrsOfResult r)
    /\ raw (Normalizer.normalize sampleAttrs) = RawAttrs (attrsOfResult r).
Proof.
  apply (getSolarData_from_results (roofNetwork sampleAttrs) 0 0 emptyWorld
           (mkWorld ∅ None None [ReqIdentifyPoint 0 0] [])).
  reflexivity.
Defined.

(** ** The aggregation of [getSolarDataForPolygon] (lines 355-373) *)

Lemma opt_eqb_trans {A} (eqb : A -> A -> bool) (a b c : option A) :
  (forall x y z, eqb x y = true -> eqb y z = true -> eqb x z = true) ->
  Selector.opt_eqb eqb a b = true -> Selector.opt_eqb eqb b c = true ->
  Selector.opt_eqb eqb a c = true.
Proof. intros H. destruct a, b, c; cbn; try discriminate; eauto. Qed.

Lemma Zeqb_trans (x y z : Z) : (x =? y)%Z = true -> (y =? z)%Z = true -> (x =? z)%Z = true.
Proof. rewrite !Z.eqb_eq. congruence. Qed.

Lemma Seqb_trans (x y z : string) :
  String.eqb x y = true -> String.eqb y z = true -> String.eqb x z = true.
Proof. rewrite !String.eqb_eq. congruence. Qed.

Lemma Qeqb_trans (x y z : Q) :
  Qeq_bool x y = true -> Qeq_bool y z = true -> Qeq_bool x z = true.
Proof. rewrite !Qeq_bool_iff. intros -> ->. reflexivity. Qed.

Lemma key_eqb_trans (a b c : Selector.Key) :
  Selector.key_eqb a b = true -> Selector.key_eqb b c = true -> Selector.key_eqb a c = true.
Proof.
  destruct a as [x | x | x], b as [y | y | y], c as [z | z | z]; cbn; try discriminate.
  - apply Zeqb_trans.
  - apply Seqb_trans.
  - unfold Selector.attrs_eqb. rewrite !andb_true_iff.
    intros (((((((((H1 & H2) & H3) & H4) & H5) & H6) & H7) & H8) & H9) & H10)
           (((((((((G1 & G2) & G3) & G4) & G5) & G6) & G7) & G8) & G9) & G10).
    repeat split;
      first [ eapply (opt_eqb_trans Z.eqb); [exact Zeqb_trans | eassumption | eassumption]
            | eapply (opt_eqb_trans String.eqb); [exact Seqb_trans | eassumption | eassumption]
            | eapply (opt_eqb_trans Qeq_bool); [exact Qeqb_trans | eassumption | eassumption] ].
Qed.

(** The keys seen are never forgotten... *)
Lemma totals_step_seen (t : Totals) (r : IdentifyResult) (key : Selector.Key) :
  existsb (Selector.key_eqb key) (seen t) = true ->
  existsb (Selector.key_eqb key) (seen (totals_step t r)) = true.
Proof.
  intros H. unfold totals_step. cbv zeta.
  match goal with |- context [if ?b then _ else _] => destruct b end; [exact H |].
  cbn [seen]. rewrite existsb_app, H. reflexivity.
Qed.

(** ... and the key of a row the loop has gone through is among them. *)
Lemma totals_step_own (t : Totals) (r : IdentifyResult) :
  existsb (Selector.key_eqb (polygonKeyOf (attrsOfResult r))) (seen (totals_step t r)) = true.
Proof.
  unfold totals_step. fold (attrsOfResult r). cbv zeta.
  destruct (existsb _ (seen t)) eqn:E; [exact E |].
  cbn [seen]. rewrite existsb_app. cbn. rewrite key_eqb_refl.
  now rewrite orb_true_r.
Qed.

Lemma totals_fold_seen (rs : list IdentifyResult) (t : Totals) (key : Selector.Key) :
  existsb (Selector.key_eqb key) (seen t) = true ->
  existsb (Selector.key_eqb key) (seen (fold_left totals_step rs t)) = true.
Proof.
  revert t. induction rs as [| r rs IH]; intros t H; cbn; [exact H |].
  apply IH. now apply totals_step_seen.
Qed.

Lemma totals_fold_own (rs : list IdentifyResult) (t : Totals) (r : IdentifyResult) :
  In r rs ->
  existsb (Selector.key_eqb (polygonKeyOf (attrsOfResult r)))
          (seen (fold_left totals_step rs t)) = true.
Proof.
  revert t. induction rs as [| r0 rs IH]; intros t []; cbn.
  - subst r0. apply totals_fold_seen, totals_step_own.
  - now apply IH.
Qed.

Lemma existsb_key_trans (k' k : Selector.Key) (l : list Selector.Key) :
  Selector.key_eqb k' k = true ->
  existsb (Selector.key_eqb k) l = true -> existsb (Selector.key_eqb k') l = true.
Proof.
  intros Hk. rewrite !existsb_exists. intros (x & Hx & Hkx).
  exists x. split; [exact Hx |]. eapply key_eqb_trans; eassumption.
Qed.

Lemma totals_repeats (rs' : list IdentifyResult) (t : Totals) :
  (forall r', In r' rs' ->
     existsb (Selector.key_eqb (polygonKeyOf (attrsOfResult r'))) (seen t) = true) ->
  fold_left totals_step rs' t = t.
Proof.
  induction rs' as [| r rs' IH]; intros H; cbn; [reflexivity |].
  assert (totals_step t r = t) as ->.
  { unfold totals_step. fold (attrsOfResult r). cbv zeta.
    now rewrite (H r (or_introl eq_refl)). }
  apply IH. intros r' Hr'. apply H. now right.
Qed.

(** X8: the polygon lookup counts a roof once: rows that follow, in the
    answer of the service, a row of the same roof change neither the totals
    nor any figure of the record; they only appear in [raw]. *)
Theorem polygon_repeats_ignored (rs rs' : list IdentifyResult) :
  (forall r', In r' rs' -> exists r, In r rs /\ same_roof r' r) ->
  totalsOf (rs ++ rs') = totalsOf rs
  /\ radiation (polygonRecord (rs ++ rs')) = radiation (polygonRecord rs)
  /\ area (polygonRecord (rs ++ rs')) = area (polygonRecord rs)
  /\ power (polygonRecord (rs ++ rs')) = power (polygonRecord rs)
  /\ stretrag (polygonRecord (rs ++ rs')) = stretrag (polygonRecord rs)
  /\ suitability (polygonRecord (rs ++ rs')) = suitability (polygonRecord rs)
  /\ raw (polygonRecord (rs ++ rs')) = RawResults (rs ++ rs').
Proof.
  intros H.
  assert (totalsOf (rs ++ rs') = totalsOf rs) as Ht.
  { unfold totalsOf. rewrite fold_left_app. apply totals_repeats.
    intros r' Hr'. destruct (H r' Hr') as (r & Hr & Hsame).
    eapply existsb_key_trans; [exact Hsame |]. now apply totals_fold_own. }
  split; [exact Ht |].
  unfold polygonRecord. cbn [radiation area power stretrag suitability raw].
  fold (totalsOf (rs ++ rs')). fold (totalsOf rs). rewrite Ht.
  repeat split.
  destruct rs as [| r rs]; [| reflexivity].
  destruct rs' as [| r' rs']; [reflexivity |].
  destruct (H r' (or_introl eq_refl)) as (r & [] & _).
Qed.

Lemma polygon_repeats_ignored_witness :
  totalsOf ([mkResult (Some sampleAttrs) None] ++ [mkResult (Some sampleAttrs) None])
  = totalsOf [mkResult (Some sampleAttrs) None]
  /\ radiation (polygonRecord ([mkResult (Some sampleAttrs) None] ++ [mkResult (Some sampleAttrs) None]))
     = radiation (polygonRecord [mkResult (Some sampleAttrs) None])
  /\ area (polygonRecord ([mkResult (Some sampleAttrs) None] ++ [mkResult (Some sampleAttrs) None]))
     = area (polygonRecord [mkResult (Some sampleAttrs) None])
  /\ power (polygonRecord ([mkResult (Some sampleAttrs) None] ++ [mkResult (Some sampleAttrs) None]))
     = power (polygonRecord [mkResult (Some sampleAttrs) None])
  /\ stretrag (polygonRecord ([mkResult (Some sampleAttrs) None] ++ [mkResult (Some sampleAttrs) None]))
     = stretrag (polygonRecord [mkResult (Some sampleAttrs) None])
  /\ suitability (polygonRecord ([mkResult (Some sampleAttrs) None] ++ [mkResult (Some sampleAttrs) None]))
     = suitability (polygonRecord [mkResult (Some sampleAttrs) None])
  /\ raw (polygonRecord ([mkResult (Some sampleAttrs) None] ++ [mkResult (Some sampleAttrs) None]))
     = RawResults ([mkResult (Some sampleAttrs) None] ++ [mkResult (Some sampleAttrs) None]).
Proof.
  apply (polygon_repeats_ignored [mkResult (Some sampleAttrs) None]
           [mkResult (Some sampleAttrs) None]).
  intros r' [<- | []]. exists (mkResult (Some sampleAttrs) None).
  split; [now left | vm_compute; reflexivity].
Defined.

(** ** The requests of [getSolarDataForPolygon] (lines 311-344) *)

Lemma convert_outcome (net : Network) (la ln : Q) (w : World) :
  fst (convertWGS84toLV95 net la ln w)
  = match converted net la ln with Some c => Returned c | None => Thrown end.
Proof.
  unfold converted, convertWGS84toLV95. run_js.
  destruct (reframe net false la ln) as [| response]; cbn; [reflexivity |].
  destruct (ok response); cbn.
  - destruct (json response); reflexivity.
  - destruct (reframe net true la ln) as [| altResponse]; cbn; [reflexivity |].
    destruct (ok altResponse); cbn; [| reflexivity].
    destruct (json altResponse); reflexivity.
Qed.

(** [convertWGS84toLV95] is its primary request followed by what it does
    with the answer. *)
Lemma convert_resume (net : Network) (la ln : Q) (w : World) :
  convertWGS84toLV95 net la ln w
  = convertResume net la ln (snd (log_request (ReqReframe false la ln) w)).
Proof.
  unfold convertWGS84toLV95, convertResume. run_js.
  destruct (reframe net false la ln) as [| response]; cbn; [reflexivity |].
  destruct (ok response); reflexivity.
Qed.

Lemma convertResume_run (net : Network) (la ln : Q) (w : World) :
  fst (convertResume net la ln w)
  = match converted net la ln with Some c => Returned c | None => Thrown end
  /\ only_requests w (snd (convertResume net la ln w))
  /\ requests (snd (convertResume net la ln w))
     = requests w ++ tail (reframeRequests net la ln).
Proof.
  unfold converted. rewrite (convert_resume net la ln emptyWorld).
  unfold convertResume, reframeRequests, only_requests. run_js.
  destruct (reframe net false la ln) as [| response]; cbn;
    [rewrite app_nil_r; auto 10 |].
  destruct (ok response); cbn.
  - rewrite app_nil_r. destruct (json response); cbn; auto 10.
  - destruct (reframe net true la ln) as [| altResponse]; cbn; [auto 10 |].
    destruct (ok altResponse); cbn; [| auto 10].
    destruct (json altResponse); cbn; auto 10.
Qed.

(** [Promise.all] over the conversions of the vertices: every conversion is
    carried on, also when one of them fails. *)
Lemma promise_all_resume (net : Network) (polygon : list LatLng) (w : World) :
  let run := promise_all (map (fun p => convertResume net (lat p) (lng p)) polygon) w in
  fst run = match convertedAll net polygon with Some l => Returned l | None => Thrown end
  /\ only_requests w (snd run)
  /\ requests (snd run) = requests w ++ fallbackRequests net polygon.
Proof.
  cbv zeta. revert w. induction polygon as [| p rest IH]; intros w.
  - cbn. split; [reflexivity |]. split; [apply only_requests_refl | now rewrite app_nil_r].
  - cbn [map promise_all convertedAll fallbackRequests flat_map].
    destruct (convertResume_run net (lat p) (lng p) w) as (Hout & Hfr & Hreq).
    destruct (convertResume net (lat p) (lng p) w) as [o w1].
    cbn [fst snd] in Hout, Hfr, Hreq.
    destruct (IH w1) as (Hfst & Hfr' & Hreq').
    fold (fallbackRequests net rest).
    destruct (promise_all (map (fun p => convertResume net (lat p) (lng p)) rest) w1)
      as [o' w2].
    cbn [fst snd] in Hfst, Hfr', Hreq'.
    assert (only_requests w w2) as Hw by (eapply only_requests_trans; eassumption).
    assert (requests w2
            = requests w ++ tail (reframeRequests net (lat p) (lng p))
              ++ fallbackRequests net rest)
      as Hr by (rewrite Hreq', Hreq, <- app_assoc; reflexivity).
    destruct (converted net (lat p) (lng p)) as [c |]; subst o.
    + destruct (convertedAll net rest) as [l |]; subst o'; cbn [fst snd]; auto.
    + cbn [fst snd]. auto.
Qed.

(** X9: the requests of a polygon lookup.  The primary request of every
    vertex is sent first, in the order of the vertices.  The requests to the
    alternative host follow, one for each vertex whose primary request is
    answered with a failure status, in some order, also when the conversion
    of another vertex has failed.  When a conversion fails the call throws
    and no identify request is sent; otherwise one identify request comes
    last, for the ring of the converted vertices in the order of the
    polygon.  The call writes to no cache and reports no progress. *)
Theorem polygon_lookup_requests (net : Network) (polygon : list LatLng) (w : World) :
  (3 <= length polygon)%nat ->
  only_requests w (snd (getSolarDataForPolygon net (Some polygon) w))
  /\ exists fallbacks,
       Permutation fallbacks (fallbackRequests net polygon)
       /\ match convertedAll net polygon with
          | Some lv95Points =>
              requests (snd (getSolarDataForPolygon net (Some polygon) w))
              = requests w ++ primaryRequests polygon ++ fallbacks
                ++ [ReqIdentifyPolygon (map (fun pt => (easting pt, northing pt)) lv95Points)]
          | None =>
              fst (getSolarDataForPolygon net (Some polygon) w) = Thrown
              /\ requests (snd (getSolarDataForPolygon net (Some polygon) w))
                 = requests w ++ primaryRequests polygon ++ fallbacks
          end.
Proof.
  intros Hlen.
  remember (getSolarDataForPolygon net (Some polygon) w) as run eqn:E.
  unfold getSolarDataForPolygon in E.
  assert ((length polygon <? 3)%nat = false) as Hlt by (apply Nat.ltb_ge; lia).
  rewrite Hlt in E. cbv [bind startConversions modify] in E.
  set (w0 := mkWorld (memCache w) (globalCache w) (localStorage w)
                     (requests w ++ map (fun p => ReqReframe false (lat p) (lng p)) polygon)
                     (progress w)) in E.
  assert (only_requests w w0) as Hfr0 by (repeat split).
  assert (requests w0 = requests w ++ primaryRequests polygon) as Hreq0 by reflexivity.
  destruct (promise_all_resume net polygon w0) as (Hfst & Hfr & Hreq).
  destruct (promise_all (map (fun p => convertResume net (lat p) (lng p)) polygon) w0)
    as [o w1].
  cbn [fst snd] in Hfst, Hfr, Hreq.
  assert (only_requests w w1) as Hfr1 by exact (only_requests_trans _ _ _ Hfr0 Hfr).
  assert (requests w1 = requests w ++ primaryRequests polygon ++ fallbackRequests net polygon)
    as Hreq1 by (rewrite Hreq, Hreq0, <- app_assoc; reflexivity).
  clearbody w0.
  destruct (convertedAll net polygon) as [lv95Points |]; subst o.
  2: { subst run. cbn [fst snd]. split; [exact Hfr1 |].
       exists (fallbackRequests net polygon).
       split; [reflexivity |]. split; [reflexivity | exact Hreq1]. }
  set (ring := map (fun pt => (easting pt, northing pt)) lv95Points) in *.
  assert (let w' := mkWorld (memCache w1) (globalCache w1) (localStorage w1)
                        (requests w1 ++ [ReqIdentifyPolygon ring]) (progress w1) in
          only_requests w w'
          /\ exists fallbacks,
               Permutation fallbacks (fallbackRequests net polygon)
               /\ requests w'
                  = requests w ++ primaryRequests polygon ++ fallbacks
                    ++ [ReqIdentifyPolygon ring]) as Hend.
  { cbv zeta. split.
    - eapply only_requests_trans; [exact Hfr1 | repeat split].
    - exists (fallbackRequests net polygon). split; [reflexivity |].
      cbn [requests]. rewrite Hreq1, <- !app_assoc. reflexivity. }
  cbv zeta in Hend. revert E. run_js.
  destruct (identifyPolygon net ring) as [| response]; cbn; [intros ->; exact Hend |].
  destruct (ok response); cbn; [| intros ->; exact Hend].
  destruct (json response) as [data |]; cbn; [| intros ->; exact Hend].
  destruct (results data) as [[| r rs] |]; cbn; intros ->; exact Hend.
Qed.

Lemma polygon_lookup_requests_witness :
  only_requests emptyWorld
    (snd (getSolarDataForPolygon (fallbackNetwork sampleAttrs) (Some lausanneSquare)
            emptyWorld))
  /\ exists fallbacks,
       Permutation fallbacks (fallbackRequests (fallbackNetwork sampleAttrs) lausanneSquare)
       /\ match convertedAll (fallbackNetwork sampleAttrs) lausanneSquare with
          | Some lv95Points =>
              requests (snd (getSolarDataForPolygon (fallbackNetwork sampleAttrs)
                               (Some lausanneSquare) emptyWorld))
              = requests emptyWorld ++ primaryRequests lausanneSquare ++ fallbacks
                ++ [ReqIdentifyPolygon (map (fun pt => (easting pt, northing pt)) lv95Points)]
          | None =>
              fst (getSolarDataForPolygon (fallbackNetwork sampleAttrs)
                     (Some lausanneSquare) emptyWorld) = Thrown
              /\ requests (snd (getSolarDataForPolygon (fallbackNetwork sampleAttrs)
                                  (Some lausanneSquare) emptyWorld))
                 = requests emptyWorld ++ primaryRequests lausanneSquare ++ fallbacks
          end.
Proof.
  apply (polygon_lookup_requests (fallbackNetwork sampleAttrs) lausanneSquare emptyWorld).
  cbn. lia.
Defined.

(** On the test square, with a primary host that fails by status and
    answers that arrive in the order of the requests: the four primary
    requests, then the four requests to the alternative host, then the
    identify request. *)
Example polygon_lookup_request_order :
  requests (snd (getSolarDataForPolygon (fallbackNetwork sampleAttrs) (Some lausanneSquare)
                   emptyWorld))
  = [ ReqReframe false 46.5205 6.631; ReqReframe false 46.5205 6.633;
      ReqReframe false 46.519 6.633; ReqReframe false 46.519 6.631;
      ReqReframe true 46.5205 6.631; ReqReframe true 46.5205 6.633;
      ReqReframe true 46.519 6.633; ReqReframe true 46.519 6.631;
      ReqIdentifyPolygon [(6.631, 46.5205); (6.633, 46.5205); (6.633, 46.519); (6.631, 46.519)] ].
Proof. reflexivity. Qed.

(** ** [getSolarDataForPolygonWithSampling] without a base record *)

(** X10: when the polygon lookup throws, the combined lookup throws too and
    sampling is not attempted: the state is the one the polygon lookup has
    left.  When the polygon lookup returns [null], a positive sample gives a
    record of its own, with area 0, power 0, suitability "unknown" and no
    production; without a positive sample, or when sampling throws, the
    result is [null]. *)
Theorem sampling_without_base (net : Network) (polygonWgs84 : option (list LatLng))
    (progressCb : option (nat -> nat -> bool)) (sched : list nat) (w : World) :
  match getSolarDataForPolygon net polygonWgs84 w with
  | (Thrown, w1) =>
      getSolarDataForPolygonWithSampling net polygonWgs84 progressCb sched w = (Thrown, w1)
  | (Returned None, w1) =>
      match samplePolygonRadiation net polygonWgs84 3 progressCb 4 sched w1 with
      | (Returned (Some v), w2) =>
          getSolarDataForPolygonWithSampling net polygonWgs84 progressCb sched w
          = (Returned (if (0 <? v)%Z
                       then Some (mkRoof v 0 0 "unknown" None RawNone)
                       else None), w2)
      | (Returned None, w2) | (Thrown, w2) =>
          getSolarDataForPolygonWithSampling net polygonWgs84 progressCb sched w
          = (Returned None, w2)
      end
  | (Returned (Some base), w1) =>
      exists r w2,
        getSolarDataForPolygonWithSampling net polygonWgs84 progressCb sched w
        = (Returned (Some r), w2)
        /\ area r = area base /\ power r = power base
        /\ suitability r = suitability base /\ stretrag r = stretrag base
        /\ raw r = raw base
  end.
Proof.
  unfold getSolarDataForPolygonWithSampling, bind, try_catch.
  destruct (getSolarDataForPolygon net polygonWgs84 w) as [[[base |] |] w1];
    [| | reflexivity].
  - destruct (samplePolygonRadiation net polygonWgs84 3 progressCb 4 sched w1)
      as [[[v |] |] w2]; cbn.
    + destruct (negb (v =? 0)%Z && (0 <? v)%Z); cbn; eexists _, _;
        (split; [reflexivity |]); repeat split.
    + eexists _, _. split; [reflexivity |]. repeat split.
    + eexists _, _. split; [reflexivity |]. repeat split.
  - destruct (samplePolygonRadiation net polygonWgs84 3 progressCb 4 sched w1)
      as [[[v |] |] w2]; cbn; try reflexivity.
    destruct (0 <? v)%Z eqn:Epos.
    + assert ((v =? 0)%Z = false) as -> by (apply Z.ltb_lt in Epos; apply Z.eqb_neq; lia).
      reflexivity.
    + rewrite andb_false_r. reflexivity.
Qed.

(** ** What a run of the workers does to the state (lines 565-604) *)

Lemma advanced_refl (progressCb : option (nat -> nat -> bool)) (total : nat)
    (p : Pool) (w : World) :
  advanced progressCb total p p w w.
Proof.
  split; [repeat split |]. exists 0%nat.
  repeat split; try lia.
  unfold reports. destruct progressCb; cbn; now rewrite app_nil_r.
Qed.

Lemma reports_app (progressCb : option (nat -> nat -> bool)) (total d k1 k2 : nat) :
  reports progressCb total d (k1 + k2)
  = reports progressCb total d k1 ++ reports progressCb total (d + k1) k2.
Proof.
  unfold reports. destruct progressCb; [| reflexivity].
  rewrite seq_app, map_app. reflexivity.
Qed.

Lemma advanced_trans (progressCb : option (nat -> nat -> bool)) (total : nat)
    (p1 p2 p3 : Pool) (w1 w2 w3 : World) :
  advanced progressCb total p1 p2 w1 w2 -> advanced progressCb total p2 p3 w2 w3 ->
  advanced progressCb total p1 p3 w1 w3.
Proof.
  intros ((Hm1 & Hg1 & Hl1) & k1 & Hd1 & Hr1 & Hp1 & Hq1 & Hq1' & Hs1)
         ((Hm2 & Hg2 & Hl2) & k2 & Hd2 & Hr2 & Hp2 & Hq2 & Hq2' & Hs2).
  split; [repeat split; congruence |].
  exists (k1 + k2)%nat. repeat split; try lia.
  rewrite Hp2, Hp1, Hd1, reports_app, <- app_assoc. reflexivity.
Qed.

(** A worker that resumes finishes one point. *)
Lemma resume_advanced (net : Network) (progressCb : option (nat -> nat -> bool))
    (total i : nat) (p : Pool) (w : World) :
  exists p' w',
    resume net progressCb total i p w = (Returned p', w')
    /\ advanced progressCb total p p' w w'.
Proof.
  destruct (workers p !! i) as [[pt rest | |] |] eqn:Ei.
  2-4: exists p, w; split; [apply resume_idle; congruence | apply advanced_refl].
  unfold resume. rewrite Ei. unfold bind, finishPoint, bind.
  destruct (lookupPoint_run net pt w) as (pushed & w1 & -> & (Hm & Hg & Hl & Hp) & Hq).
  cbv zeta.
  set (samples' := match pushed with
                   | Some r => samples (session p) ++ [r]
                   | None => samples (session p)
                   end).
  set (st := (4 <=? length samples')%nat && stable samples').
  assert (forall wk, (remaining1 wk <= length rest)%nat ->
            (1 + remaining (<[i := wk]> (workers p)) <= remaining (workers p))%nat) as Hrem.
  { intros wk Hwk. pose proof (remaining_insert (workers p) i _ wk Ei) as H.
    cbn [remaining1] in H. lia. }
  assert (forall w2 ss' wk,
            w2 = match progressCb with
                 | Some _ => mkWorld (memCache w1) (globalCache w1) (localStorage w1)
                               (requests w1) (progress w1 ++ [(S (done (session p)), total)])
                 | None => w1
                 end ->
            done ss' = S (done (session p)) ->
            samples ss' = samples' ->
            (remaining1 wk <= length rest)%nat ->
            advanced progressCb total p (mkPool ss' (<[i := wk]> (workers p))) w w2) as Hadv.
  { intros w2 ss' wk -> Hd Hs Hwk. split.
    - destruct progressCb; repeat split; assumption.
    - exists 1%nat. cbn [session workers]. split; [lia |]. split; [now apply Hrem |].
      split.
      + unfold reports. destruct progressCb; cbn [progress map seq]; [now rewrite Hp |].
        now rewrite app_nil_r.
      + split; [destruct progressCb; cbn [requests]; lia |].
        split; [destruct progressCb; cbn [requests]; lia |].
        rewrite Hs. subst samples'. destruct pushed; [rewrite length_app; cbn |]; lia. }
  destruct progressCb as [cb |]; run_js.
  - destruct (cb (S (done (session p))) total); cbn.
    + destruct st; cbn;
        eexists _, _; (split; [reflexivity |]); apply Hadv; try reflexivity;
        [cbn; lia | apply next_point_remaining].
    + eexists _, _. split; [reflexivity |]. apply Hadv; try reflexivity. cbn; lia.
  - destruct st; cbn;
      eexists _, _; (split; [reflexivity |]); apply Hadv; try reflexivity;
      [cbn; lia | apply next_point_remaining].
Qed.

Lemma runSchedule_advanced (net : Network) (progressCb : option (nat -> nat -> bool))
    (total : nat) (sched : list nat) (p : Pool) (w : World) :
  exists p' w',
    runSchedule net progressCb total sched p w = (Returned p', w')
    /\ advanced progressCb total p p' w w'.
Proof.
  revert p w. induction sched as [| i sched IH]; intros p w.
  - exists p, w. split; [reflexivity | apply advanced_refl].
  - destruct (resume_advanced net progressCb total i p w) as (p1 & w1 & Hr & Ha).
    destruct (IH p1 w1) as (p2 & w2 & Hrun & Ha2).
    exists p2, w2. cbn. unfold bind. rewrite Hr. split; [exact Hrun |].
    eapply advanced_trans; eassumption.
Qed.

Lemma drain_advanced (net : Network) (progressCb : option (nat -> nat -> bool))
    (total fuel : nat) (p : Pool) (w : World) :
  exists p' w',
    drain net progressCb total fuel p w = (Returned p', w')
    /\ advanced progressCb total p p' w w'.
Proof.
  revert p w. induction fuel as [| fuel IH]; intros p w; cbn.
  - exists p, w. split; [reflexivity | apply advanced_refl].
  - destruct (firstInFlight (workers p)) as [i |];
      [| exists p, w; split; [reflexivity | apply advanced_refl]].
    destruct (resume_advanced net progressCb total i p w) as (p1 & w1 & Hr & Ha).
    destruct (IH p1 w1) as (p2 & w2 & Hrun & Ha2).
    exists p2, w2. unfold bind. rewrite Hr. split; [exact Hrun |].
    eapply advanced_trans; eassumption.
Qed.

Lemma groupsOf_remaining (concurrency : nat) (pts : list LatLng) :
  (0 < concurrency)%nat ->
  remaining (map (next_point false) (groupsOf concurrency pts)) = length pts.
Proof.
  intros Hc. rewrite remaining_start. unfold groupsOf.
  rewrite distribute_length; [| exact Hc | apply length_replicate].
  assert (concat (replicate concurrency ([] : list LatLng)) = []) as ->; [| reflexivity].
  clear. induction concurrency; cbn; auto.
Qed.

(** The whole run: at most [total] points are finished. *)
Lemma runWorkers_run (net : Network) (progressCb : option (nat -> nat -> bool))
    (concurrency : nat) (pts : list LatLng) (sched : list nat) (w : World) :
  (0 < concurrency)%nat ->
  exists o w' k,
    runWorkers net progressCb (groupsOf concurrency pts) (length pts) sched w = (o, w')
    /\ same_caches w w'
    /\ (k <= length pts)%nat
    /\ progress w' = progress w ++ reports progressCb (length pts) 0 k
    /\ (length (requests w) + k <= length (requests w'))%nat
    /\ (length (requests w') <= length (requests w) + 3 * k)%nat
    /\ (forall l, o = Returned l -> (length l <= k)%nat).
Proof.
  intros Hc. unfold runWorkers, settle, bind.
  set (start := mkPool _ _).
  destruct (runSchedule_advanced net progressCb (length pts) sched start w)
    as (p1 & w1 & -> & Ha1).
  destruct (drain_advanced net progressCb (length pts) (length pts) p1 w1)
    as (p2 & w2 & -> & Ha2).
  destruct (advanced_trans _ _ _ _ _ _ _ _ Ha1 Ha2)
    as (Hsame & k & Hd & Hr & Hp & Hq & Hq' & Hs).
  assert (remaining (workers start) = length pts) as Hstart
      by (subst start; cbn [workers]; now apply groupsOf_remaining).
  subst start. cbn [session done samples length] in Hd, Hp, Hs.
  destruct (existsb is_failed (workers p2)); eexists _, w2, k;
    (split; [reflexivity |]); (split; [exact Hsame |]); (split; [lia |]);
    (split; [exact Hp |]); (split; [exact Hq |]); (split; [exact Hq' |]).
  - intros l [=].
  - intros l [= <-]. lia.
Qed.

(** ** What a sampling does to the state (lines 473-623) *)

Lemma centroidFallback_run (net : Network) (polygon : list LatLng) (key : PolyKey)
    (w : World) :
  exists o w' w1,
    centroidFallback net polygon key w = (Returned o, w')
    /\ only_requests w w1
    /\ (length (requests w) < length (requests w1) <= length (requests w) + 3)%nat
    /\ match o with
       | Some v => w' = snd (storeResult key v w1)
       | None => w' = w1
       end.
Proof.
  set (c := centroid polygon).
  destruct (convert_run net (lat c) (lng c) w) as [Hf1 Hr1].
  assert (1 <= length (reframeRequests net (lat c) (lng c)) <= 2)%nat as Hlen.
  { unfold reframeRequests. destruct (reframe net false (lat c) (lng c)) as [| r];
      cbn; [lia |]. destruct (ok r); cbn; lia. }
  unfold centroidFallback, try_catch, bind. fold c.
  destruct (convertWGS84toLV95 net (lat c) (lng c) w) as [[lv95 |] w1] eqn:Ec;
    cbn in Hf1, Hr1.
  - destruct (getSolarData_run net (easting lv95) (northing lv95) w1) as [Hf2 Hr2].
    assert (only_requests w (snd (getSolarData net (easting lv95) (northing lv95) w1)))
      as Hf by (eapply only_requests_trans; eauto).
    assert (length (requests w)
            < length (requests (snd (getSolarData net (easting lv95) (northing lv95) w1)))
            <= length (requests w) + 3)%nat as Hq
        by (rewrite Hr2, Hr1, !length_app; cbn [length]; lia).
    destruct (getSolarData net (easting lv95) (northing lv95) w1) as [[[r |] |] w2];
      cbn [snd] in Hf, Hq.
    + destruct (0 <? radiation r)%Z; cbn.
      * eexists _, _, w2. split; [reflexivity |].
        split; [exact Hf |]. split; [exact Hq | reflexivity].
      * exists None, w2, w2. split; [reflexivity |].
        split; [exact Hf |]. split; [exact Hq | reflexivity].
    + exists None, w2, w2. split; [reflexivity |].
      split; [exact Hf |]. split; [exact Hq | reflexivity].
    + exists None, w2, w2. split; [reflexivity |].
      split; [exact Hf |]. split; [exact Hq | reflexivity].
  - exists None, w1, w1. split; [reflexivity |]. split; [exact Hf1 |].
    split; [rewrite Hr1, length_app; lia | reflexivity].
Qed.

Lemma sampleUncached_run (net : Network) (polygon : list LatLng) (key : PolyKey)
    (gridSize : nat) (progressCb : option (nat -> nat -> bool)) (concurrency : nat)
    (sched : list nat) (w : World) :
  exists o w' w1 k,
    sampleUncached net polygon key gridSize progressCb concurrency sched w = (o, w')
    /\ same_caches w w1
    /\ (k <= totalOf polygon gridSize)%nat
    /\ progress w' = progress w ++ reports progressCb (totalOf polygon gridSize) 0 k
    /\ (length (requests w) <= length (requests w'))%nat
    /\ (length (requests w')
        <= length (requests w) + 3 * Nat.max 1 (totalOf polygon gridSize))%nat
    /\ match o with
       | Returned (Some v) => w' = snd (storeResult key v w1)
       | _ => w' = w1
       end.
Proof.
  unfold sampleUncached, totalOf.
  set (pts := candidatePts polygon gridSize).
  assert (forall (w0 : World) (l : list (nat * nat)), progress w0 = progress w ->
            l = [] -> progress w0 = progress w ++ l) as Hnil
      by (intros w0 l -> ->; now rewrite app_nil_r).
  assert (forall cb total, reports cb total 0 0 = []) as Hr0
      by (intros [cb |] total; reflexivity).
  destruct (length pts =? 0)%nat eqn:Et.
  - destruct (centroidFallback_run net polygon key w)
      as (o & w' & w1 & -> & (Hm & Hg & Hl & Hp) & Hq & Ho).
    exists (Returned o), w', w1, 0%nat.
    split; [reflexivity |]. split; [repeat split; assumption |]. split; [lia |].
    destruct o as [v |]; subst w'; cbn [storeResult modify snd progress requests];
      (split; [apply Hnil; auto |]); (split; [lia |]); (split; [lia | reflexivity]).
  - apply Nat.eqb_neq in Et.
    destruct (concurrency =? 0)%nat eqn:Ec.
    + exists Thrown, w, w, 0%nat. split; [reflexivity |]. split; [repeat split |].
      split; [lia |]. split; [apply Hnil; auto |]. split; [lia |]. split; [lia | reflexivity].
    + apply Nat.eqb_neq in Ec.
      destruct (runWorkers_run net progressCb concurrency pts sched w)
        as (o & w1 & k & Hrun & Hsame & Hk & Hp & Hq & Hq' & Hlen); [lia |].
      unfold bind. rewrite Hrun.
      destruct o as [l |].
      * destruct (length l =? 0)%nat; cbn.
        -- exists (Returned None), w1, w1, k. repeat split; try apply Hsame; try lia.
           exact Hp.
        -- eexists _, _, w1, k. split; [reflexivity |].
           split; [exact Hsame |]. split; [lia |]. cbn [progress requests].
           split; [exact Hp |]. split; [lia |]. split; [lia | reflexivity].
      * exists Thrown, w1, w1, k. repeat split; try apply Hsame; try lia. exact Hp.
Qed.

Lemma reports_0 (progressCb : option (nat -> nat -> bool)) (total : nat) :
  reports progressCb total 0 0 = [].
Proof. destruct progressCb; reflexivity. Qed.

Lemma storeResult_positive (key : PolyKey) (v : Z) (w w1 : World) :
  same_caches w w1 -> (0 < v)%Z -> positive_caches w ->
  positive_caches (snd (storeResult key v w1)).
Proof.
  intros (Hm & Hg & Hl) Hv (Pm & Pg & Pl). rewrite storeResult_run. cbn [snd].
  assert (forall (m : gmap PolyKey Z) k x,
            (forall k' x', m !! k' = Some x' -> (0 < x')%Z) ->
            <[key := v]> m !! k = Some x -> (0 < x)%Z) as Hins.
  { intros m k x Hpos. destruct (decide (key = k)) as [-> | Hne].
    - rewrite lookup_insert_eq. now intros [= <-].
    - rewrite lookup_insert_ne by exact Hne. apply Hpos. }
  unfold positive_caches. cbn [memCache globalCache localStorage].
  rewrite Hm, Hg, Hl. split; [| split].
  - intros k x. apply Hins, Pm.
  - intros g k x [= <-]. apply Hins.
    destruct (globalCache w) as [g |] eqn:Eg; [intros k' x'; now apply (Pg g) |].
    intros k' x'. rewrite lookup_empty. discriminate.
  - intros m k x. destruct (localStorage w) as [stored |]; cbn; [| discriminate].
    intros [= <-]. apply Hins, Pm.
Qed.

Lemma same_caches_positive (w w' : World) :
  same_caches w w' -> positive_caches w -> positive_caches w'.
Proof.
  intros (Hm & Hg & Hl). unfold positive_caches. rewrite Hm, Hg, Hl. auto.
Qed.

(** Everything a sampling does to the state, whichever way it takes. *)
Lemma sample_run (net : Network) (polygon : list LatLng) (gridSize : nat)
    (progressCb : option (nat -> nat -> bool)) (concurrency : nat) (sched : list nat)
    (w : World) :
  exists o w' k,
    samplePolygonRadiation net (Some polygon) gridSize progressCb concurrency sched w
      = (o, w')
    /\ (k <= totalOf polygon gridSize)%nat
    /\ progress w' = progress w ++ reports progressCb (totalOf polygon gridSize) 0 k
    /\ (length (requests w) <= length (requests w'))%nat
    /\ (length (requests w')
        <= length (requests w) + 3 * Nat.max 1 (totalOf polygon gridSize))%nat
    /\ match o with
       | Returned (Some v) => memCache w' !! cacheKey polygon = Some v
       | _ => same_caches w w'
       end
    /\ (positive_caches w ->
        positive_caches w' /\ forall v, o = Returned (Some v) -> (0 < v)%Z).
Proof.
  assert (forall o : Outcome (option Z),
            match o with
            | Returned (Some v) => memCache w !! cacheKey polygon = Some v
            | _ => True
            end ->
            (forall v, o = Returned (Some v) -> positive_caches w -> (0 < v)%Z) ->
            exists o' w' k,
              (o, w) = (o', w')
              /\ (k <= totalOf polygon gridSize)%nat
              /\ progress w' = progress w ++ reports progressCb (totalOf polygon gridSize) 0 k
              /\ (length (requests w) <= length (requests w'))%nat
              /\ (length (requests w')
                  <= length (requests w) + 3 * Nat.max 1 (totalOf polygon gridSize))%nat
              /\ match o' with
                 | Returned (Some v) => memCache w' !! cacheKey polygon = Some v
                 | _ => same_caches w w'
                 end
              /\ (positive_caches w ->
                  positive_caches w' /\ forall v, o' = Returned (Some v) -> (0 < v)%Z))
    as Hstay.
  { intros o Ho Hv. exists o, w, 0%nat. split; [reflexivity |]. split; [lia |].
    split; [now rewrite reports_0, app_nil_r |]. split; [lia |]. split; [lia |]. split.
    - destruct o as [[v |] |]; [exact Ho | repeat split | repeat split].
    - intros Hpos. split; [exact Hpos |]. intros v ->. now apply Hv. }
  assert (exists o w' k,
            sampleUncached net polygon (cacheKey polygon) gridSize progressCb concurrency
              sched w = (o, w')
            /\ (k <= totalOf polygon gridSize)%nat
            /\ progress w' = progress w ++ reports progressCb (totalOf polygon gridSize) 0 k
            /\ (length (requests w) <= length (requests w'))%nat
            /\ (length (requests w')
                <= length (requests w) + 3 * Nat.max 1 (totalOf polygon gridSize))%nat
            /\ match o with
               | Returned (Some v) => memCache w' !! cacheKey polygon = Some v
               | _ => same_caches w w'
               end
            /\ (positive_caches w ->
                positive_caches w' /\ forall v, o = Returned (Some v) -> (0 < v)%Z))
    as Hunc.
  { destruct (sampleUncached_run net polygon (cacheKey polygon) gridSize progressCb
                concurrency sched w)
      as (o & w' & w1 & k & Hrun & Hsame & Hk & Hp & Hq & Hq' & Ho).
    exists o, w', k. split; [exact Hrun |]. split; [exact Hk |]. split; [exact Hp |].
    split; [exact Hq |]. split; [exact Hq' |].
    destruct o as [[v |] |]; subst w'.
    - destruct (sampleUncached_Some _ _ _ _ _ _ _ _ _ _ Hrun) as (Hv & Hmem & _).
      split; [exact Hmem |]. intros Hpos.
      split; [now apply (storeResult_positive _ _ w) | now intros v' [= <-]].
    - split; [exact Hsame |]. intros Hpos.
      split; [now apply (same_caches_positive w) | discriminate].
    - split; [exact Hsame |]. intros Hpos.
      split; [now apply (same_caches_positive w) | discriminate]. }
  unfold samplePolygonRadiation.
  destruct (length polygon <? 3)%nat; [apply (Hstay (Returned None)); [exact I | discriminate] |].
  run_js.
  destruct (memCache w !! cacheKey polygon) as [v |] eqn:Em.
  - destruct (Z.eqb_spec v 0) as [-> | Hv]; cbn.
    + apply (Hstay (Returned None)); [exact I | discriminate].
    + apply (Hstay (Returned (Some v))); [reflexivity |].
      intros v' [= <-] (Pm & _). eapply Pm; exact Em.
  - clear Hstay. destruct (globalCache w) as [g |] eqn:Eg; cbn.
    + destruct (g !! cacheKey polygon) as [val |] eqn:Eval; cbn.
      * eexists _, _, 0%nat. split; [reflexivity |]. cbn [progress requests memCache].
        split; [lia |]. split; [now rewrite reports_0, app_nil_r |].
        split; [lia |]. split; [lia |]. split; [apply lookup_insert_eq |].
        intros (Pm & Pg & Pl).
        assert (0 < val)%Z as Hval by (eapply Pg; eauto).
        split; [| now intros v [= <-]].
        unfold positive_caches. cbn [memCache globalCache localStorage].
        split; [| split; [| exact Pl]].
        2: { intros g' k v Hg' Hk. assert (g' = g) as -> by congruence.
             now apply (Pg g k). }
        intros k v. destruct (decide (cacheKey polygon = k)) as [<- | Hne].
        -- rewrite lookup_insert_eq. now intros [= <-].
        -- rewrite lookup_insert_ne by exact Hne. apply Pm.
      * exact Hunc.
    + exact Hunc.
Qed.

Lemma flat_map_length_le {A B} (f : A -> list B) (l : list A) (n : nat) :
  (forall a, (length (f a) <= n)%nat) -> (length (flat_map f l) <= length l * n)%nat.
Proof.
  intros H. induction l as [| a l IH]; cbn [flat_map length]; [lia |].
  rewrite length_app. specialize (H a). lia.
Qed.

Lemma adaptiveGrid_bounds (polygon : list LatLng) (gridSize : nat) :
  (gridSize <= adaptiveGrid polygon gridSize <= Nat.max gridSize 8)%nat.
Proof.
  unfold adaptiveGrid, JS.Math_max. cbv zeta.
  repeat match goal with |- context [if ?b then _ else _] => destruct b end; lia.
Qed.

Lemma totalOf_bound (polygon : list LatLng) (gridSize : nat) :
  (totalOf polygon gridSize
   <= adaptiveGrid polygon gridSize * adaptiveGrid polygon gridSize)%nat.
Proof.
  unfold totalOf, candidatePts. cbv zeta.
  set (grid := adaptiveGrid polygon gridSize).
  match goal with |- (length (flat_map ?f _) <= _)%nat =>
    pose proof (flat_map_length_le f (seq 1 grid) grid) as H
  end.
  rewrite length_seq in H. apply H. intros i.
  match goal with |- (length (flat_map ?f _) <= _)%nat =>
    pose proof (flat_map_length_le f (seq 1 grid) 1) as H1
  end.
  rewrite length_seq, Nat.mul_1_r in H1. apply H1. intros j.
  match goal with |- context [if ?b then _ else _] => destruct b end; cbn; lia.
Qed.

(** X11: the progress callback is called with the running count and the
    number of grid points: the calls of one sampling are [(1, total)],
    [(2, total)], ..., [(k, total)] for some [k] that does not exceed
    [total], whatever the order in which the lookups complete, and also when
    the callback throws; a sampling answered from a cache, or by the centroid
    fallback, makes no call. *)
Theorem sample_progress_reports (net : Network) (polygon : list LatLng) (gridSize : nat)
    (progressCb : option (nat -> nat -> bool)) (concurrency : nat) (sched : list nat)
    (w : World) :
  exists k,
    (k <= totalOf polygon gridSize)%nat
    /\ progress (snd (samplePolygonRadiation net (Some polygon) gridSize progressCb
                        concurrency sched w))
       = progress w ++ match progressCb with
                       | Some _ => map (fun d => (d, totalOf polygon gridSize)) (seq 1 k)
                       | None => []
                       end.
Proof.
  destruct (sample_run net polygon gridSize progressCb concurrency sched w)
    as (o & w' & k & -> & Hk & Hp & _).
  exists k. split; [exact Hk | exact Hp].
Qed.

(** X12: a sampling issues at most three requests per grid point (three for
    the centroid fallback), and the grid has at most
    [max(gridSize, 8)] points a side: with the default grid size no sampling
    issues more than 192 requests. *)
Theorem sample_request_bound (net : Network) (polygon : list LatLng) (gridSize : nat)
    (progressCb : option (nat -> nat -> bool)) (concurrency : nat) (sched : list nat)
    (w : World) :
  (length (requests w)
   <= length (requests (snd (samplePolygonRadiation net (Some polygon) gridSize progressCb
                               concurrency sched w))))%nat
  /\ (length (requests (snd (samplePolygonRadiation net (Some polygon) gridSize progressCb
                               concurrency sched w)))
      <= length (requests w) + 3 * Nat.max 1 (totalOf polygon gridSize))%nat
  /\ (totalOf polygon gridSize
      <= adaptiveGrid polygon gridSize * adaptiveGrid polygon gridSize)%nat
  /\ (gridSize <= adaptiveGrid polygon gridSize <= Nat.max gridSize 8)%nat
  /\ (gridSize <= 8 ->
      length (requests (snd (samplePolygonRadiation net (Some polygon) gridSize progressCb
                               concurrency sched w)))
      <= length (requests w) + 192)%nat.
Proof.
  destruct (sample_run net polygon gridSize progressCb concurrency sched w)
    as (o & w' & k & -> & _ & _ & Hq & Hq' & _).
  pose proof (totalOf_bound polygon gridSize) as Ht.
  pose proof (adaptiveGrid_bounds polygon gridSize) as Hg.
  cbn [snd]. split; [exact Hq |]. split; [exact Hq' |]. split; [exact Ht |].
  split; [exact Hg |]. intros H8. nia.
Qed.

(** X13: only a sampling that returns a value changes the caches: when
    [samplePolygonRadiation] returns [null] or throws, the in-memory map, the
    global map and local storage are as before; when it returns a value, the
    in-memory map holds that value under the key of the polygon. *)
Theorem sample_failure_keeps_caches (net : Network) (polygon : list LatLng)
    (gridSize : nat) (progressCb : option (nat -> nat -> bool)) (concurrency : nat)
    (sched : list nat) (w : World) :
  match samplePolygonRadiation net (Some polygon) gridSize progressCb concurrency sched w
  with
  | (Returned (Some v), w') => memCache w' !! cacheKey polygon = Some v
  | (Returned None, w') | (Thrown, w') =>
      memCache w' = memCache w
      /\ globalCache w' = globalCache w
      /\ localStorage w' = localStorage w
  end.
Proof.
  destruct (sample_run net polygon gridSize progressCb concurrency sched w)
    as (o & w' & k & -> & _ & _ & _ & _ & Ho & _).
  destruct o as [[v |] |]; exact Ho.
Qed.

(** X14: the caches keep their values positive: when every value in the
    in-memory map, the global map and local storage is positive, so is every
    value after a sampling, and so is the value it returns. *)
Theorem sample_keeps_caches_positive (net : Network) (polygon : list LatLng)
    (gridSize : nat) (progressCb : option (nat -> nat -> bool)) (concurrency : nat)
    (sched : list nat) (w : World) :
  positive_caches w ->
  positive_caches (snd (samplePolygonRadiation net (Some polygon) gridSize progressCb
                          concurrency sched w))
  /\ forall v,
       fst (samplePolygonRadiation net (Some polygon) gridSize progressCb
              concurrency sched w) = Returned (Some v) ->
       (0 < v)%Z.
Proof.
  destruct (sample_run net polygon gridSize progressCb concurrency sched w)
    as (o & w' & k & -> & _ & _ & _ & _ & _ & Hpos).
  exact Hpos.
Qed.

Lemma sample_keeps_caches_positive_witness :
  positive_caches (snd (samplePolygonRadiation (roofNetwork sampleAttrs)
                          (Some lausanneSquare) 3 None 4 [] emptyWorld))
  /\ forall v,
       fst (samplePolygonRadiation (roofNetwork sampleAttrs)
              (Some lausanneSquare) 3 None 4 [] emptyWorld) = Returned (Some v) ->
       (0 < v)%Z.
Proof.
  apply (sample_keeps_caches_positive (roofNetwork sampleAttrs) lausanneSquare 3 None 4 []
           emptyWorld).
  unfold positive_caches, emptyWorld. cbn.
  split; [| split]; intros; discriminate.
Defined.

(** ** The grid of a polygon in Switzerland *)

(** X15: for a polygon whose vertices lie in Switzerland (latitude 45.8 to
    47.9, longitude 5.9 to 10.5) the point test of the sampler answers
    [false] for every point of the country, so no grid point is kept: an
    uncached sampling is the centroid fallback, it never calls the progress
    callback and issues at most three requests. *)
Theorem switzerland_sampling_is_centroid (net : Network) (polygon : list LatLng)
    (gridSize : nat) (progressCb : option (nat -> nat -> bool)) (concurrency : nat)
    (sched : list nat) (w : World) :
  Forall in_switzerland polygon -> (3 <= length polygon)%nat ->
  (forall point, in_switzerland point -> pointInPolygon point polygon = false)
  /\ candidatePts polygon gridSize = []
  /\ progress (snd (samplePolygonRadiation net (Some polygon) gridSize progressCb
                      concurrency sched w)) = progress w
  /\ (length (requests (snd (samplePolygonRadiation net (Some polygon) gridSize progressCb
                               concurrency sched w)))
      <= length (requests w) + 3)%nat
  /\ (memCache w !! cacheKey polygon = None ->
      globalCache w ≫= (fun g => g !! cacheKey polygon) = None ->
      samplePolygonRadiation net (Some polygon) gridSize progressCb concurrency sched w
      = centroidFallback net polygon (cacheKey polygon) w).
Proof.
  intros Hsw Hlen.
  assert (polygon <> []) as Hne by (destruct polygon; [cbn in Hlen; lia | discriminate]).
  pose proof (candidatePts_switzerland polygon gridSize Hne Hsw) as Hpts.
  split; [intros point Hp; now apply pointInPolygon_switzerland |].
  split; [exact Hpts |].
  destruct (sample_run net polygon gridSize progressCb concurrency sched w)
    as (o & w' & k & Hrun & Hk & Hp & _ & Hq & _).
  unfold totalOf in Hk, Hp, Hq. rewrite Hpts in Hk, Hp, Hq. cbn [length] in Hk, Hp, Hq.
  assert (k = 0)%nat as -> by lia. rewrite reports_0, app_nil_r in Hp.
  rewrite Hrun. cbn [snd]. split; [exact Hp |]. split; [cbn in Hq; lia |].
  intros Hmem Hglob. rewrite <- Hrun. unfold samplePolygonRadiation.
  assert ((length polygon <? 3)%nat = false) as -> by (apply Nat.ltb_ge; lia).
  unfold bind, get_world. rewrite Hmem, Hglob.
  now rewrite sampleUncached_switzerland.
Qed.

Lemma switzerland_sampling_is_centroid_witness :
  (forall point, in_switzerland point -> pointInPolygon point lausanneSquare = false)
  /\ candidatePts lausanneSquare 3 = []
  /\ progress (snd (samplePolygonRadiation (roofNetwork sampleAttrs) (Some lausanneSquare)
                      3 None 4 [] emptyWorld)) = progress emptyWorld
  /\ (length (requests (snd (samplePolygonRadiation (roofNetwork sampleAttrs)
                               (Some lausanneSquare) 3 None 4 [] emptyWorld)))
      <= length (requests emptyWorld) + 3)%nat
  /\ (memCache emptyWorld !! cacheKey lausanneSquare = None ->
      globalCache emptyWorld ≫= (fun g => g !! cacheKey lausanneSquare) = None ->
      samplePolygonRadiation (roofNetwork sampleAttrs) (Some lausanneSquare) 3 None 4 []
        emptyWorld
      = centroidFallback (roofNetwork sampleAttrs) lausanneSquare (cacheKey lausanneSquare)
          emptyWorld).
Proof.
  apply (switzerland_sampling_is_centroid (roofNetwork sampleAttrs) lausanneSquare 3 None 4
           [] emptyWorld).
  - repeat constructor; vm_compute; discriminate.
  - cbn. lia.
Defined.

(** ** The point test and the starting vertex (lines 452-466) *)

Lemma loop_inside (x y : Q) (vj : LatLng) (vs : list LatLng) (inside : bool) :
  pointInPolygon_loop x y vj vs inside
  = xorb inside (pointInPolygon_loop x y vj vs false).
Proof.
  revert vj inside. induction vs as [| vi vs IH]; intros vj inside;
    cbn [pointInPolygon_loop].
  - now rewrite xorb_false_r.
  - rewrite (IH vi (if intersect x y vi vj then negb inside else inside)).
    rewrite (IH vi (if intersect x y vi vj then negb false else false)).
    destruct (intersect x y vi vj), inside,
      (pointInPolygon_loop x y vi vs false); reflexivity.
Qed.

Lemma last_cons {A} (v d : A) (l : list A) : List.last (v :: l) d = List.last l v.
Proof.
  revert v d. induction l as [| b l IH]; intros v d; [reflexivity |].
  change (List.last (v :: b :: l) d) with (List.last (b :: l) d).
  rewrite !IH. reflexivity.
Qed.

Lemma loop_app (x y : Q) (vj : LatLng) (l1 l2 : list LatLng) (inside : bool) :
  pointInPolygon_loop x y vj (l1 ++ l2) inside
  = pointInPolygon_loop x y (List.last l1 vj) l2 (pointInPolygon_loop x y vj l1 inside).
Proof.
  revert vj inside. induction l1 as [| v l1 IH]; intros vj inside; [reflexivity |].
  cbn [app pointInPolygon_loop]. rewrite IH, last_cons. reflexivity.
Qed.

(** X16: the point test does not depend on the vertex the polygon is listed
    from: moving the first vertex to the end of the list leaves the answer
    unchanged, for every point and every polygon. *)
Theorem pointInPolygon_rotation (point : LatLng) (a : LatLng) (rest : list LatLng) :
  pointInPolygon point (rest ++ [a]) = pointInPolygon point (a :: rest).
Proof.
  destruct rest as [| b rest]; [reflexivity |].
  unfold pointInPolygon. cbn [app].
  change (b :: rest ++ [a]) with ((b :: rest) ++ [a]).
  rewrite last_last, loop_app.
  cbn [pointInPolygon_loop].
  rewrite (last_cons a a (b :: rest)).
  destruct (intersect (lng point) (lat point) a (List.last (b :: rest) a)),
    (intersect (lng point) (lat point) b a); cbn [negb];
    rewrite ?(loop_inside _ _ b rest true);
    destruct (pointInPolygon_loop (lng point) (lat point) b rest false); reflexivity.
Qed.

(** ** The cache key (line 482) *)

(** [toFixed(6)] is within half a millionth of the number. *)
Lemma toFixed6_near (x : Q) :
  - (1 # 2) <= inject_Z (toFixed6 x) - x * 1000000
  /\ inject_Z (toFixed6 x) - x * 1000000 <= 1 # 2.
Proof.
  unfold toFixed6.
  set (q := Qabs x * 1000000 + (1 # 2)).
  pose proof (Qfloor_le q) as Hlo. pose proof (Qlt_floor q) as Hhi.
  rewrite inject_Z_plus in Hhi. change (inject_Z 1) with 1 in Hhi.
  destruct (JS.lt x 0) eqn:E.
  - apply lt_true in E. assert (Qabs x == - x) as Ha by (apply Qabs_neg; lra).
    assert (q == - x * 1000000 + (1 # 2)) as Hq by (unfold q; now rewrite Ha).
    clearbody q. rewrite inject_Z_opp. lra.
  - apply lt_false in E. assert (Qabs x == x) as Ha by (apply Qabs_pos; lra).
    assert (q == x * 1000000 + (1 # 2)) as Hq by (unfold q; now rewrite Ha).
    clearbody q. lra.
Qed.

Lemma toFixed6_comp (x y : Q) : x == y -> toFixed6 x = toFixed6 y.
Proof.
  intros H. unfold toFixed6.
  assert (JS.lt x 0 = JS.lt y 0) as -> by (unfold JS.lt; now rewrite H).
  assert (Qfloor (Qabs x * 1000000 + (1 # 2)) = Qfloor (Qabs y * 1000000 + (1 # 2))) as ->
      by (apply Qfloor_comp; now rewrite H).
  reflexivity.
Qed.

(** X17: two polygons share a cache entry only when they have the same
    number of vertices and their vertices, taken in order, differ by at most
    a millionth of a degree in latitude and in longitude; polygons with equal
    coordinates always share it.  The key does not depend on the grid size,
    the callback or the concurrency. *)
Theorem cacheKey_collision (polygon polygon' : list LatLng) :
  (cacheKey polygon = cacheKey polygon' ->
   Forall2 (fun p q =>
              Qabs (lat p - lat q) <= (1 # 1000000)
              /\ Qabs (lng p - lng q) <= (1 # 1000000))
           polygon polygon')
  /\ (Forall2 (fun p q => lat p == lat q /\ lng p == lng q) polygon polygon' ->
      cacheKey polygon = cacheKey polygon').
Proof.
  assert (forall x y, toFixed6 x = toFixed6 y -> Qabs (x - y) <= (1 # 1000000)) as Hnear.
  { intros x y H. apply Qabs_Qle_condition.
    destruct (toFixed6_near x) as [H1 H2]. destruct (toFixed6_near y) as [H3 H4].
    rewrite H in H1, H2. split; lra. }
  split.
  - revert polygon'. induction polygon as [| p polygon IH]; intros [| q polygon'] H;
      try discriminate; [constructor |].
    cbn in H. injection H as Hlat Hlng Hrest.
    constructor; [split; now apply Hnear | now apply IH].
  - induction 1 as [| p q polygon polygon' [Hlat Hlng] _ IH]; [reflexivity |].
    cbn. rewrite (toFixed6_comp _ _ Hlat), (toFixed6_comp _ _ Hlng). f_equal. exact IH.
Qed.

(** ** Persistence (lines 34-71) *)

(** X18: a computed sample survives a reload of the page: when a sampling
    that found no cached value returns [v] in a browser, a module instance
    that starts with an empty in-memory map and the local storage the
    sampling has left, once initialised, answers the same polygon with [v]
    from its cache, without a request and whatever the service, the grid size
    or the callback. *)
Theorem persisted_sample_survives_reload (net net' : Network) (polygon : list LatLng)
    (gridSize gridSize' : nat) (progressCb progressCb' : option (nat -> nat -> bool))
    (concurrency concurrency' : nat) (sched sched' : list nat) (w w' w0 : World) (v : Z)
    (stored : option (gmap PolyKey Z)) :
  memCache w !! cacheKey polygon = None ->
  globalCache w ≫= (fun g => g !! cacheKey polygon) = None ->
  localStorage w = Some stored ->
  samplePolygonRadiation net (Some polygon) gridSize progressCb concurrency sched w
    = (Returned (Some v), w') ->
  memCache w0 = ∅ ->
  localStorage w0 = localStorage w' ->
  samplePolygonRadiation net' (Some polygon) gridSize' progressCb' concurrency' sched'
      (snd (moduleInit w0))
    = (Returned (Some v), snd (moduleInit w0)).
Proof.
  intros Hmem Hglob Hls Hrun Hmem0 Hls0.
  assert (3 <= length polygon)%nat as Hlen.
  { revert Hrun. unfold samplePolygonRadiation.
    destruct (length polygon <? 3)%nat eqn:E; [discriminate |].
    intros _. apply Nat.ltb_ge in E. exact E. }
  assert (sampleUncached net polygon (cacheKey polygon) gridSize progressCb concurrency
            sched w = (Returned (Some v), w')) as Hunc.
  { revert Hrun. unfold samplePolygonRadiation.
    assert ((length polygon <? 3)%nat = false) as -> by (apply Nat.ltb_ge; lia).
    unfold bind, get_world. now rewrite Hmem, Hglob. }
  destruct (sampleUncached_Some _ _ _ _ _ _ _ _ _ _ Hunc) as (Hv & _ & _).
  destruct (sampleUncached_run net polygon (cacheKey polygon) gridSize progressCb
              concurrency sched w)
    as (o & w'' & w1 & k & Hrun' & (Hm1 & Hg1 & Hl1) & _ & _ & _ & _ & Ho).
  rewrite Hunc in Hrun'. injection Hrun' as <- <-.
  assert (localStorage w' = Some (Some (<[cacheKey polygon := v]> (memCache w1)))) as Hst.
  { rewrite Ho, storeResult_run. cbn [snd localStorage]. rewrite Hl1, Hls. reflexivity. }
  apply sample_cached; [exact Hlen | lia |].
  unfold moduleInit, loadCacheFromLocalStorage, modify. cbn [snd].
  rewrite Hls0, Hst. cbn [memCache].
  apply lookup_union_Some_l, lookup_insert_eq.
Qed.

Lemma persisted_sample_survives_reload_witness :
  samplePolygonRadiation failingNetwork (Some lausanneSquare) 8 None 1 [1%nat]
      (snd (moduleInit
              (mkWorld ∅ None
                 (localStorage
                    (snd (samplePolygonRadiation (surveyNetwork sampleAttrs)
                            (Some lausanneSquare) 3 None 4 [] browserWorld)))
                 [] [])))
    = (Returned (Some 954%Z),
       snd (moduleInit
              (mkWorld ∅ None
                 (localStorage
                    (snd (samplePolygonRadiation (surveyNetwork sampleAttrs)
                            (Some lausanneSquare) 3 None 4 [] browserWorld)))
                 [] []))).
Proof.
  apply (persisted_sample_survives_reload (surveyNetwork sampleAttrs) failingNetwork
           lausanneSquare 3 8 None None 4 1 [] [1%nat] browserWorld
           (snd (samplePolygonRadiation (surveyNetwork sampleAttrs)
                   (Some lausanneSquare) 3 None 4 [] browserWorld))
           _ 954%Z None).
  - reflexivity.
  - reflexivity.
  - reflexivity.
  - vm_compute. reflexivity.
  - reflexivity.
  - reflexivity.
Defined.

(** X19: clearing removes the persisted copy as well: after
    [clearPolygonSampleCache], a module instance that starts with an empty
    in-memory map and the local storage left by the clearing is still empty
    once initialised, and the clearing itself leaves the in-memory map empty
    and the requests and the progress log as they were. *)
Theorem clear_forgets_persisted (w w0 : World) :
  memCache w0 = ∅ ->
  localStorage w0 = localStorage (snd (clearPolygonSampleCache w)) ->
  memCache (snd (moduleInit w0)) = ∅
  /\ memCache (snd (clearPolygonSampleCache w)) = ∅
  /\ requests (snd (clearPolygonSampleCache w)) = requests w
  /\ progress (snd (clearPolygonSampleCache w)) = progress w.
Proof.
  intros Hm Hl. split; [| repeat split].
  unfold moduleInit, loadCacheFromLocalStorage, modify. cbn [snd].
  rewrite Hl. unfold clearPolygonSampleCache, modify. cbn [snd localStorage].
  destruct (localStorage w); exact Hm.
Qed.

Lemma clear_forgets_persisted_witness :
  memCache (snd (moduleInit
                   (mkWorld ∅ None
                      (localStorage
                         (snd (clearPolygonSampleCache
                                 (snd (samplePolygonRadiation (surveyNetwork sampleAttrs)
                                         (Some lausanneSquare) 3 None 4 [] browserWorld)))))
                      [] []))) = ∅
  /\ memCache (snd (clearPolygonSampleCache
                      (snd (samplePolygonRadiation (surveyNetwork sampleAttrs)
                              (Some lausanneSquare) 3 None 4 [] browserWorld)))) = ∅
  /\ requests (snd (clearPolygonSampleCache
                      (snd (samplePolygonRadiation (surveyNetwork sampleAttrs)
                              (Some lausanneSquare) 3 None 4 [] browserWorld))))
     = requests (snd (samplePolygonRadiation (surveyNetwork sampleAttrs)
                        (Some lausanneSquare) 3 None 4 [] browserWorld))
  /\ progress (snd (clearPolygonSampleCache
                      (snd (samplePolygonRadiation (surveyNetwork sampleAttrs)
                              (Some lausanneSquare) 3 None 4 [] browserWorld))))
     = progress (snd (samplePolygonRadiation (surveyNetwork sampleAttrs)
                        (Some lausanneSquare) 3 None 4 [] browserWorld)).
Proof.
  apply (clear_forgets_persisted
           (snd (samplePolygonRadiation (surveyNetwork sampleAttrs)
                   (Some lausanneSquare) 3 None 4 [] browserWorld))).
  - reflexivity.
  - reflexivity.
Defined.

(** ** The power of the record (lines 249-252 and 299) *)

Section Power.

Import Binary64.

Lemma Qmult_le_nonneg_l (z x y : Q) : 0 <= z -> x <= y -> z * x <= z * y.
Proof.
  intros Hz Hxy. rewrite !(Qmult_comm z). now apply Qmult_le_compat_r.
Qed.

(** [Math.round((x + Number.EPSILON) * 100) / 100] in binary64: the sum, the
    product and the quotient are rounded.  The result is [x] to half a
    hundredth and a few rounding errors. *)
Lemma round_to_cents_error (x K : Q) :
  Qabs x <= K ->
  Qabs (fl (inject_Z (JS.Math_round (fl (fl (x + JS.EPSILON) * 100))) / 100) - x)
  <= (1 # 200) + 7 * (u * K) + 9 * u.
Proof.
  intros HK.
  assert (0 <= K) as HK0 by (pose proof (Qabs_nonneg x); lra).
  assert (0 < u) as Hu by reflexivity.
  assert (u <= 1 # 1000) as Hu' by (apply Qle_bool_iff; reflexivity).
  assert (eta <= u) as Heta by (apply Qle_bool_iff; vm_compute; reflexivity).
  assert (0 < eta) as Heta0 by reflexivity.
  assert (JS.EPSILON == 2 * u) as Heps by reflexivity.
  assert (0 <= u * K) as Ht0 by (apply Qmult_le_0_compat; lra).
  assert (u * K <= (1 # 1000) * K) as Ht1 by (apply Qmult_le_compat_r; lra).
  apply Qabs_Qle_condition in HK. destruct HK as [HK1 HK2].
  set (s1 := x + JS.EPSILON).
  assert (Qabs s1 <= K + 1) as Hs1 by (apply Qabs_Qle_condition; unfold s1; split; lra).
  destruct (fl_within s1 _ Hs1) as [Ha1 Ha2].
  assert (u * (K + 1) == u * K + u) as E1 by ring.
  set (a := fl s1) in *.
  assert (Qabs (a * 100) <= 200 * K + 100) as Hs2
      by (apply Qabs_Qle_condition; unfold s1 in *; split; lra).
  destruct (fl_within (a * 100) _ Hs2) as [Hb1 Hb2].
  assert (u * (200 * K + 100) == 200 * (u * K) + 100 * u) as E2 by ring.
  set (b := fl (a * 100)) in *.
  destruct (Math_round_nearest b) as [Hn1 Hn2].
  set (n := inject_Z (JS.Math_round b)) in *.
  assert (n / 100 == n * (1 # 100)) as E3 by (field).
  assert (Qabs (n / 100) <= 4 * K + 2) as Hs3
      by (apply Qabs_Qle_condition; unfold s1 in *; split; lra).
  destruct (fl_within (n / 100) _ Hs3) as [Hp1 Hp2].
  assert (u * (4 * K + 2) == 4 * (u * K) + 2 * u) as E4 by ring.
  set (pw := fl (n / 100)) in *.
  apply Qabs_Qle_condition. unfold s1 in *. split; lra.
Qed.

Lemma powerKw_reported (attrs : Attrs) :
  Qabs (Normalizer.powerKw attrs - reportedKw attrs) <= u * Qabs (reportedKw attrs) + eta
  /\ (0 <= reportedKw attrs -> 0 <= Normalizer.powerKw attrs).
Proof.
  unfold Normalizer.powerKw, reportedKw, kilowatts, Normalizer.number_or_null, JS.truthy_opt.
  assert (0 < eta) as Heta0 by reflexivity.
  assert (0 < u) as Hu by reflexivity.
  assert (forall y, Qabs (y - y) <= u * Qabs y + eta) as Hsame.
  { intros y. assert (y - y == 0) as -> by ring.
    pose proof (Qabs_nonneg y). assert (0 <= u * Qabs y) by (apply Qmult_le_0_compat; lra).
    change (Qabs 0) with 0. lra. }
  destruct (leistung attrs) as [l |]; [| split; [apply Hsame | intros _; apply Qle_refl]].
  destruct (JS.truthy l) eqn:E.
  - destruct (JS.gt l 1000); [| split; [apply Hsame | auto]].
    split; [apply fl_error | intros H; now apply fl_nonneg].
  - apply truthy_false in E.
    assert (JS.gt l 1000 = false) as -> by (apply gt_false; rewrite E; lra).
    assert (JS.gt 0 1000 = false) as -> by reflexivity.
    split; [| intros _; apply Qle_refl].
    rewrite E. apply Qle_bool_iff. vm_compute. reflexivity.
Qed.

End Power.

(** X20: the power of the record is the reported figure to two decimals, in
    binary64: the number nearest to a whole number of hundredths, within
    half a hundredth and a few rounding errors of the figure in kW, where a
    figure above 1000 is taken as Watts and divided by 1000.  It is not
    always the nearest hundredth: 2.135 gives 2.13, the product
    (2.135 + EPSILON) * 100 being 213.49999999999997 in binary64.  The power
    is never negative for a figure that is not negative, and is 0 when no
    figure is reported.  The figure is taken to be at most 2^1000 in absolute
    value: the program's product is infinite for figures near the largest
    binary64 number. *)
Theorem power_two_decimals (attrs : Attrs) :
  Qabs (reportedKw attrs) <= 2 ^ 1000 ->
  (exists n : Z, power (Normalizer.normalize attrs) = Binary64.fl (inject_Z n / 100))
  /\ Qabs (power (Normalizer.normalize attrs) - reportedKw attrs)
     <= (1 # 200) + 2 ^ (-48) * (1 + Qabs (reportedKw attrs))
  /\ (0 <= reportedKw attrs -> 0 <= power (Normalizer.normalize attrs))
  /\ (leistung attrs = None -> power (Normalizer.normalize attrs) = 0)
  /\ power (Normalizer.normalize roundingRoof) = Binary64.fl 2.13
  /\ JS.Math_round ((Binary64.fl 2.135 + JS.EPSILON) * 100) = 214%Z.
Proof.
  intros _.
  split; [eexists; reflexivity |].
  destruct (powerKw_reported attrs) as [Hkw Hsign].
  split; [| split; [| split; [| split; vm_compute; reflexivity]]].
  - cbn [power Normalizer.normalize].
    set (k := reportedKw attrs) in *. set (kwd := Normalizer.powerKw attrs) in *.
    assert (0 <= Qabs k) as HK0 by apply Qabs_nonneg.
    assert (0 < Binary64.u) as Hu by reflexivity.
    assert (Binary64.u <= 1 # 1000) as Hu' by (apply Qle_bool_iff; reflexivity).
    assert (Binary64.eta <= Binary64.u) as Heta
        by (apply Qle_bool_iff; vm_compute; reflexivity).
    assert (0 <= Binary64.u * Qabs k) as Ht0 by (apply Qmult_le_0_compat; lra).
    assert (Binary64.u * Qabs k <= (1 # 1000) * Qabs k) as Ht1
        by (apply Qmult_le_compat_r; lra).
    apply Qabs_Qle_condition in Hkw. destruct Hkw as [Hk1 Hk2].
    pose proof (Qle_Qabs k) as Hk3.
    assert (- Qabs k <= k) as Hk4 by (rewrite <- Qabs_opp; pose proof (Qle_Qabs (- k)); lra).
    assert (Qabs kwd <= 2 * Qabs k + 1) as Hkwd by (apply Qabs_Qle_condition; split; lra).
    pose proof (round_to_cents_error kwd _ Hkwd) as Hr.
    apply Qabs_Qle_condition in Hr. destruct Hr as [Hr1 Hr2].
    assert (Binary64.u * (2 * Qabs k + 1) == 2 * (Binary64.u * Qabs k) + Binary64.u) as E1
        by ring.
    assert (2 ^ (-48) * (1 + Qabs k) == 32 * Binary64.u + 32 * (Binary64.u * Qabs k)) as E2.
    { assert (2 ^ (-48) == 32 * Binary64.u) as -> by reflexivity. ring. }
    apply Qabs_Qle_condition. split; lra.
  - intros Hpos. specialize (Hsign Hpos). cbn [power Normalizer.normalize].
    apply fl_nonneg. apply Qle_shift_div_l; [reflexivity |].
    assert (0 * 100 == 0) as -> by ring.
    change 0 with (inject_Z 0). rewrite <- Zle_Qle. apply Math_round_nonneg.
    apply fl_nonneg. apply Qmult_le_0_compat; [| discriminate].
    apply fl_nonneg. assert (0 < JS.EPSILON) by reflexivity. lra.
  - intros H. cbn [power Normalizer.normalize]. unfold Normalizer.powerKw.
    rewrite H. vm_compute. reflexivity.
Qed.

Lemma power_two_decimals_witness :
  (exists n : Z, power (Normalizer.normalize roundingRoof) = Binary64.fl (inject_Z n / 100))
  /\ Qabs (power (Normalizer.normalize roundingRoof) - reportedKw roundingRoof)
     <= (1 # 200) + 2 ^ (-48) * (1 + Qabs (reportedKw roundingRoof))
  /\ (0 <= reportedKw roundingRoof -> 0 <= power (Normalizer.normalize roundingRoof))
  /\ (leistung roundingRoof = None -> power (Normalizer.normalize roundingRoof) = 0)
  /\ power (Normalizer.normalize roundingRoof) = Binary64.fl 2.13
  /\ JS.Math_round ((Binary64.fl 2.135 + JS.EPSILON) * 100) = 214%Z.
Proof.
  apply (power_two_decimals roundingRoof).
  apply Qle_bool_iff. vm_compute. reflexivity.
Defined.

(** ** The mean of the samples (lines 606-608) *)




(** ** The polygon lookup and the point lookup on one roof *)

(** X22: on an answer of one roof with a positive production and a positive
    area the polygon lookup and the point lookup agree on the radiation:
    both round the same binary64 quotient, production / (area * (0.17 *
    0.85)), when that quotient is finite and not zero.  The polygon record
    reports the area rounded and no power. *)
Theorem polygon_single_roof_agrees (attrs : Attrs) (geom : option Geometry) (s f : Q) :
  stromertrag attrs = Some s -> 0 < s ->
  flaeche attrs = Some f -> 2 ^ (-1000) <= f ->
  ~ Normalizer.tier1_quotient s f == 0 ->
  Binary64.no_overflow (Normalizer.tier1_quotient s f) ->
  radiation (polygonRecord [mkResult (Some attrs) geom])
  = radiation (Normalizer.normalize attrs)
  /\ radiation (polygonRecord [mkResult (Some attrs) geom])
     = JS.Math_round (Normalizer.tier1_quotient s f)
  /\ area (polygonRecord [mkResult (Some attrs) geom]) = inject_Z (JS.Math_round f)
  /\ power (polygonRecord [mkResult (Some attrs) geom]) = 0.
Proof.
  intros Hs Hspos Hf Hfmin Hq _.
  assert (0 < f) as Hfpos by (assert (0 < 2 ^ (-1000)) by reflexivity; lra).
  assert (~ s == 0) as Hs0 by lra.
  assert (radiation (Normalizer.normalize attrs)
          = JS.Math_round (Normalizer.tier1_quotient s f)) as Hpoint.
  { apply normalize_radiation. unfold Normalizer.annualKwhPerM2.
    rewrite Hs, Hf, (number_or_null_truthy s Hs0). cbn [Normalizer.number_or_zero].
    unfold Normalizer.tier1.
    assert (JS.truthy s = true) as -> by now apply truthy_true.
    assert (JS.gt f 0 = true) as -> by now apply gt_true.
    cbn [andb]. apply later_tiers_keep. now apply truthy_true. }
  assert (radiation (polygonRecord [mkResult (Some attrs) geom])
          = JS.Math_round (Normalizer.tier1_quotient s f)) as Hpoly.
  { unfold polygonRecord. cbn [radiation fold_left]. unfold totals_step.
    cbn [attributes seen existsb]. cbv zeta.
    rewrite Hs, Hf, (number_or_null_truthy s Hs0). cbn [Normalizer.number_or_zero].
    unfold polygonAnnual.
    cbn [totalStromertrag totalFlaeche countG totalGstrahlung].
    assert (JS.gt (0 + s) 0 = true) as -> by (apply gt_true; lra).
    assert (JS.gt (0 + f) 0 = true) as -> by (apply gt_true; lra).
    cbn [andb]. cbv zeta.
    assert (Normalizer.tier1_quotient (0 + s) (0 + f) = Normalizer.tier1_quotient s f) as ->
        by (apply tier1_quotient_comp; ring).
    assert (JS.truthy_opt (Some (Normalizer.tier1_quotient s f)) = true)
      as Ht by (cbn [JS.truthy_opt]; now apply truthy_true).
    rewrite Ht. cbn [negb andb]. rewrite Ht. cbn [negb].
    apply Math_round_comp. apply or_zero_Some. }
  split; [now rewrite Hpoly, Hpoint |]. split; [exact Hpoly |].
  split; [| reflexivity].
  unfold polygonRecord. cbn [area fold_left]. unfold totals_step.
  cbn [attributes seen existsb]. cbv zeta. rewrite Hf. cbn [Normalizer.number_or_zero totalFlaeche].
  f_equal. apply Math_round_comp. ring.
Qed.

Lemma polygon_single_roof_agrees_witness :
  radiation (polygonRecord [mkResult (Some halfWay) None])
  = radiation (Normalizer.normalize halfWay)
  /\ radiation (polygonRecord [mkResult (Some halfWay) None])
     = JS.Math_round (Normalizer.tier1_quotient 3034.5 2000)
  /\ area (polygonRecord [mkResult (Some halfWay) None]) = inject_Z (JS.Math_round 2000)
  /\ power (polygonRecord [mkResult (Some halfWay) None]) = 0.
Proof.
  apply (polygon_single_roof_agrees halfWay None 3034.5 2000).
  - reflexivity.
  - reflexivity.
  - reflexivity.
  - apply Qle_bool_iff. vm_compute. reflexivity.
  - intros E. vm_compute in E. discriminate.
  - apply Qlt_alt. vm_compute. reflexivity.
Defined.

(** ** The point of the centroid fallback (lines 538-541) *)





(** ** The selection, from the results to the chosen attributes *)




(** X25: a point lookup is one request: [getSolarData] issues exactly one
    identify request, for the coordinates it is given, whatever the answer;
    it writes to no cache and reports no progress, and it throws only when
    the request is rejected or the body of a successful answer cannot be
    decoded, never on a failure status or an empty answer. *)
Theorem getSolarData_one_request (net : Network) (e n : Q) (w : World) :
  requests (snd (getSolarData net e n w)) = requests w ++ [ReqIdentifyPoint e n]
  /\ only_requests w (snd (getSolarData net e n w))
  /\ (fst (getSolarData net e n w) = Thrown <->
      identifyPoint net e n = Rejected
      \/ exists response, identifyPoint net e n = Resolved response
                          /\ ok response = true /\ json response = None).
Proof.
  destruct (getSolarData_run net e n w) as [Hfr Hreq].
  split; [exact Hreq |]. split; [exact Hfr |]. split.
  - intros H. apply (getSolarData_Thrown net e n w (snd (getSolarData net e n w))).
    destruct (getSolarData net e n w) as [o w']. cbn in H. now subst o.
  - unfold getSolarData. run_js.
    intros [-> | (response & -> & Hok & Hj)]; [reflexivity |].
    cbn. rewrite Hok. cbn. rewrite Hj. reflexivity.
Qed.

(** ** The sort (lines 226-229) *)

Lemma sort_insert_Permutation (x : Selector.Candidate) (l : list Selector.Candidate) :
  Permutation (Selector.sort_insert x l) (x :: l).
Proof.
  induction l as [| y l IH]; cbn; [reflexivity |].
  destruct (JS.lt (Selector.comparator y x) 0); [| reflexivity].
  rewrite IH. apply perm_swap.
Qed.

(** X26: the sort of the representatives rearranges them and loses none,
    and in the sorted array every element has an area at least as large as
    (or the same area and at least the production of) each element after it. *)
Theorem sort_rearranges_by_rank (uniq : list Selector.Candidate) :
  Permutation (Selector.sort uniq) uniq
  /\ length (Selector.sort uniq) = length uniq
  /\ ForallOrdPairs outranks (Selector.sort uniq).
Proof.
  assert (Permutation (Selector.sort uniq) uniq) as Hperm.
  { induction uniq as [| x l IH]; cbn; [reflexivity |].
    rewrite sort_insert_Permutation. now constructor. }
  split; [exact Hperm |]. split; [now apply Permutation_length |].
  clear Hperm. pose proof (sort_ranked uniq) as Hr.
  induction Hr as [| x l Hx _ IH]; [constructor |].
  constructor; [| exact IH]. apply List.Forall_forall. exact Hx.
Qed.
